(** * Large-file-streamer: the log viewer's line-stream engine

    A shallow embedding of the two log viewers of the repository

    - [src/components/LogViewer.tsx]: the first viewer, which keeps at most
      [MAX_DISPLAY_LINES] lines (module [CappedViewer]);
    - the live-tailing viewer (the later [LogViewer.tsx], with [isLive] and
      [tailLogFile]; module [LiveViewer]),

    together with the browser primitives they call ([TextDecoder],
    [String.prototype.split], [trim], [includes], [Array.prototype.slice]),
    which are modelled in module [Js].

    Conventions.  A JavaScript string is the list of its UTF-16 code units, a
    [Uint8Array] is a [list byte], a JavaScript number that the code only ever
    uses as a counter is a [Z], and pixel quantities are exact rationals [Q].
    Where the code divides and multiplies Numbers (the progress bar) the
    result is rounded to a double ([round_double]).  The React state of a
    component is a record; every [setX] call is a field update. *)

From Stdlib Require Import ZArith QArith Qround Qminmax Qpower Lia Lqa.
From Stdlib Require Import Strings.String Strings.Byte.
From stdpp Require Import base list sorting strings pretty.

Set Default Proof Using "Type".

(** ** Browser primitives *)

Module Js.

(** A JavaScript string: its UTF-16 code units. *)
Definition jsstring := list Z.

Definition byte_val (b : byte) : Z := Z.of_N (Byte.to_N b).

(** [value.length] / [newContent.byteLength]. *)
Definition byteLength (value : list byte) : Z := Z.of_nat (length value).

(** *** The UTF-8 decoder of the Encoding standard

    [new TextDecoder()] is a UTF-8 decoder with error mode "replacement" and
    [ignoreBOM = false]. *)

Record utf8_decoder := Utf8 {
  code_point : Z;
  bytes_seen : Z;
  bytes_needed : Z;
  lower_boundary : Z;
  upper_boundary : Z
}.

Definition utf8_initial : utf8_decoder :=
  Utf8 0 0 0 0x80 0xBF.

Definition REPLACEMENT : Z := 0xFFFD.

(** The handler when [bytes_needed] is 0: the byte starts a code point. *)
Definition utf8_lead (b : Z) : utf8_decoder * list Z :=
  if (b <=? 0x7F)%Z then (utf8_initial, [b])
  else if ((0xC2 <=? b) && (b <=? 0xDF))%Z then
    (Utf8 (Z.land b 0x1F) 0 1 0x80 0xBF, [])
  else if ((0xE0 <=? b) && (b <=? 0xEF))%Z then
    (Utf8 (Z.land b 0xF) 0 2
       (if (b =? 0xE0)%Z then 0xA0 else 0x80)
       (if (b =? 0xED)%Z then 0x9F else 0xBF), [])
  else if ((0xF0 <=? b) && (b <=? 0xF4))%Z then
    (Utf8 (Z.land b 0x7) 0 3
       (if (b =? 0xF0)%Z then 0x90 else 0x80)
       (if (b =? 0xF4)%Z then 0x8F else 0xBF), [])
  else (utf8_initial, [REPLACEMENT]).

(** One byte through the handler.  A byte outside the expected continuation
    range is an error (U+FFFD is emitted) and the byte is put back on the
    queue, so it is handled again by the reset decoder. *)
Definition utf8_handler (d : utf8_decoder) (b : Z) : utf8_decoder * list Z :=
  if (bytes_needed d =? 0)%Z then utf8_lead b
  else if negb ((lower_boundary d <=? b) && (b <=? upper_boundary d))%Z then
    let '(d', out) := utf8_lead b in (d', REPLACEMENT :: out)
  else
    let cp := Z.lor (Z.shiftl (code_point d) 6) (Z.land b 0x3F) in
    let seen := (bytes_seen d + 1)%Z in
    if (seen =? bytes_needed d)%Z then (utf8_initial, [cp])
    else (Utf8 cp seen (bytes_needed d) 0x80 0xBF, []).

(** End of queue (only reached by a non-streaming [decode]). *)
Definition utf8_finish (d : utf8_decoder) : list Z :=
  if (bytes_needed d =? 0)%Z then [] else [REPLACEMENT].

(** A scalar value as UTF-16 code units. *)
Definition utf16 (cp : Z) : jsstring :=
  if (cp <? 0x10000)%Z then [cp]
  else [ (0xD800 + Z.shiftr (cp - 0x10000) 10)%Z;
         (0xDC00 + Z.land (cp - 0x10000) 0x3FF)%Z ].

Record TextDecoder := MkDecoder {
  utf8 : utf8_decoder;
  bom_seen : bool;
  do_not_flush : bool
}.

Definition new_TextDecoder : TextDecoder := MkDecoder utf8_initial false false.

(** "Serialize I/O queue": the first scalar value sets [bom_seen] and is
    dropped when it is U+FEFF. *)
Fixpoint serialize (seen : bool) (cps : list Z) : bool * jsstring :=
  match cps with
  | [] => (seen, [])
  | cp :: rest =>
      let '(seen', out) := serialize true rest in
      (seen', if (negb seen && (cp =? 0xFEFF)%Z)%bool then out
              else utf16 cp ++ out)
  end.

(** The bytes of one call, through handler and serializer. *)
Fixpoint feed (d : utf8_decoder) (seen : bool) (input : list byte)
  : utf8_decoder * bool * jsstring :=
  match input with
  | [] => (d, seen, [])
  | b :: rest =>
      let '(d1, cps) := utf8_handler d (byte_val b) in
      let '(seen1, out1) := serialize seen cps in
      let '(d2, seen2, out2) := feed d1 seen1 rest in
      (d2, seen2, out1 ++ out2)
  end.

(** [decoder.decode(input, { stream })]. *)
Definition decode (td : TextDecoder) (input : list byte) (stream : bool)
  : TextDecoder * jsstring :=
  let td0 := if do_not_flush td then td else new_TextDecoder in
  let '(d, seen, out) := feed (utf8 td0) (bom_seen td0) input in
  if stream then (MkDecoder d seen true, out)
  else
    let '(seen', tail) := serialize seen (utf8_finish d) in
    (MkDecoder utf8_initial seen' false, out ++ tail).

(** *** Strings and arrays *)

Definition LF : Z := 10.

(** A character that is not a terminator joins the first segment. *)
Definition push_char (c : Z) (segs : list jsstring) : list jsstring :=
  match segs with
  | [] => [[c]]
  | seg :: segs' => (c :: seg) :: segs'
  end.

(** [s.split('\n')]: never empty, [''.split('\n')] is [['']]. *)
Fixpoint split_nl (s : jsstring) : list jsstring :=
  match s with
  | [] => [[]]
  | c :: rest =>
      if (c =? LF)%Z then [] :: split_nl rest
      else push_char c (split_nl rest)
  end.

(** [lines.join('\n')]. *)
Fixpoint join_nl (lines : list jsstring) : jsstring :=
  match lines with
  | [] => []
  | [l] => l
  | l :: rest => l ++ LF :: join_nl rest
  end.

(** [a.pop()]: the removed last element ([undefined] on an empty array) and
    the array that is left. *)
Definition pop {A} (a : list A) : option A * list A := (last a, removelast a).

(** [x || ''] for a string or [undefined]. *)
Definition or_empty (x : option jsstring) : jsstring :=
  match x with
  | Some (c :: s) => c :: s
  | _ => []
  end.

(** Truthiness of a string. *)
Definition truthy (s : jsstring) : bool :=
  match s with [] => false | _ => true end.

(** WhiteSpace and LineTerminator code points, as [trim] strips them. *)
Definition is_white_space (c : Z) : bool :=
  ((c =? 0x09) || (c =? 0x0A) || (c =? 0x0B) || (c =? 0x0C) || (c =? 0x0D)
   || (c =? 0x20) || (c =? 0xA0) || (c =? 0x1680)
   || ((0x2000 <=? c) && (c <=? 0x200A))
   || (c =? 0x2028) || (c =? 0x2029) || (c =? 0x202F) || (c =? 0x205F)
   || (c =? 0x3000) || (c =? 0xFEFF))%Z.

Fixpoint trimStart (s : jsstring) : jsstring :=
  match s with
  | c :: rest => if is_white_space c then trimStart rest else s
  | [] => []
  end.

Definition trimEnd (s : jsstring) : jsstring := rev (trimStart (rev s)).

Definition trim (s : jsstring) : jsstring := trimEnd (trimStart s).

Fixpoint startsWith (s t : jsstring) : bool :=
  match t, s with
  | [], _ => true
  | _ :: _, [] => false
  | d :: t', c :: s' => (c =? d)%Z && startsWith s' t'
  end.

(** [s.includes(t)]. *)
Fixpoint includes (s t : jsstring) : bool :=
  startsWith s t || match s with [] => false | _ :: s' => includes s' t end.

(** [a.slice(start, end)] with the relative-index rules of the language. *)
Definition clamp_index (len k : Z) : Z :=
  if (k <? 0)%Z then Z.max (len + k) 0 else Z.min k len.

Definition slice {A} (a : list A) (start_ end_ : Z) : list A :=
  let len := Z.of_nat (length a) in
  let k := clamp_index len start_ in
  let final := clamp_index len end_ in
  take (Z.to_nat (final - k)) (drop (Z.to_nat k) a).

(** [a.slice(start)]. *)
Definition slice_from {A} (a : list A) (start_ : Z) : list A :=
  slice a start_ (Z.of_nat (length a)).

(** Text written with the characters of a Rocq string (for examples). *)
Definition text (s : string) : jsstring :=
  map (fun a => Z.of_N (Ascii.N_of_ascii a)) (list_ascii_of_string s).

Definition bytes (s : string) : list byte := list_byte_of_string s.

(** The bytes of a line of text with its terminator. *)
Definition ln (s : string) : list byte := bytes s ++ [x0a].

(** [s.endsWith(t)]. *)
Definition endsWith (s t : jsstring) : bool := startsWith (rev s) (rev t).

(** *** Numbers

    A Number is an IEEE 754 double, and [x / y] and [x * y] are the doubles
    nearest to the exact quotient and product, a tie going to the one whose
    last bit is 0.  A finite double is a rational; [round_double] takes a
    rational to the nearest one with 53 significant bits, whatever its
    exponent: it is the rounding of the engine where that neither overflows
    nor gets into the subnormal numbers (magnitudes from 2^-1022 to below
    2^1024). *)

(** The exponent [e] with [2^e <= x < 2^(e+1)], for [x > 0]. *)
Definition binade (x : Q) : Z :=
  let e := (Z.log2 (Qnum x) - Z.log2 (Zpos (Qden x)))%Z in
  if Qlt_le_dec x (2 ^ e) then (e - 1)%Z else e.

(** The integer nearest to [m], the even one of two that are as near. *)
Definition nearest_even (m : Q) : Z :=
  let f := Qfloor m in
  match Qcompare (m - inject_Z f) (1 # 2) with
  | Lt => f
  | Gt => (f + 1)%Z
  | Eq => if Z.even f then f else (f + 1)%Z
  end.

Definition round_double (x : Q) : Q :=
  match Qcompare x 0 with
  | Eq => 0
  | Gt => let ulp := (2 ^ (binade x - 52))%Q in
          (inject_Z (nearest_even (x / ulp)) * ulp)%Q
  | Lt => let ulp := (2 ^ (binade (- x) - 52))%Q in
          (- (inject_Z (nearest_even (- x / ulp)) * ulp))%Q
  end.

(** [x / y] and [x * y] on Numbers. *)
Definition number_div (x y : Q) : Q := round_double (x / y).
Definition number_mul (x y : Q) : Q := round_double (x * y).

End Js.

Import Js.

(** ** Pieces shared by both viewers *)

Module Common.

(** What a rejected promise carries: [err.name] and [err.message]. *)
Record JsError := MkError { name : string; message : string }.

Definition AbortError : JsError :=
  MkError "AbortError" "The user aborted a request.".

(** What the engine allows in one call.  [f(...xs)] passes the elements of
    [xs] as arguments, and a call with more than [max_arguments] of them
    throws a RangeError whose message is [range_message].  The bound is the
    engine's: JavaScriptCore has 65536 hard-coded, in V8 it follows from the
    stack that is left (some 10^5 arguments). *)
Record Engine := MkEngine { max_arguments : nat; range_message : string }.

Definition RangeError (engine : Engine) : JsError :=
  MkError "RangeError" (range_message engine).

(** An engine to compute with. *)
Definition JavaScriptCore : Engine :=
  MkEngine (2 ^ 16) "Maximum call stack size exceeded.".

(** The result of one [await reader.read()]. *)
Inductive ReadResult :=
  | ReadChunk (value : list byte)      (* { done: false, value } *)
  | ReadDone                           (* { done: true } *)
  | ReadRejected (err : JsError).      (* the promise rejects *)

(** [buffer += chunk; const lines = buffer.split('\n');
     buffer = lines.pop() || '';] gives [(lines, buffer)]. *)
Definition take_lines (buffer chunk : jsstring) : list jsstring * jsstring :=
  let '(last_segment, lines) := pop (split_nl (buffer ++ chunk)) in
  (lines, or_empty last_segment).

Definition ROW_HEIGHT : Q := 22.

(** *** The filtered view ([filteredLines]) *)

Record Item := MkItem { line : jsstring; originalIndex : nat }.

Section Filter.

(** [String.prototype.toLowerCase] depends on the Unicode case tables of the
    engine; the viewers are modelled over any such function. *)
Variable toLowerCase : jsstring -> jsstring.

Definition filteredLines (logLines : list jsstring)
    (debouncedSearchTerm : jsstring) : list Item :=
  let linesWithIndices := imap (fun index l => MkItem l index) logLines in
  if negb (truthy debouncedSearchTerm) then linesWithIndices
  else
    let lowercasedSearchTerm := toLowerCase debouncedSearchTerm in
    filter (fun item =>
              Is_true (includes (toLowerCase (line item)) lowercasedSearchTerm))
           linesWithIndices.

End Filter.

(** Lower-casing of the letters A-Z only: an instance to compute with. *)
Definition ascii_lower (c : Z) : Z :=
  if ((65 <=? c) && (c <=? 90))%Z then (c + 32)%Z else c.

Definition ascii_toLowerCase (s : jsstring) : jsstring := map ascii_lower s.

(** Lower-casing as the engine does it on Basic Latin and Greek letters (the
    default case conversion of Unicode): a capital letter becomes its small
    letter, and a capital sigma becomes the final small sigma where it ends
    a word, that is, where a cased letter comes before it and none comes
    after it.  The standard also skips case-ignorable characters (the full
    stop, the colon, the apostrophe and others) on both sides of the sigma,
    and lower-cases the letters of other scripts; this instance does
    neither, and is the engine's function on strings of Basic Latin and
    Greek letters, digits and spaces. *)
Definition is_cased (c : Z) : bool :=
  (((65 <=? c) && (c <=? 90)) || ((97 <=? c) && (c <=? 122))
   || ((0x391 <=? c) && (c <=? 0x3A9) && negb (c =? 0x3A2))
   || ((0x3B1 <=? c) && (c <=? 0x3C9)))%Z.

Definition greek_lower (c : Z) : Z :=
  if ((65 <=? c) && (c <=? 90))%Z then (c + 32)%Z
  else if ((0x391 <=? c) && (c <=? 0x3A9) && negb (c =? 0x3A2))%Z
  then (c + 32)%Z
  else c.

Fixpoint lower_after (cased_before : bool) (s : jsstring) : jsstring :=
  match s with
  | [] => []
  | c :: rest =>
      let cased_after := match rest with d :: _ => is_cased d | [] => false end in
      (if (c =? 0x3A3)%Z && cased_before && negb cased_after then 0x3C2%Z
       else greek_lower c)
      :: lower_after (is_cased c) rest
  end.

Definition greek_toLowerCase (s : jsstring) : jsstring := lower_after false s.

(** *** Virtualization ([startIndex], [endIndex], [visibleLines]) *)

Definition startIndex (scrollTop : Q) : Z :=
  Z.max 0 (Qfloor (scrollTop / ROW_HEIGHT) - 10).

Definition endIndex (scrollTop containerHeight : Q) (filteredLength : Z) : Z :=
  Z.min filteredLength
        (Qceiling ((scrollTop + containerHeight) / ROW_HEIGHT) + 10).

Definition visibleLines {A} (filtered : list A) (scrollTop containerHeight : Q)
  : list A :=
  slice filtered (startIndex scrollTop)
        (endIndex scrollTop containerHeight (Z.of_nat (length filtered))).

(** *** The debounced search term

    The effect on [searchTerm]: [setIsSearching(true)], a 300 ms timeout
    whose callback copies the term and clears the flag, and a cleanup that
    clears the timeout.  [handler] is the pending timeout, with the term
    its callback has captured. *)

Record Search := MkSearch {
  searchTerm : jsstring;
  debouncedSearchTerm : jsstring;
  isSearching : bool;
  handler : option jsstring
}.

(** The component after its first render: the effect has run once. *)
Definition mounted : Search := MkSearch [] [] true (Some []).

Inductive SearchEvent :=
  | Typed (value : jsstring)   (* onChange: setSearchTerm(e.target.value) *)
  | TimeoutFired.              (* the pending callback runs *)

(** Setting the state to the value it has does not run the effect again. *)
Definition search_step (s : Search) (e : SearchEvent) : Search :=
  match e with
  | Typed value =>
      if bool_decide (value = searchTerm s) then s
      else MkSearch value (debouncedSearchTerm s) true (Some value)
  | TimeoutFired =>
      match handler s with
      | Some term => MkSearch (searchTerm s) term false None
      | None => s
      end
  end.

Definition search_run (s : Search) (es : list SearchEvent) : Search :=
  fold_left search_step es s.

(** *** What the viewer draws *)

Inductive Content :=
  | Loading                      (* spinner and status *)
  | Rows (height translateY : Q) (rows : list Item)
  | SearchingSpinner             (* "Searching..." *)
  | CancelledNote                (* "Stream cancelled by user." *)
  | NoResults (term : jsstring)  (* "No results found for ..." *)
  | EmptyNote                    (* "Log file is empty." *)
  | Blank.                       (* null *)

Inductive Screen :=
  | ErrorPanel (message : string)   (* "Streaming Error" and the message *)
  | LogContainer (content : Content).

(** The block of rows: the full height, the offset of the window and the
    rows of the window. *)
Definition rows_block (filtered : list Item) (scrollTop containerHeight : Q)
  : Content :=
  Rows (inject_Z (Z.of_nat (length filtered)) * ROW_HEIGHT)
       (inject_Z (startIndex scrollTop) * ROW_HEIGHT)
       (visibleLines filtered scrollTop containerHeight).

(** Clicking a row: [setSelectedLine({ lineNumber: originalIndex + 1,
    content: line })]. *)
Definition selectLine (item : Item) : Z * jsstring :=
  ((Z.of_nat (originalIndex item) + 1)%Z, line item).

End Common.

Import Common.

(** ** The first viewer: [src/components/LogViewer.tsx] *)

Module CappedViewer.

Definition MAX_DISPLAY_LINES : nat := 5000.

Record View := MkView {
  logLines : list jsstring;
  totalBytes : Z;
  error : option string;
  status : string
}.

Definition setLogLines (x : list jsstring) (v : View) : View :=
  MkView x (totalBytes v) (error v) (status v).
Definition setTotalBytes (f : Z -> Z) (v : View) : View :=
  MkView (logLines v) (f (totalBytes v)) (error v) (status v).
Definition setError (x : option string) (v : View) : View :=
  MkView (logLines v) (totalBytes v) x (status v).
Definition setStatus (x : string) (v : View) : View :=
  MkView (logLines v) (totalBytes v) (error v) x.

(** The locals of [streamLogFile] that live across loop iterations. *)
Record Task := MkTask {
  decoder : TextDecoder;
  buffer : jsstring;
  allLines : list jsstring
}.

(** The component together with its streaming task; [task] is [None] once
    the [while] loop has been left. *)
Record Session := MkSession { view : View; task : option Task }.

(** [if (allLines.length > MAX_DISPLAY_LINES)
       allLines = allLines.slice(allLines.length - MAX_DISPLAY_LINES);] *)
Definition trim_to_cap (allLines : list jsstring) : list jsstring :=
  if (MAX_DISPLAY_LINES <? length allLines)%nat then
    slice_from allLines (Z.of_nat (length allLines) - Z.of_nat MAX_DISPLAY_LINES)
  else allLines.

(** The state when the loop is entered: the four resets, a successful
    [fetch], [setStatus('Streaming log data...')]. *)
Definition streaming : Session :=
  MkSession (MkView [] 0 None "Streaming log data...")
            (Some (MkTask new_TextDecoder [] [])).

Definition on_reject (err : JsError) (v : View) : View :=
  if String.eqb (name err) "AbortError" then setStatus "Stream cancelled." v
  else
    setStatus "Error occurred."
      (setError (Some ("Failed to stream file. This is likely a CORS issue, a network problem, or the file may not exist. Please check the browser console for details. Error: " ++ message err)%string) v).

Section Loop.

Variable engine : Engine.

(** [allLines.push(...lines)]: every line is an argument of the call, which
    throws when there are too many. *)
Definition push_spread (allLines lines : list jsstring)
  : JsError + list jsstring :=
  if (max_arguments engine <? length lines)%nat then inl (RangeError engine)
  else inr (allLines ++ lines).

(** One iteration of the [while (true)] loop, on the outcome of its
    [await reader.read()].  What the body throws is caught like a rejected
    read. *)
Definition read_step (s : Session) (r : ReadResult) : Session :=
  match task s with
  | None => s
  | Some t =>
      match r with
      | ReadDone =>
          let all1 := if truthy (buffer t) then allLines t ++ [buffer t]
                      else allLines t in
          let all2 := trim_to_cap all1 in
          MkSession (setStatus "Stream finished." (setLogLines all2 (view s)))
                    None
      | ReadChunk value =>
          let v1 := setTotalBytes (fun prev => (prev + byteLength value)%Z)
                                  (view s) in
          let '(dec, chunk) := decode (decoder t) value true in
          let '(lines, buf) := take_lines (buffer t) chunk in
          if (0 <? length lines)%nat then
            match push_spread (allLines t) lines with
            | inr all1 => MkSession v1 (Some (MkTask dec buf (trim_to_cap all1)))
            | inl err => MkSession (on_reject err v1) None
            end
          else MkSession v1 (Some (MkTask dec buf (allLines t)))
      | ReadRejected err => MkSession (on_reject err (view s)) None
      end
  end.

Definition run (s : Session) (rs : list ReadResult) : Session :=
  fold_left read_step rs s.

End Loop.

(** [handleCancelStream]: [abortControllerRef.current?.abort()].  The signal
    was given to [fetch], so the read that is pending rejects with an
    AbortError, whatever the reader still had to deliver ([pending]). *)
Definition handleCancelStream (pending : list ReadResult) : list ReadResult :=
  [ReadRejected AbortError].

(** *** Rendering *)

Definition isLoading (v : View) : bool :=
  String.eqb (status v) "Connecting to stream..."
  || String.eqb (status v) "Streaming log data...".

Definition renderContent (v : View) (s : Search) (filtered : list Item)
    (scrollTop containerHeight : Q) : Content :=
  if isLoading v then Loading
  else if (0 <? length filtered)%nat
  then rows_block filtered scrollTop containerHeight
  else if isSearching s then SearchingSpinner
  else if String.eqb (status v) "Stream cancelled." then CancelledNote
  else if (length filtered =? 0)%nat && truthy (debouncedSearchTerm s)
  then NoResults (debouncedSearchTerm s)
  else if (length (logLines v) =? 0)%nat
          && String.eqb (status v) "Stream finished."
  then EmptyNote
  else Blank.

(** The body of the component: [error ? <error panel> : <log container>]. *)
Definition render (toLowerCase : jsstring -> jsstring) (v : View)
    (s : Search) (scrollTop containerHeight : Q) : Screen :=
  match error v with
  | Some (String c m) => ErrorPanel (String c m)
  | _ =>
      LogContainer
        (renderContent v s
           (filteredLines toLowerCase (logLines v) (debouncedSearchTerm s))
           scrollTop containerHeight)
  end.

End CappedViewer.

(** ** The live-tailing viewer *)

Module LiveViewer.

Inductive LogSource :=
  | Remote (baseUrl fileName : string)
  | Local (size : Z).

Definition is_remote (source : LogSource) : bool :=
  match source with Remote _ _ => true | Local _ => false end.

Record View := MkView {
  logLines : list jsstring;
  totalBytes : Z;
  fileSize : option Z;
  error : option string;
  status : string;
  isLive : bool;
  isLivePaused : bool
}.

Definition setLogLines (f : list jsstring -> list jsstring) (v : View) : View :=
  MkView (f (logLines v)) (totalBytes v) (fileSize v) (error v) (status v)
         (isLive v) (isLivePaused v).
Definition setTotalBytes (f : Z -> Z) (v : View) : View :=
  MkView (logLines v) (f (totalBytes v)) (fileSize v) (error v) (status v)
         (isLive v) (isLivePaused v).
Definition setFileSize (x : option Z) (v : View) : View :=
  MkView (logLines v) (totalBytes v) x (error v) (status v)
         (isLive v) (isLivePaused v).
Definition setError (x : option string) (v : View) : View :=
  MkView (logLines v) (totalBytes v) (fileSize v) x (status v)
         (isLive v) (isLivePaused v).
Definition setStatus (x : string) (v : View) : View :=
  MkView (logLines v) (totalBytes v) (fileSize v) (error v) x
         (isLive v) (isLivePaused v).
Definition setIsLive (x : bool) (v : View) : View :=
  MkView (logLines v) (totalBytes v) (fileSize v) (error v) (status v)
         x (isLivePaused v).
Definition setIsLivePaused (x : bool) (v : View) : View :=
  MkView (logLines v) (totalBytes v) (fileSize v) (error v) (status v)
         (isLive v) x.

(** The locals of [streamLogFile] that live across loop iterations. *)
Record Task := MkTask { decoder : TextDecoder; buffer : jsstring }.

(** The component together with its streaming task; [task] is [None] once
    the [while] loop has been left. *)
Record Session := MkSession { view : View; task : option Task }.

(** "Reset states for new source". *)
Definition reset : View := MkView [] 0 None None "Initializing..." false false.

(** The state when the loop is entered, for a source whose reader could be
    obtained: [size] is what the HEAD request (remote) or [file.size]
    (local) gave. *)
Definition streaming (source : LogSource) (size : option Z) : Session :=
  MkSession
    (setStatus (if is_remote source then "Streaming log data..."
                else "Streaming local file...")
       (setFileSize size reset))
    (Some (MkTask new_TextDecoder [])).

Definition on_reject (err : JsError) (v : View) : View :=
  if negb (String.eqb (name err) "AbortError") then
    setStatus "Error occurred."
      (setError (Some ("Failed to stream file. This could be a CORS issue, network problem, or the file may not exist. (Details: " ++ message err ++ ")")%string) v)
  else setStatus "Stream cancelled." v.

(** One iteration of the [while (true)] loop, on the outcome of its
    [await reader.read()]. *)
Definition read_step (s : Session) (r : ReadResult) : Session :=
  match task s with
  | None => s
  | Some t =>
      match r with
      | ReadDone =>
          let v1 := if truthy (buffer t)
                    then setLogLines (fun prev => prev ++ [buffer t]) (view s)
                    else view s in
          MkSession (setStatus "Stream finished." v1) None
      | ReadChunk value =>
          let v1 := setTotalBytes (fun prev => (prev + byteLength value)%Z)
                                  (view s) in
          let '(dec, chunk) := decode (decoder t) value true in
          let '(lines, buf) := take_lines (buffer t) chunk in
          let v2 := if (0 <? length lines)%nat
                    then setLogLines (fun prev => prev ++ lines) v1
                    else v1 in
          MkSession v2 (Some (MkTask dec buf))
      | ReadRejected err => MkSession (on_reject err (view s)) None
      end
  end.

Definition run (s : Session) (rs : list ReadResult) : Session :=
  fold_left read_step rs s.

(** [handleCancelStream]: [abortControllerRef.current?.abort()].  For a
    remote source the signal was given to [fetch], and the read that is
    pending rejects with an AbortError.  The reader of a local file comes
    from [source.file.stream().getReader()], which was never given the
    signal: it goes on delivering what it had to deliver ([pending]). *)
Definition handleCancelStream (source : LogSource)
    (pending : list ReadResult) : list ReadResult :=
  if is_remote source then [ReadRejected AbortError] else pending.

(** *** Tailing *)

(** The outcome of the ranged [fetch] of one poll and of reading its body. *)
Inductive PollResult :=
  | FetchRejected (err : JsError)
  | Response (http_status : Z) (arrayBuffer : JsError + list byte).

Definition tail_failed (v : View) : View :=
  setIsLive false (setStatus "Live (Error)" v).

(** [tailLogFile], one poll. *)
Definition tailLogFile (source : LogSource) (hidden : bool) (v : View)
    (r : PollResult) : View :=
  if (negb (is_remote source) || hidden)%bool then v
  else
    let v1 := if negb (isLivePaused v) then setStatus "Live" v else v in
    match r with
    | FetchRejected _ => tail_failed v1
    | Response http_status body =>
        if (http_status =? 416)%Z then v1
        else if (negb (http_status =? 206) && negb (http_status =? 200))%Z
        then tail_failed v1
        else
          match body with
          | inl _ => tail_failed v1
          | inr newContent =>
              if (0 <? byteLength newContent)%Z then
                let '(_, chunk) := decode new_TextDecoder newContent false in
                let newLines :=
                  filter (fun l => trim l <> []) (split_nl chunk) in
                let v2 := if (0 <? length newLines)%nat
                          then setLogLines (fun prev => prev ++ newLines) v1
                          else v1 in
                setTotalBytes (fun prev => (prev + byteLength newContent)%Z) v2
              else v1
          end
    end.

(** The condition under which the tailing effect installs its interval. *)
Definition tail_armed (source : LogSource) (v : View) : bool :=
  (isLive v && is_remote source
   && (String.eqb (status v) "Stream finished."
       || String.prefix "Live" (status v)))%bool.

(** One firing of the interval timer, if one is installed. *)
Definition tick (source : LogSource) (hidden : bool) (v : View)
    (r : PollResult) : View :=
  if tail_armed source v then tailLogFile source hidden v r else v.

Definition ticks (source : LogSource) (v : View)
    (rs : list (bool * PollResult)) : View :=
  fold_left (fun v hr => tick source hr.1 v hr.2) rs v.

(** The "Go Live" button: [setIsLive(!isLive)]. *)
Definition toggleLive (v : View) : View := setIsLive (negb (isLive v)) v.

(** [handleScroll], on the [scrollHeight], [scrollTop] and [clientHeight] of
    the container: [setScrollTop(container.scrollTop)] and, while live, the
    pause flag, which being within one pixel of the bottom decides.  The
    [scrollTop] state is kept beside the view, like the search state: the
    result is its new value and the view. *)
Definition handleScroll (scrollHeight scrollTop clientHeight : Q) (v : View)
  : Q * View :=
  (scrollTop,
   if isLive v then
     if Qlt_le_dec (scrollHeight - scrollTop - clientHeight) 1
     then setIsLivePaused false v
     else setIsLivePaused true v
   else v).

(** "Resume Tailing": scroll to the bottom and [setIsLivePaused(false)]. *)
Definition resumeLiveScroll (v : View) : View := setIsLivePaused false v.

(** *** Rendering *)

Definition isLoading (v : View) : bool :=
  String.eqb (status v) "Connecting to stream..."
  || String.eqb (status v) "Streaming log data..."
  || String.eqb (status v) "Reading local file..."
  || String.eqb (status v) "Streaming local file..."
  || String.eqb (status v) "Fetching file size...".

(** [fileSize && totalBytes > 0
      ? Math.min((totalBytes / fileSize) * 100, 100) : 0]; a [fileSize] that
    is not a number is falsy like [null] and is modelled by [None].  The
    two counters are integers that a double holds exactly (below 2^53). *)
Definition progressPercent (v : View) : Q :=
  match fileSize v with
  | Some size =>
      if ((size =? 0) || negb (0 <? totalBytes v))%Z then 0
      else Qmin (number_mul (number_div (inject_Z (totalBytes v))
                                        (inject_Z size))
                            100)
                100
  | None => 0
  end.

(** The status shown in the header. *)
Definition statusText (v : View) : string :=
  if isLive v && isLivePaused v then "Live (Paused)" else status v.

Definition renderContent (v : View) (s : Search) (filtered : list Item)
    (scrollTop containerHeight : Q) : Content :=
  if isLoading v && (length (logLines v) =? 0)%nat then Loading
  else if (0 <? length filtered)%nat
  then rows_block filtered scrollTop containerHeight
  else if isSearching s then SearchingSpinner
  else if String.eqb (status v) "Stream cancelled." then CancelledNote
  else if (length filtered =? 0)%nat && truthy (debouncedSearchTerm s)
  then NoResults (debouncedSearchTerm s)
  else if (length (logLines v) =? 0)%nat
          && String.eqb (status v) "Stream finished."
  then EmptyNote
  else Blank.

(** The body of the component: [error ? <error panel> : <log container>]. *)
Definition render (toLowerCase : jsstring -> jsstring) (v : View)
    (s : Search) (scrollTop containerHeight : Q) : Screen :=
  match error v with
  | Some (String c m) => ErrorPanel (String c m)
  | _ =>
      LogContainer
        (renderContent v s
           (filteredLines toLowerCase (logLines v) (debouncedSearchTerm s))
           scrollTop containerHeight)
  end.

End LiveViewer.

(** ** The directory listing: [fetchLogFiles] and [FileList] *)

Module FileListing.

Record LogFile := MkLogFile { name : jsstring }.

(** What the request for the listing comes to: the [fetch] is rejected, the
    response is not ok, or the body is read (which can fail too) and
    parsed; of the parsed document only the [href] attribute of each [a]
    element matters, in document order ([None] for a missing attribute). *)
Inductive ListingResponse :=
  | ListingRejected (err : JsError)
  | ListingNotOk (http_status : Z) (statusText : string)
  | ListingBody (links : JsError + list (option jsstring)).

Section Listing.

(** [decodeURIComponent] throws on malformed escapes; which escapes it
    accepts is the engine's business. *)
Variable decodeURIComponent : jsstring -> JsError + jsstring.

(** [String.prototype.toLowerCase], as for the viewers. *)
Variable toLowerCase : jsstring -> jsstring.

(** The predicate of the [filter] over the hrefs. *)
Definition keep_href (href : option jsstring) : bool :=
  match href with
  | None => false
  | Some h =>
      if negb (truthy h) then false
      else
        let isParentDir := bool_decide (h = text "../") in
        let isQueryLink := startsWith h (text "?") in
        let isDirectory := endsWith h (text "/") in
        let isAnchorLink := startsWith h (text "#") in
        negb isParentDir && negb isQueryLink && negb isDirectory
        && negb isAnchorLink
  end.

(** [.map(href => decodeURIComponent(href))]: the first throw ends it. *)
Fixpoint decode_all (hrefs : list jsstring) : JsError + list jsstring :=
  match hrefs with
  | [] => inr []
  | h :: rest =>
      match decodeURIComponent h with
      | inl err => inl err
      | inr decoded =>
          match decode_all rest with
          | inl err => inl err
          | inr names => inr (decoded :: names)
          end
      end
  end.

Definition invalid_url : LogFile :=
  MkLogFile
    (text "Error: Invalid URL format. It must start with http:// or https://").

(** The entry returned from the [catch]. *)
Definition fetch_error (baseUrl : jsstring) (err : JsError) : LogFile :=
  MkLogFile
    (text "Error: Could not fetch file list from '" ++ baseUrl
     ++ text "'. This is likely a server-side issue.
1. **CORS Policy**: The server is not configured to allow requests from this web app. Check the browser's developer console (F12) for CORS errors.
2. **Network Error**: Could not connect to the server.
3. **No Directory Listing**: The server may not have directory listing enabled.
(Technical details: " ++ text (message err) ++ text ")").

Definition fetchLogFiles (baseUrl : jsstring) (r : ListingResponse)
  : list LogFile :=
  if negb (startsWith baseUrl (text "http")) then [invalid_url]
  else
    match r with
    | ListingRejected err => [fetch_error baseUrl err]
    | ListingNotOk http_status statusText =>
        [fetch_error baseUrl
           (MkError "Error"
              ("Network response was not ok. Status: " ++ pretty http_status
               ++ " " ++ statusText)%string)]
    | ListingBody (inl err) => [fetch_error baseUrl err]
    | ListingBody (inr links) =>
        match decode_all (omap id (filter (fun h => Is_true (keep_href h))
                                          links)) with
        | inl err => [fetch_error baseUrl err]
        | inr fileNames => map MkLogFile fileNames
        end
    end.

(** [FileList]: the files shown for a filter, and whether the list is an
    error report. *)
Definition filteredFiles (files : list LogFile) (filter_ : jsstring)
  : list LogFile :=
  if negb (truthy filter_) then files
  else
    let lowercasedFilter := toLowerCase filter_ in
    filter (fun file =>
              Is_true (negb (startsWith (name file) (text "Error:"))
                       && includes (toLowerCase (name file))
                                   lowercasedFilter))
           files.

Definition hasError (files : list LogFile) : bool :=
  match files with
  | first :: _ => startsWith (name first) (text "Error:")
  | [] => false
  end.

End Listing.

End FileListing.

(** ** The application shell: [App] *)

Module App.

Inductive InputMode := ByDate | Manual.

(** The state of [App], with the entry of [localStorage] under
    [LOG_URL_KEY]. *)
Record State := MkState {
  selectedFile : option jsstring;
  logServerUrl : jsstring;
  urlInput : jsstring;
  isEditingUrl : bool;
  selectedDate : jsstring;
  inputMode : InputMode;
  manualFileName : jsstring;
  localStorage : option jsstring
}.

Definition DEFAULT_LOG_URL : jsstring := [].

(** The initial state, for what [localStorage] holds and today's date. *)
Definition init (stored : option jsstring) (today : jsstring) : State :=
  let url := match or_empty stored with [] => DEFAULT_LOG_URL | u => u end in
  MkState None url url false today ByDate [] stored.

Definition handleBack (st : State) : State :=
  MkState None (logServerUrl st) (urlInput st) (isEditingUrl st)
          (selectedDate st) (inputMode st) (manualFileName st)
          (localStorage st).

Definition setSelectedFile (f : jsstring) (st : State) : State :=
  MkState (Some f) (logServerUrl st) (urlInput st) (isEditingUrl st)
          (selectedDate st) (inputMode st) (manualFileName st)
          (localStorage st).

Definition handleViewLog (st : State) : State :=
  match inputMode st with
  | ByDate =>
      if truthy (selectedDate st)
      then setSelectedFile (selectedDate st ++ text "-backend-logs.json") st
      else st
  | Manual =>
      if truthy (trim (manualFileName st))
      then setSelectedFile (trim (manualFileName st)) st
      else st
  end.

(** The URL field is disabled unless the URL is being edited. *)
Definition setUrlInput (value : jsstring) (st : State) : State :=
  if isEditingUrl st then
    MkState (selectedFile st) (logServerUrl st) value (isEditingUrl st)
            (selectedDate st) (inputMode st) (manualFileName st)
            (localStorage st)
  else st.

Definition handleUrlEditToggle (st : State) : State :=
  let st1 :=
    if isEditingUrl st then
      let newUrl := trim (urlInput st) in
      if truthy newUrl then
        MkState (selectedFile st) newUrl (urlInput st) (isEditingUrl st)
                (selectedDate st) (inputMode st) (manualFileName st)
                (Some newUrl)
      else
        MkState (selectedFile st) (logServerUrl st) (logServerUrl st)
                (isEditingUrl st) (selectedDate st) (inputMode st)
                (manualFileName st) (localStorage st)
    else st in
  MkState (selectedFile st1) (logServerUrl st1) (urlInput st1)
          (negb (isEditingUrl st)) (selectedDate st1) (inputMode st1)
          (manualFileName st1) (localStorage st1).

Inductive Event :=
  | UrlTyped (value : jsstring)
  | UrlEditToggle
  | DateChosen (value : jsstring)
  | FileNameTyped (value : jsstring)
  | ModeChosen (mode : InputMode)
  | ViewLog
  | Back.

Definition step (st : State) (e : Event) : State :=
  match e with
  | UrlTyped value => setUrlInput value st
  | UrlEditToggle => handleUrlEditToggle st
  | DateChosen value =>
      MkState (selectedFile st) (logServerUrl st) (urlInput st)
              (isEditingUrl st) value (inputMode st) (manualFileName st)
              (localStorage st)
  | FileNameTyped value =>
      MkState (selectedFile st) (logServerUrl st) (urlInput st)
              (isEditingUrl st) (selectedDate st) (inputMode st) value
              (localStorage st)
  | ModeChosen mode =>
      MkState (selectedFile st) (logServerUrl st) (urlInput st)
              (isEditingUrl st) (selectedDate st) mode (manualFileName st)
              (localStorage st)
  | ViewLog => handleViewLog st
  | Back => handleBack st
  end.

Definition run (st : State) (es : list Event) : State := fold_left step es st.

End App.

(** ** Reference notions the properties are stated with *)

Module Ref.

(** The text a streaming decoder has produced once the bytes [B] have gone
    through it, however they were cut into chunks. *)
Definition stream_text (B : list byte) : jsstring :=
  (feed utf8_initial false B).2.

(** The segments of a text that are followed by a line terminator. *)
Definition complete_lines (t : jsstring) : list jsstring :=
  removelast (split_nl t).

(** What follows the last line terminator of a text. *)
Definition fragment (t : jsstring) : jsstring :=
  default [] (last (split_nl t)).

(** The lines of a text once it has ended: a non-empty fragment counts. *)
Definition all_lines (t : jsstring) : list jsstring :=
  complete_lines t ++ (if truthy (fragment t) then [fragment t] else []).

(** Every line followed by its terminator. *)
Definition terminated (lines : list jsstring) : jsstring :=
  concat (map (fun l => l ++ [LF]) lines).

(** A text without its final line terminator, if it ends with one. *)
Definition chomp (t : jsstring) : jsstring :=
  match last t with
  | Some c => if (c =? LF)%Z then removelast t else t
  | None => []
  end.

(** The last [n] elements of a list. *)
Definition last_n {A} (n : nat) (l : list A) : list A :=
  drop (length l - n) l.

(** Two code units that are the same letter up to case, [lower] giving the
    small letter of a code unit. *)
Definition same_letter (lower : Z -> Z) (a b : Z) : Prop := lower a = lower b.

(** Case-insensitive containment: the term occurs in the line as a
    contiguous run, up to the case of each of its code units. *)
Definition contains_ci (lower : Z -> Z) (l term : jsstring) : Prop :=
  exists before occurrence after,
    l = before ++ occurrence ++ after
    /\ Forall2 (same_letter lower) occurrence term.

(** A line that has a character [trim] would keep. *)
Definition has_visible_char (l : jsstring) : Prop :=
  Exists (fun c => is_white_space c = false) l.

(** A decoder object as the streaming loop can hold it: either fresh, or
    left by an earlier streaming call. *)
Definition streaming_decoder (td : TextDecoder) : Prop :=
  do_not_flush td = false -> td = new_TextDecoder.

(** The live viewer in the middle of its loop, the bytes [pre] consumed,
    having started from the view [v0]. *)
Definition live_reading (v0 : LiveViewer.View) (pre : list byte)
    (s : LiveViewer.Session) : Prop :=
  exists td,
    streaming_decoder td
    /\ (feed utf8_initial false pre).1 = (utf8 td, bom_seen td)
    /\ s = LiveViewer.MkSession
             (LiveViewer.setTotalBytes (fun p => (p + byteLength pre)%Z)
                (LiveViewer.setLogLines
                   (fun prev => prev ++ complete_lines (stream_text pre)) v0))
             (Some (LiveViewer.MkTask td (fragment (stream_text pre)))).

(** The first viewer in the middle of its loop, the bytes [pre] consumed. *)
Definition capped_reading (pre : list byte) (s : CappedViewer.Session)
  : Prop :=
  exists td,
    streaming_decoder td
    /\ (feed utf8_initial false pre).1 = (utf8 td, bom_seen td)
    /\ s = CappedViewer.MkSession
             (CappedViewer.MkView [] (byteLength pre) None
                                  "Streaming log data...")
             (Some (CappedViewer.MkTask td (fragment (stream_text pre))
                      (last_n CappedViewer.MAX_DISPLAY_LINES
                              (complete_lines (stream_text pre))))).

(** The line terminators among the bytes of a chunk. *)
Definition newlines (c : list byte) : nat :=
  length (filter (fun b => byte_val b = LF) c).

(** A chunk that completes no more lines than one call takes arguments. *)
Definition fits (engine : Engine) (c : list byte) : bool :=
  (newlines c <=? max_arguments engine)%nat.

(** The chunks the first viewer reads of those the reader has: all of them
    up to the first that does not fit, that one included. *)
Fixpoint consumed (engine : Engine) (cs : list (list byte))
  : list (list byte) :=
  match cs with
  | [] => []
  | c :: rest => if fits engine c then c :: consumed engine rest else [c]
  end.

(** A poll that ends in the [catch] of [tailLogFile]: the [fetch] is
    rejected, the status is none of 416, 206, 200, or the body cannot be
    read. *)
Definition poll_fails (r : LiveViewer.PollResult) : bool :=
  match r with
  | LiveViewer.FetchRejected _ => true
  | LiveViewer.Response st body =>
      negb (st =? 416)%Z
      && ((negb (st =? 206)%Z && negb (st =? 200)%Z)
          || match body with inl _ => true | inr _ => false end)
  end.

(** The text of a poll's body: a fresh decoder, flushed at the end. *)
Definition poll_text (content : list byte) : jsstring :=
  (decode new_TextDecoder content false).2.

(** A Unicode scalar value: a code point that is not a surrogate. *)
Definition is_scalar (cp : Z) : Prop :=
  (0 <= cp < 0xD800 \/ 0xDFFF < cp <= 0x10FFFF)%Z.

(** The UTF-8 encoding of a scalar value, as byte values. *)
Definition utf8_encode (cp : Z) : list Z :=
  if (cp <? 0x80)%Z then [cp]
  else if (cp <? 0x800)%Z then
    [0xC0 + cp / 64; 0x80 + cp mod 64]%Z
  else if (cp <? 0x10000)%Z then
    [0xE0 + cp / 4096; 0x80 + (cp / 64) mod 64; 0x80 + cp mod 64]%Z
  else
    [0xF0 + cp / 262144; 0x80 + (cp / 4096) mod 64;
     0x80 + (cp / 64) mod 64; 0x80 + cp mod 64]%Z.

(** The bytes [B] are the UTF-8 encoding of the scalar values [cps]. *)
Definition encodes (cps : list Z) (B : list byte) : Prop :=
  Forall is_scalar cps /\ map byte_val B = concat (map utf8_encode cps).

(** The handler run over byte values, collecting what it emits. *)
Fixpoint handlers (d : utf8_decoder) (bs : list Z) : utf8_decoder * list Z :=
  match bs with
  | [] => (d, [])
  | b :: rest =>
      let '(d1, cps1) := utf8_handler d b in
      let '(d2, cps2) := handlers d1 rest in
      (d2, cps1 ++ cps2)
  end.

(** The number of line terminators of a text. *)
Definition count_LF (t : list Z) : nat := length (filter (fun c => c = LF) t).

(** A decoder state from which no line terminator can come out of
    continuation bytes: nothing pending, or a pending code point that is
    already too large. *)
Definition lf_safe (d : utf8_decoder) : Prop :=
  bytes_needed d = 0%Z
  \/ (0 <= code_point d /\ 0x80 <= lower_boundary d
      /\ upper_boundary d <= 0xBF
      /\ 16 <= code_point d * 64 + (lower_boundary d - 0x80))%Z.

(** The bytes a poll adds to the offset: those of a body delivered with
    status 206 or 200 while the page is visible. *)
Definition received (poll : bool * LiveViewer.PollResult) : Z :=
  match poll with
  | (false, LiveViewer.Response st (inr content)) =>
      if ((st =? 206) || (st =? 200))%Z then byteLength content else 0
  | _ => 0
  end.

(** A poll that is skipped (page hidden) or does not fail. *)
Definition poll_harmless (poll : bool * LiveViewer.PollResult) : bool :=
  poll.1 || negb (poll_fails poll.2).

(** What can happen to the live viewer: a result of the reader, a firing
    of the polling timer, the "Go Live" button, a scroll of the log
    container, the "Resume Tailing" button. *)
Inductive LiveEvent :=
  | Read (r : ReadResult)
  | Tick (hidden : bool) (r : LiveViewer.PollResult)
  | GoLive
  | Scrolled (scrollHeight scrollTop clientHeight : Q)
  | Resume.

Definition live_event (source : LiveViewer.LogSource)
    (s : LiveViewer.Session) (e : LiveEvent) : LiveViewer.Session :=
  match e with
  | Read r => LiveViewer.read_step s r
  | Tick hidden r =>
      LiveViewer.MkSession
        (LiveViewer.tick source hidden (LiveViewer.view s) r)
        (LiveViewer.task s)
  | GoLive =>
      LiveViewer.MkSession (LiveViewer.toggleLive (LiveViewer.view s))
                           (LiveViewer.task s)
  | Scrolled scrollHeight scrollTop clientHeight =>
      LiveViewer.MkSession
        (LiveViewer.handleScroll scrollHeight scrollTop clientHeight
                                 (LiveViewer.view s)).2
        (LiveViewer.task s)
  | Resume =>
      LiveViewer.MkSession (LiveViewer.resumeLiveScroll (LiveViewer.view s))
                           (LiveViewer.task s)
  end.

Definition live_events (source : LiveViewer.LogSource)
    (s : LiveViewer.Session) (es : list LiveEvent) : LiveViewer.Session :=
  fold_left (live_event source) es s.

(** A link of a directory listing that names a file: its href is not
    empty, is no query ('?...') or anchor ('#...') link and does not end
    in '/'. *)
Definition names_file (href : jsstring) : Prop :=
  href <> [] /\ head href <> Some 63%Z /\ head href <> Some 35%Z
  /\ last href <> Some 47%Z.

(** The projection as the specification writes it. *)
Definition spec_project (scrollOffset containerHeight rowHeight : Q)
    (totalRows margin : Z) : Z * Z :=
  (Z.max 0 (Qfloor (scrollOffset / rowHeight) - margin),
   Z.min totalRows
         (Qceiling ((scrollOffset + containerHeight) / rowHeight) + margin)).

End Ref.

Import Ref.

(** * Properties *)

(** ** Lists and strings *)

Section ListFacts.
Context {A : Type}.

Lemma removelast_last_default (l : list A) (d : A) :
  l <> [] -> removelast l ++ [default d (last l)] = l.
Proof.
  induction l as [|x [|y l'] IH]; intros Hne; try done.
  change (x :: removelast (y :: l') ++ [default d (last (y :: l'))]
          = x :: y :: l').
  f_equal. by apply IH.
Qed.

Lemma last_n_all (n : nat) (l : list A) : length l <= n -> last_n n l = l.
Proof. intros H. unfold last_n. by replace (length l - n) with 0 by lia. Qed.

Lemma length_last_n (n : nat) (l : list A) :
  length (last_n n l) = min (length l) n.
Proof. unfold last_n. rewrite length_drop. lia. Qed.

Lemma last_n_app_last_n (n : nat) (l1 l2 : list A) :
  last_n n (last_n n l1 ++ l2) = last_n n (l1 ++ l2).
Proof.
  destruct (decide (length l1 <= n)) as [Hle|Hgt].
  { by rewrite (last_n_all n l1). }
  unfold last_n at 1 3. rewrite !length_app, length_last_n, !drop_app.
  rewrite length_last_n. unfold last_n. rewrite drop_drop.
  f_equal; f_equal; lia.
Qed.

Lemma last_n_suffix (n : nat) (l : list A) : last_n n l `suffix_of` l.
Proof. apply suffix_drop. Qed.

Lemma slice_from_drop (l : list A) (k : nat) :
  k <= length l -> slice_from l (Z.of_nat k) = drop k l.
Proof.
  intros Hk. unfold slice_from, slice.
  assert (Hs : clamp_index (Z.of_nat (length l)) (Z.of_nat k) = Z.of_nat k).
  { unfold clamp_index. destruct (Z.ltb_spec (Z.of_nat k) 0); lia. }
  assert (He : clamp_index (Z.of_nat (length l)) (Z.of_nat (length l))
               = Z.of_nat (length l)).
  { unfold clamp_index.
    destruct (Z.ltb_spec (Z.of_nat (length l)) 0); lia. }
  rewrite Hs, He, Nat2Z.id.
  apply take_ge. rewrite length_drop. lia.
Qed.

End ListFacts.

(** ** Splitting a text into lines *)

Lemma split_nl_cons (c : Z) (t : jsstring) :
  split_nl (c :: t)
  = if (c =? LF)%Z then [] :: split_nl t else push_char c (split_nl t).
Proof. reflexivity. Qed.

Lemma split_nl_nonempty (t : jsstring) : split_nl t <> [].
Proof.
  destruct t as [|c t]; [done|]. rewrite split_nl_cons.
  destruct (c =? LF)%Z; [done|]. by destruct (split_nl t).
Qed.

Lemma split_nl_snoc (t : jsstring) :
  split_nl t = complete_lines t ++ [fragment t].
Proof.
  unfold complete_lines, fragment.
  symmetry. apply removelast_last_default, split_nl_nonempty.
Qed.

Lemma complete_lines_nil : complete_lines [] = [].
Proof. reflexivity. Qed.

Lemma fragment_nil : fragment [] = [].
Proof. reflexivity. Qed.

Lemma split_nl_inv (t : jsstring) (ls : list jsstring) (f : jsstring) :
  split_nl t = ls ++ [f] -> complete_lines t = ls /\ fragment t = f.
Proof.
  intros H. unfold complete_lines, fragment. rewrite H.
  rewrite removelast_last, last_snoc. done.
Qed.

Lemma lines_of_LF (t : jsstring) :
  complete_lines (LF :: t) = [] :: complete_lines t
  /\ fragment (LF :: t) = fragment t.
Proof.
  apply split_nl_inv. rewrite split_nl_cons. simpl.
  by rewrite (split_nl_snoc t) at 1.
Qed.

Lemma lines_of_char (c : Z) (t : jsstring) :
  c <> LF ->
  (complete_lines (c :: t) = push_char c (complete_lines t)
   /\ fragment (c :: t) = fragment t /\ complete_lines t <> [])
  \/ (complete_lines (c :: t) = [] /\ complete_lines t = []
      /\ fragment (c :: t) = c :: fragment t).
Proof.
  intros Hc. apply Z.eqb_neq in Hc.
  destruct (complete_lines t) as [|x xs] eqn:E.
  - right. assert (H : split_nl (c :: t) = [] ++ [c :: fragment t]).
    { rewrite split_nl_cons, Hc, (split_nl_snoc t), E. done. }
    apply split_nl_inv in H as [? ?]. done.
  - left. assert (H : split_nl (c :: t) = ((c :: x) :: xs) ++ [fragment t]).
    { rewrite split_nl_cons, Hc, (split_nl_snoc t), E. done. }
    apply split_nl_inv in H as [? ?]. done.
Qed.

(** Splitting is compositional: the lines completed by [a] stay, and the
    fragment of [a] is continued by [b]. *)
Lemma split_nl_app (a b : jsstring) :
  split_nl (a ++ b) = complete_lines a ++ split_nl (fragment a ++ b).
Proof.
  induction a as [|c a IH]; [done|].
  rewrite <- app_comm_cons, split_nl_cons.
  destruct (c =? LF)%Z eqn:Hc.
  - apply Z.eqb_eq in Hc. subst c.
    destruct (lines_of_LF a) as [-> ->]. by rewrite IH.
  - apply Z.eqb_neq in Hc.
    destruct (lines_of_char c a Hc) as [(-> & -> & Hne)|(-> & Hnil & ->)].
    + rewrite IH. by destruct (complete_lines a).
    + rewrite IH, Hnil. simpl. by rewrite (proj2 (Z.eqb_neq _ _) Hc).
Qed.

Lemma complete_lines_app (a b : jsstring) :
  complete_lines (a ++ b) = complete_lines a ++ complete_lines (fragment a ++ b).
Proof.
  apply (split_nl_inv _ _ (fragment (fragment a ++ b))).
  by rewrite split_nl_app, (split_nl_snoc (fragment a ++ b)), app_assoc.
Qed.

Lemma fragment_app (a b : jsstring) :
  fragment (a ++ b) = fragment (fragment a ++ b).
Proof.
  apply (split_nl_inv _ (complete_lines a ++ complete_lines (fragment a ++ b))).
  by rewrite split_nl_app, (split_nl_snoc (fragment a ++ b)), app_assoc.
Qed.

(** The completed lines, each with its terminator, followed by the fragment,
    are the text. *)
Lemma terminated_fragment (t : jsstring) :
  terminated (complete_lines t) ++ fragment t = t.
Proof.
  induction t as [|c t IH]; [done|].
  destruct (decide (c = LF)) as [->|Hc].
  - destruct (lines_of_LF t) as [-> ->]. unfold terminated in *. simpl.
    by rewrite IH.
  - destruct (lines_of_char c t Hc) as [(-> & -> & Hne)|(-> & Hnil & ->)].
    + destruct (complete_lines t) as [|x xs]; [done|].
      unfold terminated in *. simpl in *. by rewrite IH.
    + rewrite Hnil in IH. unfold terminated in *. simpl in *. by rewrite IH.
Qed.

Lemma split_nl_no_LF (t : jsstring) : Forall (fun l => LF ∉ l) (split_nl t).
Proof.
  induction t as [|c t IH].
  - repeat constructor. apply not_elem_of_nil.
  - rewrite split_nl_cons. destruct (c =? LF)%Z eqn:Hc.
    + constructor; [apply not_elem_of_nil|done].
    + apply Z.eqb_neq in Hc. destruct (split_nl t) as [|x xs]; simpl.
      * repeat constructor. intros H%list_elem_of_singleton. congruence.
      * inversion IH; subst. constructor; [|done].
        rewrite not_elem_of_cons. split; [congruence|done].
Qed.

Lemma complete_lines_no_LF (t : jsstring) :
  Forall (fun l => LF ∉ l) (complete_lines t).
Proof.
  pose proof (split_nl_no_LF t) as H. rewrite split_nl_snoc in H.
  by apply Forall_app in H as [? _].
Qed.

Lemma fragment_no_LF (t : jsstring) : LF ∉ fragment t.
Proof.
  pose proof (split_nl_no_LF t) as H. rewrite split_nl_snoc in H.
  apply Forall_app in H as [_ H]. by inversion H.
Qed.

Lemma split_nl_no_LF_id (f : jsstring) : LF ∉ f -> split_nl f = [f].
Proof.
  induction f as [|c f IH]; [done|]. intros [Hc Hf]%not_elem_of_cons.
  rewrite split_nl_cons, IH by done.
  by rewrite (proj2 (Z.eqb_neq _ _)) by congruence.
Qed.

Lemma split_nl_line (l r : jsstring) :
  LF ∉ l -> split_nl (l ++ LF :: r) = l :: split_nl r.
Proof.
  induction l as [|c l IH]; [done|]. intros [Hc Hl]%not_elem_of_cons.
  rewrite <- app_comm_cons, split_nl_cons, IH by done.
  by rewrite (proj2 (Z.eqb_neq _ _)) by congruence.
Qed.

(** A text written as terminated lines followed by a terminator-free rest
    splits into exactly those lines and that rest. *)
Lemma split_nl_terminated (ls : list jsstring) (f : jsstring) :
  Forall (fun l => LF ∉ l) ls -> LF ∉ f ->
  split_nl (terminated ls ++ f) = ls ++ [f].
Proof.
  intros Hls Hf. induction Hls as [|l ls Hl Hls IH].
  - by apply split_nl_no_LF_id.
  - unfold terminated in *. simpl. rewrite <- !app_assoc. simpl.
    by rewrite split_nl_line, IH.
Qed.

Lemma terminated_app (ls1 ls2 : list jsstring) :
  terminated (ls1 ++ ls2) = terminated ls1 ++ terminated ls2.
Proof. unfold terminated. by rewrite map_app, concat_app. Qed.

Lemma join_nl_snoc (ls : list jsstring) (f : jsstring) :
  join_nl (ls ++ [f]) = terminated ls ++ f.
Proof.
  induction ls as [|l ls IH]; [done|].
  change (join_nl ((l :: ls) ++ [f])) with (join_nl (l :: (ls ++ [f]))).
  destruct (ls ++ [f]) as [|x xs] eqn:E.
  { by destruct ls. }
  change (join_nl (l :: x :: xs)) with (l ++ LF :: join_nl (x :: xs)).
  rewrite IH. unfold terminated. simpl. by rewrite <- !app_assoc.
Qed.

(** [split] and [join] are inverse on the text. *)
Lemma join_nl_split_nl (t : jsstring) : join_nl (split_nl t) = t.
Proof. by rewrite split_nl_snoc, join_nl_snoc, terminated_fragment. Qed.

Lemma chomp_LF (t : jsstring) : chomp (t ++ [LF]) = t.
Proof. unfold chomp. by rewrite last_snoc, Z.eqb_refl, removelast_last. Qed.

Lemma chomp_no_LF (t f : jsstring) :
  f <> [] -> LF ∉ f -> chomp (t ++ f) = t ++ f.
Proof.
  intros Hne Hf. unfold chomp. rewrite last_app.
  destruct (last f) as [c|] eqn:E.
  - destruct (c =? LF)%Z eqn:Hc; [|done].
    apply Z.eqb_eq in Hc. subst c.
    apply last_Some in E as [f' ->]. exfalso. apply Hf.
    apply elem_of_app. right. by apply list_elem_of_singleton.
  - by apply last_None in E.
Qed.

Lemma join_nl_flush (ls : list jsstring) (f : jsstring) :
  LF ∉ f ->
  join_nl (ls ++ (if truthy f then [f] else [])) = chomp (terminated ls ++ f).
Proof.
  intros Hf. destruct f as [|c f]; simpl truthy; cbv iota.
  - rewrite !app_nil_r.
    destruct ls as [|l ls _] using rev_ind; [done|].
    rewrite join_nl_snoc, terminated_app. unfold terminated at 3. simpl.
    by rewrite app_nil_r, app_assoc, chomp_LF.
  - by rewrite join_nl_snoc, chomp_no_LF.
Qed.

(** Joining the final lines of a text gives the text back, up to one final
    terminator. *)
Lemma join_nl_all_lines (t : jsstring) : join_nl (all_lines t) = chomp t.
Proof.
  unfold all_lines. rewrite join_nl_flush by apply fragment_no_LF.
  by rewrite terminated_fragment.
Qed.

(** ** The decoder *)

Lemma feed_app (d : utf8_decoder) (seen : bool) (a b : list byte) :
  feed d seen (a ++ b)
  = let '(d1, seen1, out1) := feed d seen a in
    let '(d2, seen2, out2) := feed d1 seen1 b in
    (d2, seen2, out1 ++ out2).
Proof.
  revert d seen. induction a as [|x a IH]; intros d seen.
  - simpl. by destruct (feed d seen b) as [[??]?].
  - simpl. destruct (utf8_handler d (byte_val x)) as [d1 cps].
    destruct (serialize seen cps) as [seen1 out1].
    rewrite IH. destruct (feed d1 seen1 a) as [[d2 seen2] out2].
    destruct (feed d2 seen2 b) as [[d3 seen3] out3].
    by rewrite app_assoc.
Qed.

Lemma decode_stream (td : TextDecoder) (value : list byte) :
  streaming_decoder td ->
  decode td value true
  = let '(d, seen, out) := feed (utf8 td) (bom_seen td) value in
    (MkDecoder d seen true, out).
Proof.
  intros Htd. unfold decode.
  destruct (do_not_flush td) eqn:E; [done|]. by rewrite (Htd E).
Qed.

Lemma stream_text_nil : stream_text [] = [].
Proof. reflexivity. Qed.

Lemma byte_val_range (b : byte) : (0 <= byte_val b < 256)%Z.
Proof.
  unfold byte_val. pose proof (Byte.to_N_bounded b) as H.
  lia.
Qed.

(** Bytes below 0x80 decode to themselves, one code unit each. *)
Lemma feed_ascii (seen : bool) (B : list byte) :
  Forall (fun b => (byte_val b < 0x80)%Z) B ->
  (feed utf8_initial seen B).2 = map byte_val B
  /\ (feed utf8_initial seen B).1.1 = utf8_initial.
Proof.
  intros HB. revert seen. induction HB as [|b B Hb HB IH]; intros seen.
  { done. }
  pose proof (byte_val_range b) as Hr. simpl.
  unfold utf8_handler, utf8_lead. simpl.
  destruct (Z.leb_spec (byte_val b) 127); [|lia]. simpl.
  destruct (IH true) as [IH1 IH2].
  destruct (feed utf8_initial true B) as [[d2 seen2] out2]. simpl in *.
  subst. split; [|done].
  replace (byte_val b =? 65279)%Z with false by (symmetry; apply Z.eqb_neq; lia).
  rewrite andb_false_r. unfold utf16.
  by destruct (Z.ltb_spec (byte_val b) 65536); [|lia].
Qed.

(** ** The decoder inverts the UTF-8 encoding *)

Lemma serialize_app (seen : bool) (a b : list Z) :
  serialize seen (a ++ b)
  = let '(seen1, out1) := serialize seen a in
    let '(seen2, out2) := serialize seen1 b in
    (seen2, out1 ++ out2).
Proof.
  revert seen. induction a as [|cp a IH]; intros seen.
  - simpl. by destruct (serialize seen b).
  - simpl. rewrite IH. destruct (serialize true a) as [seen1 out1].
    destruct (serialize seen1 b) as [seen2 out2].
    destruct (negb seen && (cp =? 65279)%Z); [done|].
    by rewrite app_assoc.
Qed.

(** The decoder is the handler followed by the serializer. *)
Lemma feed_handlers (d : utf8_decoder) (seen : bool) (B : list byte) :
  feed d seen B
  = let '(d', cps) := handlers d (map byte_val B) in
    let '(seen', out) := serialize seen cps in
    (d', seen', out).
Proof.
  revert d seen. induction B as [|b B IH]; intros d seen; [done|].
  simpl. destruct (utf8_handler d (byte_val b)) as [d1 cps1].
  destruct (handlers d1 (map byte_val B)) as [d2 cps2] eqn:E.
  rewrite serialize_app. destruct (serialize seen cps1) as [seen1 out1].
  rewrite IH, E. by destruct (serialize seen1 cps2) as [seen2 out2].
Qed.

Lemma handlers_app (d : utf8_decoder) (a b : list Z) :
  handlers d (a ++ b)
  = let '(d1, cps1) := handlers d a in
    let '(d2, cps2) := handlers d1 b in
    (d2, cps1 ++ cps2).
Proof.
  revert d. induction a as [|x a IH]; intros d.
  - simpl. by destruct (handlers d b).
  - simpl. destruct (utf8_handler d x) as [d1 cps1]. rewrite IH.
    destruct (handlers d1 a) as [d2 cps2].
    destruct (handlers d2 b) as [d3 cps3]. by rewrite app_assoc.
Qed.

Lemma land_low_bits (b : Z) (n : Z) :
  (0 <= n)%Z -> Z.land b (2 ^ n - 1) = (b mod 2 ^ n)%Z.
Proof.
  intros Hn. rewrite <- Z.land_ones by done. f_equal.
  rewrite Z.ones_equiv. lia.
Qed.

Lemma lor_shiftl_low (q r : Z) :
  (0 <= r < 64)%Z -> Z.lor (Z.shiftl q 6) r = (q * 64 + r)%Z.
Proof.
  intros Hr. rewrite Z.shiftl_mul_pow2 by lia. change (2 ^ 6)%Z with 64%Z.
  assert (Hdisj : Z.land (q * 64) r = 0%Z).
  { apply Z.bits_inj'. intros n Hn. rewrite Z.land_spec, Z.bits_0.
    destruct (Z.lt_ge_cases n 6) as [Hlow|Hhigh].
    - change 64%Z with (2 ^ 6)%Z. by rewrite Z.mul_pow2_bits_low.
    - replace r with (r mod 2 ^ 6)%Z by (apply Z.mod_small; lia).
      rewrite Z.mod_pow2_bits_high by lia. apply andb_false_r. }
  by rewrite <- Z.lxor_lor, <- Z.add_nocarry_lxor.
Qed.

Lemma handler_ascii (b : Z) :
  (0 <= b < 0x80)%Z -> utf8_handler utf8_initial b = (utf8_initial, [b]).
Proof.
  intros Hb. unfold utf8_handler, utf8_lead. simpl.
  by destruct (Z.leb_spec b 127); [|lia].
Qed.

Lemma handler_lead2 (q : Z) :
  (2 <= q < 32)%Z ->
  utf8_handler utf8_initial (0xC0 + q) = (Utf8 q 0 1 0x80 0xBF, []).
Proof.
  intros Hq. unfold utf8_handler, utf8_lead. simpl bytes_needed. cbv iota.
  change (0 =? 0)%Z with true. cbv iota.
  destruct (Z.leb_spec (0xC0 + q) 0x7F); [lia|].
  destruct (Z.leb_spec 0xC2 (0xC0 + q)); [|lia].
  destruct (Z.leb_spec (0xC0 + q) 0xDF); [|lia]. simpl andb. cbv iota.
  change 0x1F%Z with (2 ^ 5 - 1)%Z. rewrite land_low_bits by lia.
  do 2 f_equal. change (2 ^ 5)%Z with 32%Z. Z.div_mod_to_equations. lia.
Qed.

Lemma handler_lead3 (q : Z) :
  (0 <= q < 16)%Z ->
  utf8_handler utf8_initial (0xE0 + q)
  = (Utf8 q 0 2 (if (q =? 0)%Z then 0xA0 else 0x80)
            (if (q =? 13)%Z then 0x9F else 0xBF), []).
Proof.
  intros Hq. unfold utf8_handler, utf8_lead. simpl bytes_needed.
  change (0 =? 0)%Z with true. cbv iota.
  destruct (Z.leb_spec (0xE0 + q) 0x7F); [lia|].
  destruct (Z.leb_spec 0xC2 (0xE0 + q)); [|lia].
  destruct (Z.leb_spec (0xE0 + q) 0xDF); [lia|].
  destruct (Z.leb_spec 0xE0 (0xE0 + q)); [|lia].
  destruct (Z.leb_spec (0xE0 + q) 0xEF); [|lia]. simpl andb. cbv iota.
  change 0xF%Z with (2 ^ 4 - 1)%Z. rewrite land_low_bits by lia.
  change (2 ^ 4)%Z with 16%Z.
  replace ((0xE0 + q) mod 16)%Z with q by (Z.div_mod_to_equations; lia).
  replace (0xE0 + q =? 0xE0)%Z with (q =? 0)%Z
    by (destruct (Z.eqb_spec q 0), (Z.eqb_spec (0xE0 + q) 0xE0); lia).
  replace (0xE0 + q =? 0xED)%Z with (q =? 13)%Z
    by (destruct (Z.eqb_spec q 13), (Z.eqb_spec (0xE0 + q) 0xED); lia).
  done.
Qed.

Lemma handler_lead4 (q : Z) :
  (0 <= q < 5)%Z ->
  utf8_handler utf8_initial (0xF0 + q)
  = (Utf8 q 0 3 (if (q =? 0)%Z then 0x90 else 0x80)
            (if (q =? 4)%Z then 0x8F else 0xBF), []).
Proof.
  intros Hq. unfold utf8_handler, utf8_lead. simpl bytes_needed.
  change (0 =? 0)%Z with true. cbv iota.
  destruct (Z.leb_spec (0xF0 + q) 0x7F); [lia|].
  destruct (Z.leb_spec 0xC2 (0xF0 + q)); [|lia].
  destruct (Z.leb_spec (0xF0 + q) 0xDF); [lia|].
  destruct (Z.leb_spec 0xE0 (0xF0 + q)); [|lia].
  destruct (Z.leb_spec (0xF0 + q) 0xEF); [lia|].
  destruct (Z.leb_spec 0xF0 (0xF0 + q)); [|lia].
  destruct (Z.leb_spec (0xF0 + q) 0xF4); [|lia]. simpl andb. cbv iota.
  change 0x7%Z with (2 ^ 3 - 1)%Z. rewrite land_low_bits by lia.
  change (2 ^ 3)%Z with 8%Z.
  replace ((0xF0 + q) mod 8)%Z with q by (Z.div_mod_to_equations; lia).
  replace (0xF0 + q =? 0xF0)%Z with (q =? 0)%Z
    by (destruct (Z.eqb_spec q 0), (Z.eqb_spec (0xF0 + q) 0xF0); lia).
  replace (0xF0 + q =? 0xF4)%Z with (q =? 4)%Z
    by (destruct (Z.eqb_spec q 4), (Z.eqb_spec (0xF0 + q) 0xF4); lia).
  done.
Qed.

(** A continuation byte inside the expected range. *)
Lemma handler_continuation (c seen needed lower upper r : Z) :
  needed <> 0%Z -> (0 <= r < 64)%Z ->
  (lower <= 0x80 + r <= upper)%Z ->
  utf8_handler (Utf8 c seen needed lower upper) (0x80 + r)
  = if (seen + 1 =? needed)%Z then (utf8_initial, [(c * 64 + r)%Z])
    else (Utf8 (c * 64 + r) (seen + 1) needed 0x80 0xBF, []).
Proof.
  intros Hn Hr Hrange. unfold utf8_handler.
  cbn [bytes_needed lower_boundary upper_boundary code_point bytes_seen].
  destruct (Z.eqb_spec needed 0); [done|].
  destruct (Z.leb_spec lower (0x80 + r)); [|lia].
  destruct (Z.leb_spec (0x80 + r) upper); [|lia]. simpl negb. cbv iota.
  change 0x3F%Z with (2 ^ 6 - 1)%Z. rewrite land_low_bits by lia.
  change (2 ^ 6)%Z with 64%Z.
  replace ((0x80 + r) mod 64)%Z with r by (Z.div_mod_to_equations; lia).
  by rewrite lor_shiftl_low.
Qed.

Local Ltac divmod := Z.div_mod_to_equations; lia.

Lemma handlers_encode (cp : Z) :
  is_scalar cp -> handlers utf8_initial (utf8_encode cp) = (utf8_initial, [cp]).
Proof.
  intros Hcp. unfold is_scalar in Hcp. unfold utf8_encode.
  destruct (Z.ltb_spec cp 0x80) as [H1|H1].
  { simpl. by rewrite handler_ascii by lia. }
  destruct (Z.ltb_spec cp 0x800) as [H2|H2].
  { assert (2 <= cp / 64 < 32)%Z by divmod.
    assert (0 <= cp mod 64 < 64)%Z by divmod.
    assert (cp / 64 * 64 + cp mod 64 = cp)%Z as Hcp' by divmod.
    simpl. rewrite handler_lead2 by done.
    rewrite handler_continuation by lia. simpl. by rewrite Hcp'. }
  destruct (Z.ltb_spec cp 0x10000) as [H3|H3].
  { assert (0 <= cp / 4096 < 16)%Z by divmod.
    assert (0 <= (cp / 64) mod 64 < 64)%Z by divmod.
    assert (0 <= cp mod 64 < 64)%Z by divmod.
    assert (cp / 4096 = 0 -> 32 <= (cp / 64) mod 64)%Z by divmod.
    assert (cp / 4096 = 13 -> (cp / 64) mod 64 < 32)%Z by divmod.
    assert ((cp / 4096 * 64 + (cp / 64) mod 64) * 64 + cp mod 64 = cp)%Z
      as Hcp' by divmod.
    simpl. rewrite handler_lead3 by done.
    rewrite handler_continuation; [|done|done|].
    2:{ destruct (Z.eqb_spec (cp / 4096) 0), (Z.eqb_spec (cp / 4096) 13);
        lia. }
    simpl. rewrite handler_continuation by lia. simpl. by rewrite Hcp'. }
  assert (0 <= cp / 262144 < 5)%Z by divmod.
  assert (0 <= (cp / 4096) mod 64 < 64)%Z by divmod.
  assert (0 <= (cp / 64) mod 64 < 64)%Z by divmod.
  assert (0 <= cp mod 64 < 64)%Z by divmod.
  assert (cp / 262144 = 0 -> 16 <= (cp / 4096) mod 64)%Z by divmod.
  assert (cp / 262144 = 4 -> (cp / 4096) mod 64 < 16)%Z by divmod.
  assert (((cp / 262144 * 64 + (cp / 4096) mod 64) * 64
           + (cp / 64) mod 64) * 64 + cp mod 64 = cp)%Z as Hcp' by divmod.
  simpl. rewrite handler_lead4 by done.
  rewrite handler_continuation; [|done|done|].
  2:{ destruct (Z.eqb_spec (cp / 262144) 0), (Z.eqb_spec (cp / 262144) 4);
      lia. }
  simpl. rewrite handler_continuation by lia. simpl.
  rewrite handler_continuation by lia. simpl. by rewrite Hcp'.
Qed.

Lemma handlers_encode_all (cps : list Z) :
  Forall is_scalar cps ->
  handlers utf8_initial (concat (map utf8_encode cps)) = (utf8_initial, cps).
Proof.
  induction 1 as [|cp cps Hcp _ IH]; [done|].
  simpl. by rewrite handlers_app, handlers_encode, IH.
Qed.

Lemma serialize_seen (cps : list Z) :
  serialize true cps = (true, concat (map utf16 cps)).
Proof. induction cps as [|cp cps IH]; [done|]. simpl. by rewrite IH. Qed.

(** Well-formed UTF-8 decodes to its scalar values, in UTF-16; a leading
    U+FEFF is taken for a byte order mark and dropped. *)
Lemma stream_text_encoded (cps : list Z) (B : list byte) :
  encodes cps B ->
  stream_text B
  = match cps with
    | cp :: rest =>
        if (cp =? 0xFEFF)%Z then concat (map utf16 rest)
        else concat (map utf16 cps)
    | [] => []
    end.
Proof.
  intros [Hcps HB]. unfold stream_text.
  rewrite feed_handlers, HB, handlers_encode_all by done.
  destruct cps as [|cp rest]; [done|].
  simpl. rewrite serialize_seen. by destruct (cp =? 65279)%Z.
Qed.

Lemma feed_app_initial (pre value : list byte) :
  feed utf8_initial false (pre ++ value)
  = let '(d, seen, out) :=
      feed (feed utf8_initial false pre).1.1 (feed utf8_initial false pre).1.2
           value in
    (d, seen, stream_text pre ++ out).
Proof.
  rewrite feed_app. unfold stream_text.
  by destruct (feed utf8_initial false pre) as [[??]?].
Qed.

(** ** Line terminators through the decoder *)

Lemma count_LF_app (a b : list Z) : count_LF (a ++ b) = count_LF a + count_LF b.
Proof. unfold count_LF. by rewrite filter_app, length_app. Qed.

Lemma count_LF_one (c : Z) :
  count_LF [c] = if (c =? LF)%Z then 1 else 0.
Proof.
  unfold count_LF. rewrite filter_cons, filter_nil.
  destruct (Z.eqb_spec c LF);
    [by rewrite decide_True|by rewrite decide_False].
Qed.

Lemma utf16_count_LF (cp : Z) : count_LF (utf16 cp) = count_LF [cp].
Proof.
  unfold utf16. destruct (Z.ltb_spec cp 0x10000) as [|Hcp]; [done|].
  assert (0 <= Z.shiftr (cp - 0x10000) 10)%Z by (apply Z.shiftr_nonneg; lia).
  assert (0 <= Z.land (cp - 0x10000) 0x3FF)%Z by (apply Z.land_nonneg; lia).
  unfold count_LF. rewrite !filter_cons, filter_nil.
  rewrite !decide_False; [done|unfold LF; lia..].
Qed.

Lemma serialize_count_LF (seen : bool) (cps : list Z) :
  count_LF (serialize seen cps).2 = count_LF cps.
Proof.
  revert seen. induction cps as [|cp cps IH]; intros seen; [done|].
  simpl. specialize (IH true).
  destruct (serialize true cps) as [seen' out]. simpl in *.
  change (cp :: cps) with ([cp] ++ cps). rewrite (count_LF_app [cp]), <- IH.
  destruct (negb seen && (cp =? 65279)%Z) eqn:E.
  - apply andb_true_iff in E as [_ ->%Z.eqb_eq]. done.
  - by rewrite count_LF_app, utf16_count_LF.
Qed.

Lemma lead_keeps_terminators (b : Z) :
  (0 <= b < 256)%Z ->
  lf_safe (utf8_lead b).1
  /\ count_LF (utf8_lead b).2 = if (b =? LF)%Z then 1 else 0.
Proof.
  intros Hb. unfold utf8_lead.
  destruct (Z.leb_spec b 0x7F).
  { split; [by left|]. apply count_LF_one. }
  assert ((b =? LF)%Z = false) as -> by (apply Z.eqb_neq; unfold LF; lia).
  destruct (Z.leb_spec 0xC2 b), (Z.leb_spec b 0xDF); simpl andb; cbv iota;
    try (destruct (Z.leb_spec 0xE0 b), (Z.leb_spec b 0xEF); simpl andb;
         cbv iota);
    try (destruct (Z.leb_spec 0xF0 b), (Z.leb_spec b 0xF4); simpl andb;
         cbv iota);
    try lia; try (split; [by left|done]).
  - split; [|done]. right. simpl.
    change 0x1F%Z with (2 ^ 5 - 1)%Z. rewrite land_low_bits by lia.
    change (2 ^ 5)%Z with 32%Z. Z.div_mod_to_equations. lia.
  - split; [|done]. right. simpl.
    change 0xF%Z with (2 ^ 4 - 1)%Z. rewrite land_low_bits by lia.
    change (2 ^ 4)%Z with 16%Z.
    destruct (Z.eqb_spec b 0xE0), (Z.eqb_spec b 0xED);
      Z.div_mod_to_equations; lia.
  - split; [|done]. right. simpl.
    change 0x7%Z with (2 ^ 3 - 1)%Z. rewrite land_low_bits by lia.
    change (2 ^ 3)%Z with 8%Z.
    destruct (Z.eqb_spec b 0xF0), (Z.eqb_spec b 0xF4);
      Z.div_mod_to_equations; lia.
Qed.

Lemma handler_keeps_terminators (d : utf8_decoder) (b : Z) :
  lf_safe d -> (0 <= b < 256)%Z ->
  lf_safe (utf8_handler d b).1
  /\ count_LF (utf8_handler d b).2 = if (b =? LF)%Z then 1 else 0.
Proof.
  intros Hd Hb. unfold utf8_handler.
  destruct (Z.eqb_spec (bytes_needed d) 0) as [|Hn].
  { by apply lead_keeps_terminators. }
  destruct Hd as [|(Hc & Hlow & Hup & Hmin)]; [done|].
  destruct (Z.leb_spec (lower_boundary d) b), (Z.leb_spec b (upper_boundary d));
    simpl negb; cbv iota.
  2-4: destruct (lead_keeps_terminators b Hb) as [H1 H2];
       destruct (utf8_lead b) as [d' out]; simpl in *;
       split; [done|];
       change (REPLACEMENT :: out) with ([REPLACEMENT] ++ out);
       by rewrite count_LF_app.
  assert ((b =? LF)%Z = false) as -> by (apply Z.eqb_neq; unfold LF; lia).
  change 0x3F%Z with (2 ^ 6 - 1)%Z. rewrite land_low_bits by lia.
  change (2 ^ 6)%Z with 64%Z.
  assert (Hr : (b mod 64 = b - 0x80)%Z) by (Z.div_mod_to_equations; lia).
  rewrite Hr, lor_shiftl_low by lia.
  destruct (_ =? _)%Z; simpl.
  - split; [by left|]. rewrite count_LF_one.
    destruct (Z.eqb_spec (code_point d * 64 + (b - 128)) LF) as [E|]; [|done].
    unfold LF in E. lia.
  - split; [|done]. right. simpl. lia.
Qed.

Lemma feed_keeps_terminators (d : utf8_decoder) (seen : bool)
    (B : list byte) :
  lf_safe d ->
  lf_safe (feed d seen B).1.1
  /\ count_LF (feed d seen B).2
     = length (filter (fun b => byte_val b = LF) B).
Proof.
  revert d seen. induction B as [|b B IH]; intros d seen Hd; [done|].
  simpl. destruct (handler_keeps_terminators d (byte_val b) Hd
                     (byte_val_range b)) as [H1 H2].
  destruct (utf8_handler d (byte_val b)) as [d1 cps]. simpl in H1, H2.
  pose proof (serialize_count_LF seen cps) as H3.
  destruct (serialize seen cps) as [seen1 out1]. simpl in H3.
  destruct (IH d1 seen1 H1) as [H4 H5].
  destruct (feed d1 seen1 B) as [[d2 seen2] out2]. simpl in *.
  split; [done|]. rewrite count_LF_app, H3, H2, H5, filter_cons.
  destruct (Z.eqb_spec (byte_val b) LF);
    [by rewrite decide_True|by rewrite decide_False].
Qed.

(** As many lines are complete as the text has terminators. *)
Lemma complete_lines_count (t : jsstring) :
  length (complete_lines t) = count_LF t.
Proof.
  induction t as [|c t IH]; [done|].
  change (c :: t) with ([c] ++ t) at 2. rewrite count_LF_app, count_LF_one.
  destruct (Z.eqb_spec c LF) as [->|Hc].
  - destruct (lines_of_LF t) as [-> _]. simpl. by rewrite IH.
  - destruct (lines_of_char c t Hc) as [(-> & _ & Hne)|(-> & Hnil & _)].
    + rewrite <- IH. by destruct (complete_lines t).
    + by rewrite <- IH, Hnil.
Qed.

Lemma count_LF_none (t : jsstring) : LF ∉ t -> count_LF t = 0.
Proof.
  induction t as [|c t IH]; [done|]. intros [Hc Ht]%not_elem_of_cons.
  change (c :: t) with ([c] ++ t). rewrite count_LF_app, count_LF_one, IH by done.
  by destruct (Z.eqb_spec c LF).
Qed.

(** ** The loop body *)

Lemma or_empty_default (x : option jsstring) : or_empty x = default [] x.
Proof. by destruct x as [[|??]|]. Qed.

Lemma take_lines_spec (buffer chunk : jsstring) :
  take_lines buffer chunk
  = (complete_lines (buffer ++ chunk), fragment (buffer ++ chunk)).
Proof. unfold take_lines, pop. by rewrite or_empty_default. Qed.

Lemma length_pos_nil {A} (l : list A) : (0 <? length l)%nat = false -> l = [].
Proof. destruct l; [done|]. simpl. discriminate. Qed.

Lemma byteLength_app (a b : list byte) :
  byteLength (a ++ b) = (byteLength a + byteLength b)%Z.
Proof. unfold byteLength. rewrite length_app. lia. Qed.

Lemma trim_to_cap_last_n (l : list jsstring) :
  CappedViewer.trim_to_cap l = last_n CappedViewer.MAX_DISPLAY_LINES l.
Proof.
  unfold CappedViewer.trim_to_cap.
  destruct (Nat.ltb_spec CappedViewer.MAX_DISPLAY_LINES (length l)) as [H|H].
  - rewrite <- Nat2Z.inj_sub by lia. by rewrite slice_from_drop by lia.
  - by rewrite last_n_all.
Qed.

(** What one chunk does to the decoder, the buffer and the lines, in terms
    of the text decoded so far. *)
Lemma chunk_step (td : TextDecoder) (pre value : list byte) :
  streaming_decoder td ->
  (feed utf8_initial false pre).1 = (utf8 td, bom_seen td) ->
  exists td' chunk,
    decode td value true = (td', chunk)
    /\ streaming_decoder td'
    /\ (feed utf8_initial false (pre ++ value)).1 = (utf8 td', bom_seen td')
    /\ stream_text (pre ++ value) = stream_text pre ++ chunk
    /\ take_lines (fragment (stream_text pre)) chunk
       = (complete_lines (fragment (stream_text pre) ++ chunk),
          fragment (stream_text (pre ++ value)))
    /\ complete_lines (stream_text (pre ++ value))
       = complete_lines (stream_text pre)
         ++ complete_lines (fragment (stream_text pre) ++ chunk)
    /\ length (complete_lines (fragment (stream_text pre) ++ chunk))
       = newlines value.
Proof.
  intros Htd Hpre. rewrite decode_stream by done.
  pose proof (feed_app_initial pre value) as Happ.
  rewrite Hpre in Happ. simpl in Happ.
  assert (Hsafe : lf_safe (utf8 td)).
  { destruct (feed_keeps_terminators utf8_initial false pre) as [H _];
      [by left|]. by rewrite Hpre in H. }
  destruct (feed_keeps_terminators (utf8 td) (bom_seen td) value Hsafe)
    as [_ Hcount].
  destruct (feed (utf8 td) (bom_seen td) value) as [[d seen] out] eqn:E.
  exists (MkDecoder d seen true), out.
  assert (Ht : stream_text (pre ++ value) = stream_text pre ++ out).
  { unfold stream_text at 1. by rewrite Happ. }
  split_and!; try done.
  - by rewrite Happ.
  - by rewrite take_lines_spec, Ht, (fragment_app (stream_text pre)).
  - by rewrite Ht, complete_lines_app.
  - rewrite complete_lines_count, count_LF_app, count_LF_none
      by apply fragment_no_LF.
    done.
Qed.

Lemma live_read_chunk (v0 : LiveViewer.View) (pre value : list byte)
    (s : LiveViewer.Session) :
  live_reading v0 pre s ->
  live_reading v0 (pre ++ value) (LiveViewer.read_step s (ReadChunk value)).
Proof.
  intros (td & Htd & Hpre & ->).
  destruct (chunk_step td pre value Htd Hpre)
    as (td' & chunk & Hdec & Htd' & Hpre' & _ & Hlines & Hcomplete & _).
  exists td'. split_and!; try done.
  unfold LiveViewer.read_step.
  cbn [LiveViewer.task LiveViewer.view LiveViewer.buffer LiveViewer.decoder].
  rewrite Hdec, Hlines, Hcomplete.
  destruct v0 as [ll tb fs er st il ip].
  destruct (0 <? _)%nat eqn:E.
  - unfold LiveViewer.setLogLines, LiveViewer.setTotalBytes. simpl.
    by rewrite byteLength_app, Z.add_assoc, app_assoc.
  - apply length_pos_nil in E. rewrite E, app_nil_r.
    unfold LiveViewer.setLogLines, LiveViewer.setTotalBytes. simpl.
    by rewrite byteLength_app, Z.add_assoc.
Qed.

Lemma live_reading_start (source : LiveViewer.LogSource) (size : option Z) :
  live_reading (LiveViewer.view (LiveViewer.streaming source size)) []
               (LiveViewer.streaming source size).
Proof. exists new_TextDecoder. split_and!; try done. Qed.

Lemma live_run_chunks (v0 : LiveViewer.View) (pre : list byte)
    (s : LiveViewer.Session) (cs : list (list byte)) :
  live_reading v0 pre s ->
  live_reading v0 (pre ++ concat cs) (LiveViewer.run s (map ReadChunk cs)).
Proof.
  revert pre s. induction cs as [|c cs IH]; intros pre s Hs.
  - simpl. by rewrite app_nil_r.
  - simpl. rewrite app_assoc. apply IH. by apply live_read_chunk.
Qed.

(** A chunk that fits: its lines join [allLines]. *)
Lemma capped_read_chunk (engine : Engine) (pre value : list byte)
    (s : CappedViewer.Session) :
  capped_reading pre s -> fits engine value = true ->
  capped_reading (pre ++ value)
                 (CappedViewer.read_step engine s (ReadChunk value)).
Proof.
  intros (td & Htd & Hpre & ->) Hfit%Nat.leb_le.
  destruct (chunk_step td pre value Htd Hpre)
    as (td' & chunk & Hdec & Htd' & Hpre' & _ & Hlines & Hcomplete & Hcount).
  exists td'. split_and!; try done.
  unfold CappedViewer.read_step, CappedViewer.push_spread.
  cbn [CappedViewer.task CappedViewer.view CappedViewer.buffer
       CappedViewer.decoder CappedViewer.allLines].
  rewrite Hdec, Hlines, Hcomplete, Hcount.
  unfold CappedViewer.setTotalBytes.
  cbn [CappedViewer.logLines CappedViewer.totalBytes CappedViewer.error
       CappedViewer.status].
  rewrite byteLength_app.
  destruct (Nat.ltb_spec 0 (newlines value)) as [Hpos|Hnone].
  - destruct (Nat.ltb_spec (max_arguments engine) (newlines value)); [lia|].
    by rewrite trim_to_cap_last_n, last_n_app_last_n.
  - assert (E : complete_lines (fragment (stream_text pre) ++ chunk) = []).
    { apply length_zero_iff_nil. lia. }
    by rewrite E, app_nil_r.
Qed.

(** A chunk that does not fit: [push] throws, the [catch] reports it, and
    the loop is left with nothing published. *)
Lemma capped_read_overflow (engine : Engine) (pre value : list byte)
    (s : CappedViewer.Session) :
  capped_reading pre s -> fits engine value = false ->
  CappedViewer.read_step engine s (ReadChunk value)
  = CappedViewer.MkSession
      (CappedViewer.on_reject (RangeError engine)
         (CappedViewer.MkView [] (byteLength (pre ++ value)) None
                              "Streaming log data..."))
      None.
Proof.
  intros (td & Htd & Hpre & ->) Hfit%Nat.leb_gt.
  destruct (chunk_step td pre value Htd Hpre)
    as (td' & chunk & Hdec & _ & _ & _ & Hlines & _ & Hcount).
  unfold CappedViewer.read_step, CappedViewer.push_spread.
  cbn [CappedViewer.task CappedViewer.view CappedViewer.buffer
       CappedViewer.decoder CappedViewer.allLines].
  rewrite Hdec, Hlines, Hcount.
  unfold CappedViewer.setTotalBytes.
  cbn [CappedViewer.logLines CappedViewer.totalBytes CappedViewer.error
       CappedViewer.status].
  rewrite byteLength_app.
  destruct (Nat.ltb_spec 0 (newlines value)); [|lia].
  by destruct (Nat.ltb_spec (max_arguments engine) (newlines value)); [|lia].
Qed.

Lemma capped_reading_start : capped_reading [] CappedViewer.streaming.
Proof. exists new_TextDecoder. split_and!; try done. Qed.

Lemma capped_run_chunks (engine : Engine) (pre : list byte)
    (s : CappedViewer.Session) (cs : list (list byte)) :
  capped_reading pre s -> forallb (fits engine) cs = true ->
  capped_reading (pre ++ concat cs)
                 (CappedViewer.run engine s (map ReadChunk cs)).
Proof.
  revert pre s. induction cs as [|c cs IH]; intros pre s Hs Hfit.
  - simpl. by rewrite app_nil_r.
  - simpl in Hfit. apply andb_true_iff in Hfit as [Hc Hcs].
    simpl. rewrite app_assoc. apply IH; [|done]. by apply capped_read_chunk.
Qed.

(** ** End of stream and cancellation *)

Lemma live_run_app (s : LiveViewer.Session) (rs1 rs2 : list ReadResult) :
  LiveViewer.run s (rs1 ++ rs2) = LiveViewer.run (LiveViewer.run s rs1) rs2.
Proof. apply fold_left_app. Qed.

Lemma capped_run_cons (engine : Engine) (s : CappedViewer.Session)
    (r : ReadResult) (rs : list ReadResult) :
  CappedViewer.run engine s (r :: rs)
  = CappedViewer.run engine (CappedViewer.read_step engine s r) rs.
Proof. reflexivity. Qed.

Lemma capped_run_app (engine : Engine) (s : CappedViewer.Session)
    (rs1 rs2 : list ReadResult) :
  CappedViewer.run engine s (rs1 ++ rs2)
  = CappedViewer.run engine (CappedViewer.run engine s rs1) rs2.
Proof. apply fold_left_app. Qed.

(** Once the loop has been left, no read result is looked at any more. *)
Lemma live_run_exited (s : LiveViewer.Session) (rs : list ReadResult) :
  LiveViewer.task s = None -> LiveViewer.run s rs = s.
Proof.
  intros H. induction rs as [|r rs IH]; [done|].
  simpl. assert (LiveViewer.read_step s r = s) as ->; [|done].
  unfold LiveViewer.read_step. by rewrite H.
Qed.

Lemma capped_run_exited (engine : Engine) (s : CappedViewer.Session)
    (rs : list ReadResult) :
  CappedViewer.task s = None -> CappedViewer.run engine s rs = s.
Proof.
  intros H. induction rs as [|r rs IH]; [done|].
  simpl. assert (CappedViewer.read_step engine s r = s) as ->; [|done].
  unfold CappedViewer.read_step. by rewrite H.
Qed.

Lemma live_done (v0 : LiveViewer.View) (pre : list byte)
    (s : LiveViewer.Session) :
  live_reading v0 pre s ->
  LiveViewer.read_step s ReadDone
  = LiveViewer.MkSession
      (LiveViewer.setStatus "Stream finished."
         (LiveViewer.setTotalBytes (fun p => (p + byteLength pre)%Z)
            (LiveViewer.setLogLines
               (fun prev => prev ++ all_lines (stream_text pre)) v0)))
      None.
Proof.
  intros (td & _ & _ & ->). unfold LiveViewer.read_step, all_lines.
  cbn [LiveViewer.task LiveViewer.view LiveViewer.buffer].
  destruct v0 as [ll tb fs er st il ip].
  destruct (truthy _); unfold LiveViewer.setStatus, LiveViewer.setLogLines,
    LiveViewer.setTotalBytes; simpl.
  - by rewrite app_assoc.
  - by rewrite app_nil_r.
Qed.

Lemma capped_done (engine : Engine) (pre : list byte)
    (s : CappedViewer.Session) :
  capped_reading pre s ->
  CappedViewer.read_step engine s ReadDone
  = CappedViewer.MkSession
      (CappedViewer.MkView
         (last_n CappedViewer.MAX_DISPLAY_LINES (all_lines (stream_text pre)))
         (byteLength pre) None "Stream finished.")
      None.
Proof.
  intros (td & _ & _ & ->). unfold CappedViewer.read_step, all_lines.
  cbn [CappedViewer.task CappedViewer.view CappedViewer.buffer
       CappedViewer.allLines].
  rewrite trim_to_cap_last_n.
  destruct (truthy _).
  - by rewrite last_n_app_last_n.
  - rewrite <- (app_nil_r (last_n _ (complete_lines _))).
    by rewrite last_n_app_last_n.
Qed.

(** The live viewer after the chunks [cs] and the end of the stream. *)
Lemma live_finished (source : LiveViewer.LogSource) (size : option Z)
    (cs : list (list byte)) :
  LiveViewer.run (LiveViewer.streaming source size)
                 (map ReadChunk cs ++ [ReadDone])
  = LiveViewer.MkSession
      (LiveViewer.MkView (all_lines (stream_text (concat cs)))
         (byteLength (concat cs)) size None "Stream finished." false false)
      None.
Proof.
  rewrite live_run_app. simpl.
  erewrite live_done
    by apply (live_run_chunks _ [] _ cs), live_reading_start.
  done.
Qed.

(** The chunks of a stream all fit, or there is a first one that does
    not. *)
Lemma chunks_fit_or_not (engine : Engine) (cs : list (list byte)) :
  (forallb (fits engine) cs = true /\ consumed engine cs = cs)
  \/ (exists pre c post,
        cs = pre ++ c :: post
        /\ forallb (fits engine) pre = true /\ fits engine c = false
        /\ forallb (fits engine) cs = false
        /\ consumed engine cs = pre ++ [c]).
Proof.
  induction cs as [|c cs IH]; [by left|]. simpl.
  destruct (fits engine c) eqn:Hc.
  - destruct IH as [[H1 H2]|(pre & c' & post & -> & H1 & H2 & H3 & H4)].
    + left. by rewrite H2.
    + right. exists (c :: pre), c', post. simpl. by rewrite Hc, H4.
  - right. by exists [], c, cs.
Qed.

(** The first viewer while it reads chunks that all fit. *)
Lemma capped_after_chunks (engine : Engine) (cs : list (list byte)) :
  forallb (fits engine) cs = true ->
  exists td,
    CappedViewer.run engine CappedViewer.streaming (map ReadChunk cs)
    = CappedViewer.MkSession
        (CappedViewer.MkView [] (byteLength (concat cs)) None
                             "Streaming log data...")
        (Some (CappedViewer.MkTask td (fragment (stream_text (concat cs)))
                 (last_n CappedViewer.MAX_DISPLAY_LINES
                         (complete_lines (stream_text (concat cs)))))).
Proof.
  intros Hfit.
  pose proof (capped_run_chunks engine [] _ cs capped_reading_start Hfit)
    as (td & _ & _ & H).
  exists td. by rewrite H.
Qed.

(** The first viewer after the chunks [cs] and the end of the stream. *)
Lemma capped_finished (engine : Engine) (cs : list (list byte))
    (rest : list ReadResult) :
  forallb (fits engine) cs = true ->
  CappedViewer.run engine CappedViewer.streaming
                   (map ReadChunk cs ++ ReadDone :: rest)
  = CappedViewer.MkSession
      (CappedViewer.MkView
         (last_n CappedViewer.MAX_DISPLAY_LINES
                 (all_lines (stream_text (concat cs))))
         (byteLength (concat cs)) None "Stream finished.")
      None.
Proof.
  intros Hfit. rewrite capped_run_app.
  pose proof (capped_run_chunks engine [] _ cs capped_reading_start Hfit)
    as Hr.
  rewrite capped_run_cons.
  rewrite (capped_done engine _ _ Hr).
  by rewrite capped_run_exited.
Qed.

(** The first viewer after chunks that fit and a rejected read. *)
Lemma capped_rejected (engine : Engine) (cs : list (list byte))
    (err : JsError) (rest : list ReadResult) :
  forallb (fits engine) cs = true ->
  CappedViewer.run engine CappedViewer.streaming
                   (map ReadChunk cs ++ ReadRejected err :: rest)
  = CappedViewer.MkSession
      (CappedViewer.on_reject err
         (CappedViewer.MkView [] (byteLength (concat cs)) None
                              "Streaming log data..."))
      None.
Proof.
  intros Hfit. rewrite capped_run_app.
  destruct (capped_after_chunks engine cs Hfit) as [td ->].
  by rewrite capped_run_cons, capped_run_exited.
Qed.

(** The first viewer after chunks that fit and one that does not: whatever
    the reader had after it is not read. *)
Lemma capped_overflowed (engine : Engine) (pre : list (list byte))
    (c : list byte) (rest : list ReadResult) :
  forallb (fits engine) pre = true -> fits engine c = false ->
  CappedViewer.run engine CappedViewer.streaming
                   (map ReadChunk pre ++ ReadChunk c :: rest)
  = CappedViewer.MkSession
      (CappedViewer.on_reject (RangeError engine)
         (CappedViewer.MkView [] (byteLength (concat (pre ++ [c]))) None
                              "Streaming log data..."))
      None.
Proof.
  intros Hpre Hc. rewrite capped_run_app.
  pose proof (capped_run_chunks engine [] _ pre capped_reading_start Hpre)
    as Hr.
  rewrite capped_run_cons.
  rewrite (capped_read_overflow engine _ c _ Hr Hc).
  rewrite capped_run_exited by done.
  rewrite concat_app. simpl. by rewrite app_nil_r.
Qed.

(** The same when the chunk that does not fit is somewhere among the chunks
    of a longer trace. *)
Lemma capped_overflowed_among (engine : Engine) (pre post : list (list byte))
    (c : list byte) (rest : list ReadResult) :
  forallb (fits engine) pre = true -> fits engine c = false ->
  CappedViewer.run engine CappedViewer.streaming
                   (map ReadChunk (pre ++ c :: post) ++ rest)
  = CappedViewer.MkSession
      (CappedViewer.on_reject (RangeError engine)
         (CappedViewer.MkView [] (byteLength (concat (pre ++ [c]))) None
                              "Streaming log data..."))
      None.
Proof.
  intros Hpre Hc. rewrite map_app, <- app_assoc. simpl.
  by apply capped_overflowed.
Qed.

(** ** Line reconstruction over chunks (C1, C6, C9) *)

(** C1, the part of the claim that fails: the emitted lines do not determine
    the byte stream.  The streams "a\n" and "a" both give the single line
    "a" (the loop only flushes a non-empty buffer), so the lines joined
    with '\n' are not the bytes "a\n", and no way of rejoining the lines
    can reproduce both streams.  Nor do the lines tell an invalid byte from
    an encoded U+FFFD, or a stream with a byte order mark from one
    without. *)
Lemma C1_rejoin_counterexample :
  let emitted := fun B : list byte =>
    LiveViewer.logLines (LiveViewer.view
      (LiveViewer.run (LiveViewer.streaming (LiveViewer.Local 2) None)
                      [ReadChunk B; ReadDone])) in
  emitted (ln "a") = [text "a"]
  /\ emitted (bytes "a") = [text "a"]
  /\ join_nl (emitted (ln "a")) <> map byte_val (ln "a")
  /\ ~ (exists rejoin : list jsstring -> list byte,
          rejoin (emitted (ln "a")) = ln "a"
          /\ rejoin (emitted (bytes "a")) = bytes "a")
  /\ emitted [xff] = emitted [xef; xbf; xbd]
  /\ emitted ([xef; xbb; xbf] ++ bytes "a") = emitted (bytes "a").
Proof.
  cbv zeta. split_and!.
  - by vm_compute.
  - by vm_compute.
  - by vm_compute.
  - intros (rejoin & H1 & H2).
    change (rejoin [text "a"] = ln "a") in H1.
    change (rejoin [text "a"] = bytes "a") in H2.
    rewrite H1 in H2. by vm_compute in H2.
  - by vm_compute.
  - by vm_compute.
Qed.

(** C1, as amended: however the bytes are cut into chunks, the live viewer
    ends with the lines it gets from the same bytes in a single chunk, and
    so does the first viewer when in neither cutting a chunk holds more
    line terminators than a call takes arguments; the lines of the live
    viewer joined with '\n' are the text the streaming decoder has produced
    from the bytes (an incomplete sequence at their end is still held back,
    the loop never flushes the decoder) without its final terminator, if it
    ends with one; and that text is what the bytes encode when they are
    well-formed UTF-8 that does not start with a byte order mark (the bytes
    themselves when all are below 0x80). *)
Theorem C1_chunking_invariance (engine : Engine)
    (source : LiveViewer.LogSource) (size : option Z)
    (cs : list (list byte)) :
  let B := concat cs in
  let live := fun rs =>
    LiveViewer.logLines (LiveViewer.view
      (LiveViewer.run (LiveViewer.streaming source size) rs)) in
  let capped := fun rs =>
    CappedViewer.logLines (CappedViewer.view
      (CappedViewer.run engine CappedViewer.streaming rs)) in
  live (map ReadChunk cs ++ [ReadDone]) = live [ReadChunk B; ReadDone]
  /\ (forallb (fits engine) cs = true -> fits engine B = true ->
      capped (map ReadChunk cs ++ [ReadDone]) = capped [ReadChunk B; ReadDone])
  /\ join_nl (live (map ReadChunk cs ++ [ReadDone])) = chomp (stream_text B)
  /\ (forall cps,
        encodes cps B -> head cps <> Some 0xFEFF%Z ->
        stream_text B = concat (map utf16 cps))
  /\ (Forall (fun b => (byte_val b < 0x80)%Z) B ->
      stream_text B = map byte_val B).
Proof.
  cbv zeta. split_and!.
  - rewrite live_finished.
    change [ReadChunk (concat cs); ReadDone]
      with (map ReadChunk [concat cs] ++ [ReadDone]).
    rewrite live_finished. simpl. by rewrite app_nil_r.
  - intros Hcs HB. rewrite capped_finished by done.
    change [ReadChunk (concat cs); ReadDone]
      with (map ReadChunk [concat cs] ++ [ReadDone]).
    rewrite capped_finished by (simpl; by rewrite HB).
    simpl. by rewrite app_nil_r.
  - rewrite live_finished. apply join_nl_all_lines.
  - intros cps Henc Hbom. rewrite (stream_text_encoded cps) by done.
    destruct cps as [|cp rest]; [done|].
    destruct (Z.eqb_spec cp 0xFEFF) as [->|]; [done|done].
  - intros HB. by apply feed_ascii.
Qed.

(** The three bytes of U+20AC, split inside the code point, then "a\n". *)
Lemma C1_chunking_invariance_witness :
  let cs := [[xe2; x82]; [xac] ++ ln "a"] in
  let capped := fun rs =>
    CappedViewer.logLines (CappedViewer.view
      (CappedViewer.run JavaScriptCore CappedViewer.streaming rs)) in
  capped (map ReadChunk cs ++ [ReadDone])
  = capped [ReadChunk (concat cs); ReadDone]
  /\ stream_text (concat cs) = concat (map utf16 [0x20AC; 97; 10]%Z)
  /\ stream_text (concat [ln "a"; bytes "b"])
     = map byte_val (concat [ln "a"; bytes "b"]).
Proof.
  split_and!.
  - by apply (C1_chunking_invariance JavaScriptCore (LiveViewer.Local 5)
                (Some 5%Z) [[xe2; x82]; [xac] ++ ln "a"]).
  - apply (C1_chunking_invariance JavaScriptCore (LiveViewer.Local 5)
             (Some 5%Z) [[xe2; x82]; [xac] ++ ln "a"]).
    + split; [|done]. repeat constructor; unfold is_scalar; lia.
    + done.
  - apply (C1_chunking_invariance JavaScriptCore (LiveViewer.Local 3)
             (Some 3%Z) [ln "a"; bytes "b"]).
    vm_compute. repeat constructor.
Defined.

(** C6: once the stream has been consumed to its end, [totalBytes] is the
    number of bytes of all chunks together, in both viewers and however the
    bytes were chunked; each chunk that arrives adds its own byte length,
    whatever it decodes to (the three bytes of U+20AC count three and decode
    to one code unit).  The first viewer leaves its loop at a chunk that
    does not fit: its counter is the byte length of the chunks it has read,
    that one included, and the stream finishes when all chunks fit. *)
Theorem C6_totalBytes_is_raw_length (engine : Engine)
    (source : LiveViewer.LogSource) (size : option Z)
    (cs : list (list byte)) :
  let capped := CappedViewer.view
    (CappedViewer.run engine CappedViewer.streaming
                      (map ReadChunk cs ++ [ReadDone])) in
  LiveViewer.totalBytes (LiveViewer.view
    (LiveViewer.run (LiveViewer.streaming source size)
                    (map ReadChunk cs ++ [ReadDone])))
  = byteLength (concat cs)
  /\ CappedViewer.totalBytes capped = byteLength (concat (consumed engine cs))
  /\ (CappedViewer.status capped = "Stream finished." ->
      CappedViewer.totalBytes capped = byteLength (concat cs))
  /\ (CappedViewer.status capped = "Stream finished."
      <-> forallb (fits engine) cs = true)
  /\ (forall v t value,
        LiveViewer.totalBytes (LiveViewer.view
          (LiveViewer.read_step (LiveViewer.MkSession v (Some t))
                                (ReadChunk value)))
        = (LiveViewer.totalBytes v + byteLength value)%Z)
  /\ (forall v t value,
        CappedViewer.totalBytes (CappedViewer.view
          (CappedViewer.read_step engine (CappedViewer.MkSession v (Some t))
                                  (ReadChunk value)))
        = (CappedViewer.totalBytes v + byteLength value)%Z)
  /\ byteLength [xe2; x82; xac] = 3%Z
  /\ (decode new_TextDecoder [xe2; x82; xac] true).2 = [0x20AC%Z].
Proof.
  cbv zeta.
  assert (Hcapped :
    CappedViewer.totalBytes (CappedViewer.view
      (CappedViewer.run engine CappedViewer.streaming
                        (map ReadChunk cs ++ [ReadDone])))
    = byteLength (concat (consumed engine cs))
    /\ (CappedViewer.status (CappedViewer.view
          (CappedViewer.run engine CappedViewer.streaming
                            (map ReadChunk cs ++ [ReadDone])))
        = "Stream finished."
        <-> forallb (fits engine) cs = true)
    /\ (forallb (fits engine) cs = true -> consumed engine cs = cs)).
  { destruct (chunks_fit_or_not engine cs)
      as [[Hfit Hall]|(pre & c & post & -> & Hpre & Hc & Hnot & Hcons)].
    - rewrite capped_finished, Hall by done. by split_and!.
    - rewrite capped_overflowed_among, Hcons, Hnot by done.
      by split_and!. }
  destruct Hcapped as (Htotal & Hstatus & Hall).
  split_and!.
  - by rewrite live_finished.
  - done.
  - intros Hfit%Hstatus. by rewrite Htotal, Hall.
  - done.
  - intros v t value. unfold LiveViewer.read_step.
    cbn [LiveViewer.task LiveViewer.view].
    destruct (decode _ _ _) as [dec chunk].
    destruct (take_lines _ _) as [lines buf].
    by destruct (0 <? _)%nat.
  - intros v t value. unfold CappedViewer.read_step.
    cbn [CappedViewer.task CappedViewer.view].
    destruct (decode _ _ _) as [dec chunk].
    destruct (take_lines _ _) as [lines buf].
    destruct (0 <? _)%nat; [|done].
    destruct (CappedViewer.push_spread _ _ _) as [err|all1]; [|done].
    unfold CappedViewer.on_reject. by destruct (String.eqb _ _).
  - done.
  - by vm_compute.
Qed.

(** Two chunks, cut inside the three bytes of U+20AC: five bytes, two code
    units. *)
Lemma C6_totalBytes_is_raw_length_witness :
  let cs := [[xe2; x82]; [xac] ++ ln "a"] in
  CappedViewer.totalBytes (CappedViewer.view
    (CappedViewer.run JavaScriptCore CappedViewer.streaming
                      (map ReadChunk cs ++ [ReadDone])))
  = byteLength (concat cs).
Proof.
  pose proof (C6_totalBytes_is_raw_length JavaScriptCore (LiveViewer.Local 5)
                (Some 5%Z) [[xe2; x82]; [xac] ++ ln "a"]) as H.
  cbv zeta in H. destruct H as (_ & _ & H & _).
  apply H. by vm_compute.
Defined.

(** The streaming loops hold a fragment back.  After any sequence of chunks
    (so after every prefix of a chunk sequence) the lines held by the loop
    are exactly the lines that a terminator has closed: the text decoded so
    far is those lines, each with its terminator, followed by the buffer,
    and the buffer is not among them.  The buffer becomes a line only at end
    of stream, and only if it is not empty.  In the first viewer the same
    holds of [allLines], up to the lines the cap has dropped, as long as the
    chunks fit, and nothing reaches [logLines] while chunks are read. *)
Lemma stream_fragment_committed_only_at_end (engine : Engine)
    (source : LiveViewer.LogSource) (size : option Z)
    (cs : list (list byte)) :
  let T := stream_text (concat cs) in
  let live := LiveViewer.run (LiveViewer.streaming source size)
                             (map ReadChunk cs) in
  let capped := CappedViewer.run engine CappedViewer.streaming
                                 (map ReadChunk cs) in
  (exists t,
     LiveViewer.task live = Some t
     /\ T = terminated (LiveViewer.logLines (LiveViewer.view live))
            ++ LiveViewer.buffer t
     /\ Forall (fun l => LF ∉ l) (LiveViewer.logLines (LiveViewer.view live))
     /\ (LF ∉ LiveViewer.buffer t)
     /\ LiveViewer.logLines (LiveViewer.view
          (LiveViewer.read_step live ReadDone))
        = LiveViewer.logLines (LiveViewer.view live)
          ++ (if truthy (LiveViewer.buffer t) then [LiveViewer.buffer t]
              else []))
  /\ CappedViewer.logLines (CappedViewer.view capped) = []
  /\ (forallb (fits engine) cs = true ->
      exists t dropped,
        CappedViewer.task capped = Some t
        /\ T = terminated (dropped ++ CappedViewer.allLines t)
               ++ CappedViewer.buffer t
        /\ Forall (fun l => LF ∉ l) (dropped ++ CappedViewer.allLines t)
        /\ (LF ∉ CappedViewer.buffer t)
        /\ CappedViewer.logLines (CappedViewer.view
             (CappedViewer.read_step engine capped ReadDone))
           = last_n CappedViewer.MAX_DISPLAY_LINES
               (CappedViewer.allLines t
                ++ (if truthy (CappedViewer.buffer t)
                    then [CappedViewer.buffer t] else []))).
Proof.
  cbv zeta. split_and!.
  - pose proof (live_run_chunks _ [] _ cs (live_reading_start source size))
      as Hr.
    rewrite (live_done _ _ _ Hr).
    destruct Hr as (td & _ & _ & ->). simpl.
    eexists. split_and!; try done.
    + by rewrite terminated_fragment.
    + apply complete_lines_no_LF.
    + apply fragment_no_LF.
  - destruct (chunks_fit_or_not engine cs)
      as [[Hfit _]|(pre & c & post & -> & Hpre & Hc & _ & _)].
    + by destruct (capped_after_chunks engine cs Hfit) as [td ->].
    + rewrite <- (app_nil_r (map ReadChunk _)).
      rewrite capped_overflowed_among by done.
      unfold CappedViewer.on_reject. by destruct (String.eqb _ _).
  - intros Hfit.
    pose proof (capped_run_chunks engine [] _ cs capped_reading_start Hfit)
      as Hr.
    rewrite (capped_done engine _ _ Hr).
    destruct Hr as (td & _ & _ & ->). simpl.
    set (T := stream_text (concat cs)).
    exists (CappedViewer.MkTask td (fragment T)
              (last_n CappedViewer.MAX_DISPLAY_LINES (complete_lines T))),
           (take (length (complete_lines T) - CappedViewer.MAX_DISPLAY_LINES)
                 (complete_lines T)).
    cbn [CappedViewer.allLines CappedViewer.buffer].
    assert (Hsplit :
      take (length (complete_lines T) - CappedViewer.MAX_DISPLAY_LINES)
           (complete_lines T)
      ++ last_n CappedViewer.MAX_DISPLAY_LINES (complete_lines T)
      = complete_lines T) by apply take_drop.
    rewrite Hsplit. split_and!; try done.
    + by rewrite terminated_fragment.
    + apply complete_lines_no_LF.
    + apply fragment_no_LF.
    + unfold all_lines. by rewrite last_n_app_last_n.
Qed.

(** The cap of the first viewer, for chunks that fit: after every chunk
    [allLines] is the last [MAX_DISPLAY_LINES] = 5000 of the lines completed
    so far (which are the lines the uncapped live viewer holds at that
    point), so it has min(lines so far, 5000) elements and the ones missing
    are the oldest; at end of stream [logLines] is the last 5000 of all
    lines. *)
Lemma capped_store_keeps_last_5000 (engine : Engine)
    (source : LiveViewer.LogSource) (size : option Z)
    (cs : list (list byte)) :
  forallb (fits engine) cs = true ->
  let produced := LiveViewer.logLines (LiveViewer.view
    (LiveViewer.run (LiveViewer.streaming source size) (map ReadChunk cs))) in
  let produced_at_end := LiveViewer.logLines (LiveViewer.view
    (LiveViewer.run (LiveViewer.streaming source size)
                    (map ReadChunk cs ++ [ReadDone]))) in
  let capped := CappedViewer.run engine CappedViewer.streaming
                                 (map ReadChunk cs) in
  let stored_at_end := CappedViewer.logLines (CappedViewer.view
    (CappedViewer.run engine CappedViewer.streaming
                      (map ReadChunk cs ++ [ReadDone]))) in
  CappedViewer.MAX_DISPLAY_LINES = 5000
  /\ (exists t,
        CappedViewer.task capped = Some t
        /\ CappedViewer.allLines t
           = drop (length produced - 5000) produced
        /\ length (CappedViewer.allLines t) = min (length produced) 5000)
  /\ stored_at_end = drop (length produced_at_end - 5000) produced_at_end
  /\ length stored_at_end = min (length produced_at_end) 5000.
Proof.
  intros Hfit. cbv zeta. split; [done|].
  rewrite live_finished, capped_finished by done.
  pose proof (live_run_chunks _ [] _ cs (live_reading_start source size))
    as (td1 & _ & _ & ->).
  pose proof (capped_run_chunks engine [] _ cs capped_reading_start Hfit)
    as (td2 & _ & _ & ->).
  cbn [LiveViewer.view LiveViewer.logLines CappedViewer.view
       CappedViewer.logLines CappedViewer.task app LiveViewer.setLogLines
       LiveViewer.setTotalBytes LiveViewer.streaming LiveViewer.setStatus
       LiveViewer.setFileSize LiveViewer.reset].
  split_and!.
  - eexists. split; [done|]. cbn [CappedViewer.allLines].
    split; [done|]. apply length_last_n.
  - done.
  - apply length_last_n.
Qed.

Lemma newlines_repeat (n : nat) : newlines (repeat x0a n) = n.
Proof.
  unfold newlines. induction n as [|n IH]; [done|].
  cbn [repeat]. rewrite filter_cons, decide_True by done.
  cbn [length]. by rewrite IH.
Qed.

(** C9, where the code misses the claim.  A chunk that completes more lines
    than a call takes arguments makes [allLines.push(...lines)] throw: the
    first viewer ends in 'Error occurred.' with the engine's message and an
    empty [logLines], whatever it had stored and whatever the reader still
    has, where the claim has the last 5000 of the lines produced so far.
    The live viewer, which appends with [[...prev, ...lines]], holds every
    line of the same chunk. *)
Theorem C9_large_chunk_loses_every_line (engine : Engine)
    (source : LiveViewer.LogSource) (size : option Z)
    (before : list (list byte)) (rest : list ReadResult) :
  forallb (fits engine) before = true ->
  let chunk := repeat x0a (S (max_arguments engine)) in
  let capped := CappedViewer.run engine CappedViewer.streaming
                  (map ReadChunk before ++ ReadChunk chunk :: rest) in
  let produced := LiveViewer.logLines (LiveViewer.view
    (LiveViewer.run (LiveViewer.streaming source size)
                    (map ReadChunk (before ++ [chunk])))) in
  length produced
  = length (complete_lines (stream_text (concat before)))
    + S (max_arguments engine)
  /\ CappedViewer.logLines (CappedViewer.view capped) = []
  /\ CappedViewer.logLines (CappedViewer.view capped)
     <> drop (length produced - 5000) produced
  /\ CappedViewer.status (CappedViewer.view capped) = "Error occurred."
  /\ CappedViewer.error (CappedViewer.view capped)
     = Some ("Failed to stream file. This is likely a CORS issue, a network problem, or the file may not exist. Please check the browser console for details. Error: "
             ++ range_message engine)%string
  /\ CappedViewer.task capped = None.
Proof.
  intros Hfit. cbv zeta.
  assert (Hc : fits engine (repeat x0a (S (max_arguments engine))) = false).
  { unfold fits. rewrite newlines_repeat. apply Nat.leb_gt. lia. }
  rewrite capped_overflowed by done.
  pose proof (live_run_chunks _ [] _ (before ++ [repeat x0a (S (max_arguments engine))])
                (live_reading_start source size)) as (td & _ & _ & ->).
  cbn [LiveViewer.view LiveViewer.logLines app LiveViewer.setLogLines
       LiveViewer.setTotalBytes LiveViewer.streaming LiveViewer.setStatus
       LiveViewer.setFileSize LiveViewer.reset CappedViewer.view
       CappedViewer.task].
  assert (Hlen :
    length (complete_lines
              (stream_text
                 (concat (before ++ [repeat x0a (S (max_arguments engine))]))))
    = length (complete_lines (stream_text (concat before)))
      + S (max_arguments engine)).
  { rewrite !complete_lines_count. unfold stream_text.
    destruct (feed_keeps_terminators utf8_initial false
                (concat (before ++ [repeat x0a (S (max_arguments engine))])))
      as [_ ->]; [by left|].
    destruct (feed_keeps_terminators utf8_initial false (concat before))
      as [_ ->]; [by left|].
    rewrite concat_app, filter_app, length_app. simpl. rewrite app_nil_r.
    f_equal. apply (newlines_repeat (S (max_arguments engine))). }
  split_and!; try done.
  intros Heq. symmetry in Heq. apply (f_equal length) in Heq.
  rewrite length_drop, Hlen in Heq. simpl in Heq. lia.
Qed.

(** In JavaScriptCore: one chunk of 65537 line terminators, then the end of
    the stream. *)
Lemma C9_large_chunk_loses_every_line_witness :
  let capped := CappedViewer.view
    (CappedViewer.run JavaScriptCore CappedViewer.streaming
       [ReadChunk (repeat x0a (S (2 ^ 16))); ReadDone]) in
  CappedViewer.logLines capped = []
  /\ CappedViewer.status capped = "Error occurred.".
Proof.
  pose proof (C9_large_chunk_loses_every_line JavaScriptCore
                (LiveViewer.Local 65537) None [] [ReadDone] eq_refl) as H.
  cbv zeta in H. destruct H as (_ & H1 & _ & H2 & _).
  split; [exact H1|exact H2].
Defined.

(** The same bytes in two chunks that fit: the first viewer finishes.  What
    it ends with depends on how the reader cuts the bytes. *)
Lemma capped_chunking_matters (engine : Engine) :
  1 <= max_arguments engine ->
  let n := max_arguments engine in
  let capped := fun cs =>
    CappedViewer.view
      (CappedViewer.run engine CappedViewer.streaming
                        (map ReadChunk cs ++ [ReadDone])) in
  concat [repeat x0a n; [x0a]] = concat [repeat x0a (S n)]
  /\ CappedViewer.status (capped [repeat x0a (S n)]) = "Error occurred."
  /\ CappedViewer.logLines (capped [repeat x0a (S n)]) = []
  /\ CappedViewer.status (capped [repeat x0a n; [x0a]]) = "Stream finished.".
Proof.
  intros Hn. cbv zeta.
  assert (Hc : fits engine (repeat x0a (S (max_arguments engine))) = false).
  { unfold fits. rewrite newlines_repeat. apply Nat.leb_gt. lia. }
  pose proof (capped_overflowed engine [] _ [ReadDone] eq_refl Hc) as Hone.
  split_and!.
  - simpl. by rewrite !app_nil_r, <- repeat_cons.
  - change (map ReadChunk [repeat x0a (S (max_arguments engine))]
            ++ [ReadDone])
      with (map ReadChunk []
            ++ ReadChunk (repeat x0a (S (max_arguments engine)))
               :: [ReadDone]).
    by rewrite Hone.
  - change (map ReadChunk [repeat x0a (S (max_arguments engine))]
            ++ [ReadDone])
      with (map ReadChunk []
            ++ ReadChunk (repeat x0a (S (max_arguments engine)))
               :: [ReadDone]).
    by rewrite Hone.
  - rewrite capped_finished; [done|].
    cbn [forallb]. unfold fits at 1. rewrite newlines_repeat, Nat.leb_refl.
    unfold fits. change (newlines [x0a]) with 1.
    rewrite andb_true_r. by apply Nat.leb_le.
Qed.

(** ** Cancellation (C4) *)

(** C4, where the claim fails: in the first viewer the lines read so far
    live in the local [allLines], and [setLogLines] is only called at end
    of stream.  After three lines have been appended to [allLines], a
    cancellation ends in 'Stream cancelled.' with an empty [logLines]. *)
Lemma C4_capped_viewer_counterexample :
  let chunk := ReadChunk (ln "a" ++ ln "b" ++ ln "c") in
  let before := CappedViewer.run JavaScriptCore CappedViewer.streaming
                                 [chunk] in
  let after := CappedViewer.run JavaScriptCore CappedViewer.streaming
                 (chunk :: CappedViewer.handleCancelStream [ReadDone]) in
  CappedViewer.allLines <$> CappedViewer.task before
  = Some [text "a"; text "b"; text "c"]
  /\ CappedViewer.status (CappedViewer.view after) = "Stream cancelled."
  /\ CappedViewer.logLines (CappedViewer.view after) = []
  /\ CappedViewer.task after = None.
Proof. by vm_compute. Qed.

(** C4, as amended.  In the live viewer on a remote source a cancellation
    after any chunks leaves 'Stream cancelled.', no error, and exactly the
    lines that had been appended to [logLines] (three in the scenario),
    whatever the reader would have delivered afterwards.  On a local file
    the cancellation does not reach the reader, which goes on as if nothing
    had happened.  In the first viewer a cancellation leaves an empty
    [logLines], and 'Stream cancelled.' when the chunks before it fit. *)
Theorem C4_cancel_keeps_published_lines (engine : Engine)
    (source : LiveViewer.LogSource) (size : option Z)
    (cs : list (list byte)) (pending : list ReadResult) :
  let before := LiveViewer.run (LiveViewer.streaming source size)
                               (map ReadChunk cs) in
  let after :=
    LiveViewer.run (LiveViewer.streaming source size)
      (map ReadChunk cs ++ LiveViewer.handleCancelStream source pending) in
  let capped_after :=
    CappedViewer.run engine CappedViewer.streaming
      (map ReadChunk cs ++ CappedViewer.handleCancelStream pending) in
  (LiveViewer.is_remote source = true ->
   LiveViewer.status (LiveViewer.view after) = "Stream cancelled."
   /\ LiveViewer.logLines (LiveViewer.view after)
      = LiveViewer.logLines (LiveViewer.view before)
   /\ LiveViewer.logLines (LiveViewer.view after)
      = complete_lines (stream_text (concat cs))
   /\ LiveViewer.error (LiveViewer.view after) = None
   /\ LiveViewer.task after = None)
  /\ (LiveViewer.is_remote source = false ->
      after = LiveViewer.run before pending)
  /\ (CappedViewer.logLines (CappedViewer.view capped_after) = []
      /\ CappedViewer.task capped_after = None)
  /\ (forallb (fits engine) cs = true ->
      CappedViewer.status (CappedViewer.view capped_after)
      = "Stream cancelled.")
  /\ (let scenario :=
        LiveViewer.run
          (LiveViewer.streaming (LiveViewer.Remote "http://logs" "app.log")
                                size)
          ([ReadChunk (ln "a" ++ ln "b"); ReadChunk (ln "c" ++ bytes "d")]
           ++ LiveViewer.handleCancelStream
                (LiveViewer.Remote "http://logs" "app.log") pending) in
      LiveViewer.status (LiveViewer.view scenario) = "Stream cancelled."
      /\ LiveViewer.logLines (LiveViewer.view scenario)
         = [text "a"; text "b"; text "c"]).
Proof.
  cbv zeta. split_and!.
  - intros Hremote. unfold LiveViewer.handleCancelStream. rewrite Hremote.
    rewrite live_run_app.
    pose proof (live_run_chunks _ [] _ cs (live_reading_start source size))
      as (td & _ & _ & ->).
    by destruct source.
  - intros Hlocal. unfold LiveViewer.handleCancelStream. rewrite Hlocal.
    apply live_run_app.
  - unfold CappedViewer.handleCancelStream.
    destruct (chunks_fit_or_not engine cs)
      as [[Hfit _]|(pre & c & post & -> & Hpre & Hc & _ & _)].
    + by rewrite capped_rejected.
    + rewrite capped_overflowed_among by done.
      unfold CappedViewer.on_reject. by destruct (String.eqb _ _).
  - unfold CappedViewer.handleCancelStream.
    destruct (chunks_fit_or_not engine cs)
      as [[Hfit _]|(pre & c & post & -> & Hpre & Hc & _ & _)].
    + by rewrite capped_rejected.
    + by rewrite capped_overflowed_among.
  - intros Hfit. unfold CappedViewer.handleCancelStream.
    by rewrite capped_rejected.
  - done.
  - done.
Qed.

(** Three lines and a fragment from a remote source, then "Cancel". *)
Lemma C4_cancel_keeps_published_lines_witness :
  let source := LiveViewer.Remote "http://logs" "app.log" in
  let cs := [ln "a" ++ ln "b"; ln "c" ++ bytes "d"] in
  LiveViewer.logLines (LiveViewer.view
    (LiveViewer.run (LiveViewer.streaming source None)
       (map ReadChunk cs ++ LiveViewer.handleCancelStream source [ReadDone])))
  = complete_lines (stream_text (concat cs))
  /\ CappedViewer.status (CappedViewer.view
       (CappedViewer.run JavaScriptCore CappedViewer.streaming
          (map ReadChunk cs ++ CappedViewer.handleCancelStream [ReadDone])))
     = "Stream cancelled.".
Proof.
  pose proof (C4_cancel_keeps_published_lines JavaScriptCore
                (LiveViewer.Remote "http://logs" "app.log") None
                [ln "a" ++ ln "b"; ln "c" ++ bytes "d"] [ReadDone]) as H.
  cbv zeta in H. destruct H as (H1 & _ & _ & H2 & _).
  destruct (H1 eq_refl) as (_ & _ & H3 & _).
  split; [exact H3|exact (H2 eq_refl)].
Defined.

(** ** The viewport (C2) *)

Lemma rows_of_pixels (x : Q) : (x / ROW_HEIGHT == x * (1 # 22))%Q.
Proof. reflexivity. Qed.

Lemma Qfloor_nonneg (x : Q) : (0 <= x)%Q -> (0 <= Qfloor x)%Z.
Proof. intros H. apply (Qfloor_resp_le 0 x H). Qed.

Lemma Qceiling_nonneg (x : Q) : (0 <= x)%Q -> (0 <= Qceiling x)%Z.
Proof. intros H. apply (Qceiling_resp_le 0 x H). Qed.

Lemma Qfloor_lt_iff (x : Q) (n : Z) :
  (Qfloor x < n)%Z <-> (x < inject_Z n)%Q.
Proof.
  split; intros H.
  - apply Qlt_le_trans with (inject_Z (Qfloor x + 1)); [apply Qlt_floor|].
    rewrite <- Zle_Qle. lia.
  - rewrite Zlt_Qlt. apply Qle_lt_trans with x; [apply Qfloor_le|done].
Qed.

Lemma startIndex_zero_iff (scrollTop : Q) :
  startIndex scrollTop = 0%Z <-> (scrollTop < 242)%Q.
Proof.
  unfold startIndex.
  assert (Hiff : (Qfloor (scrollTop / ROW_HEIGHT) < 11)%Z
                 <-> (scrollTop < 242)%Q).
  { rewrite Qfloor_lt_iff, rows_of_pixels.
    change (inject_Z 11) with 11%Q. split; intros; lra. }
  rewrite <- Hiff. lia.
Qed.

Lemma endIndex_no_rows (scrollTop containerHeight : Q) :
  (0 <= scrollTop)%Q -> (0 <= containerHeight)%Q ->
  endIndex scrollTop containerHeight 0 = 0%Z.
Proof.
  intros Hs Hh. unfold endIndex.
  assert (0 <= Qceiling ((scrollTop + containerHeight) / ROW_HEIGHT))%Z.
  { apply Qceiling_nonneg. rewrite rows_of_pixels. lra. }
  lia.
Qed.

(** C2, where the claim fails: [startIndex] is not clamped to the number of
    rows.  With no rows and the scroll offset still at 2200, the range is
    [90, 0): no row is selected, but start and end differ. *)
Lemma C2_empty_range_counterexample :
  startIndex 2200 = 90%Z
  /\ endIndex 2200 440 0 = 0%Z
  /\ startIndex 2200 <> endIndex 2200 440 0.
Proof. by vm_compute. Qed.

(** C2, as amended: the viewers compute the projection of the specification
    with a row height of 22 and a margin of 10; the example gives 90 and
    130; and with no rows, for a non-negative scroll offset and container
    height, the end index is 0 and the start index is at least that, so no
    row is selected, with start = end exactly when the scroll offset is
    below 242 pixels (eleven rows). *)
Theorem C2_viewport_projection (scrollTop containerHeight : Q)
    (totalRows : Z) :
  (startIndex scrollTop, endIndex scrollTop containerHeight totalRows)
  = spec_project scrollTop containerHeight 22 totalRows 10
  /\ (startIndex 2200 = 90%Z /\ endIndex 2200 440 1000 = 130%Z)
  /\ ((0 <= scrollTop)%Q -> (0 <= containerHeight)%Q ->
      endIndex scrollTop containerHeight 0 = 0%Z
      /\ (endIndex scrollTop containerHeight 0 <= startIndex scrollTop)%Z
      /\ (forall A : Type,
            @visibleLines A [] scrollTop containerHeight = [])
      /\ (startIndex scrollTop = endIndex scrollTop containerHeight 0
          <-> (scrollTop < 242)%Q)).
Proof.
  split_and!; try done.
  intros Hs Hh. rewrite (endIndex_no_rows _ _ Hs Hh). split_and!.
  - done.
  - unfold startIndex. lia.
  - intros A. unfold visibleLines, slice. by rewrite drop_nil, take_nil.
  - apply startIndex_zero_iff.
Qed.

Lemma C2_viewport_projection_witness :
  endIndex 2200 440 0 = 0%Z
  /\ (endIndex 2200 440 0 <= startIndex 2200)%Z
  /\ (forall A : Type, @visibleLines A [] 2200 440 = [])
  /\ (startIndex 2200 = endIndex 2200 440 0 <-> (2200 < 242)%Q).
Proof.
  apply (C2_viewport_projection 2200 440 0); by vm_compute.
Defined.

(** ** The filtered view (C5) *)

Lemma startsWith_spec (s t : jsstring) :
  startsWith s t = true <-> exists after, s = t ++ after.
Proof.
  revert s. induction t as [|d t IH]; intros s.
  - split; [by exists s|]. by destruct s.
  - destruct s as [|c s]; simpl.
    + split; [done|]. by intros [? ?].
    + rewrite andb_true_iff, Z.eqb_eq, IH. split.
      * intros [-> [after ->]]. by exists after.
      * intros [after [= -> ->]]. split; [done|]. by exists after.
Qed.

Lemma includes_spec (s t : jsstring) :
  includes s t = true <-> exists before after, s = before ++ t ++ after.
Proof.
  induction s as [|c s IH].
  - change (includes [] t) with (startsWith [] t || false).
    rewrite orb_false_r, startsWith_spec. split.
    + intros [after H]. by exists [], after.
    + intros (before & after & H). symmetry in H.
      apply app_eq_nil in H as [-> H]. by exists after.
  - change (includes (c :: s) t)
      with (startsWith (c :: s) t || includes s t).
    rewrite orb_true_iff, startsWith_spec, IH. split.
    + intros [[after H]|(before & after & H)].
      * by exists [], after.
      * exists (c :: before), after. by rewrite H.
    + intros (before & after & H). destruct before as [|b before].
      * left. by exists after.
      * right. injection H as -> ->. by exists before, after.
Qed.

Lemma filteredLines_empty_term (toLowerCase : jsstring -> jsstring)
    (logLines : list jsstring) :
  filteredLines toLowerCase logLines []
  = imap (fun index l => MkItem l index) logLines.
Proof. reflexivity. Qed.

Lemma filteredLines_term (toLowerCase : jsstring -> jsstring)
    (logLines : list jsstring) (c : Z) (term : jsstring) :
  filteredLines toLowerCase logLines (c :: term)
  = filter (fun item =>
              Is_true (includes (toLowerCase (line item))
                                (toLowerCase (c :: term))))
           (imap (fun index l => MkItem l index) logLines).
Proof. reflexivity. Qed.

Lemma filteredLines_sublist (toLowerCase : jsstring -> jsstring)
    (logLines : list jsstring) (term : jsstring) :
  filteredLines toLowerCase logLines term
  `sublist_of` imap (fun index l => MkItem l index) logLines.
Proof.
  destruct term as [|c term]; [done|].
  rewrite filteredLines_term. apply sublist_filter.
Qed.

Lemma lines_of_items (k : nat) (logLines : list jsstring) :
  line <$> imap (fun index l => MkItem l (k + index)) logLines = logLines.
Proof.
  revert k. induction logLines as [|l logLines IH]; intros k; [done|].
  simpl. f_equal. rewrite <- (IH (S k)) at 2. f_equal.
  apply imap_ext. intros i x _. simpl. f_equal. lia.
Qed.

Lemma indices_of_items (k : nat) (logLines : list jsstring) :
  originalIndex <$> imap (fun index l => MkItem l (k + index)) logLines
  = seq k (length logLines).
Proof.
  revert k. induction logLines as [|l logLines IH]; intros k; [done|].
  simpl. f_equal; [lia|]. rewrite <- (IH (S k)). f_equal.
  apply imap_ext. intros i x _. simpl. f_equal. lia.
Qed.

Lemma seq_increasing (k n : nat) : StronglySorted lt (seq k n).
Proof.
  revert k. induction n as [|n IH]; intros k; simpl; constructor; [done|].
  apply Forall_forall. intros x Hx%elem_of_seq. lia.
Qed.

Lemma sublist_increasing (l1 l2 : list nat) :
  l1 `sublist_of` l2 -> StronglySorted lt l2 -> StronglySorted lt l1.
Proof.
  intros Hsub. induction Hsub as [|x l1 l2 Hsub IH|x l1 l2 Hsub IH];
    intros Hs; [done| |].
  - apply StronglySorted_inv in Hs as [Hs Hall]. constructor; [by apply IH|].
    apply Forall_forall. intros y Hy.
    rewrite Forall_forall in Hall. apply Hall. by eapply elem_of_sublist.
  - apply StronglySorted_inv in Hs as [Hs _]. by apply IH.
Qed.

Lemma same_letters_map (lower : Z -> Z) (a b : jsstring) :
  Forall2 (same_letter lower) a b <-> map lower a = map lower b.
Proof.
  revert b. induction a as [|x a IH]; intros [|y b]; simpl.
  - split; [done|constructor].
  - split; [inversion 1|done].
  - split; [inversion 1|done].
  - split.
    + inversion 1 as [|? ? ? ? Hxy Hab]; subst. apply IH in Hab.
      unfold same_letter in Hxy. congruence.
    + intros [= Hxy Hab]. constructor; [done|]. by apply IH.
Qed.

(** Where lower-casing goes code unit by code unit, the test of the viewers
    is case-insensitive containment. *)
Lemma includes_lowered (lower : Z -> Z) (l term : jsstring) :
  includes (map lower l) (map lower term) = true <-> contains_ci lower l term.
Proof.
  rewrite includes_spec. split.
  - intros (before & after & H).
    apply fmap_app_inv in H as (l1 & l23 & -> & H & ->).
    symmetry in H. apply fmap_app_inv in H as (l2 & l3 & H2 & -> & ->).
    exists l1, l2, l3. split; [done|]. by apply same_letters_map.
  - intros (before & occurrence & after & -> & H%same_letters_map).
    exists (map lower before), (map lower after).
    by rewrite !map_app, H.
Qed.

(** C5, where the claim fails: the engine does not lower-case a string code
    unit by code unit.  The capital sigma that ends 'ΟΔΟΣ' becomes the final
    small sigma, the term 'Σ' on its own the plain small sigma, so the line
    is not in the view for the term 'Σ' although it contains the term as it
    is written. *)
Lemma C5_final_sigma_counterexample :
  let l := [0x39F; 0x394; 0x39F; 0x3A3]%Z in
  let term := [0x3A3]%Z in
  greek_toLowerCase l = [0x3BF; 0x3B4; 0x3BF; 0x3C2]%Z
  /\ greek_toLowerCase term = [0x3C3]%Z
  /\ includes l term = true
  /\ contains_ci greek_lower l term
  /\ filteredLines greek_toLowerCase [l] term = [].
Proof.
  cbv zeta. split_and!; try by vm_compute.
  exists [0x39F; 0x394; 0x39F]%Z, [0x3A3]%Z, []. split; [done|].
  by repeat constructor.
Qed.

(** C5, as amended: with the empty term the view is every line with its
    index, in order; with a non-empty term an item is in the view exactly
    when it is a line of the store at its index and the lower-cased line
    contains the lower-cased term, which is case-insensitive containment
    (the term occurs in the line up to the case of each code unit) when
    lower-casing changes the term and the lines code unit by code unit; and
    for every term the view is a subsequence of the indexed store: its lines
    are a subsequence of the store and its indices increase. *)
Theorem C5_filter_exact_and_ordered (toLowerCase : jsstring -> jsstring)
    (lower : Z -> Z) (logLines : list jsstring) (c : Z) (rest : jsstring) :
  let indexed := imap (fun index l => MkItem l index) logLines in
  filteredLines toLowerCase logLines [] = indexed
  /\ (forall i, indexed !! i = (fun l => MkItem l i) <$> logLines !! i)
  /\ (forall item,
        item ∈ filteredLines toLowerCase logLines (c :: rest)
        <-> logLines !! originalIndex item = Some (line item)
            /\ includes (toLowerCase (line item)) (toLowerCase (c :: rest))
               = true)
  /\ (toLowerCase (c :: rest) = map lower (c :: rest) ->
      Forall (fun l => toLowerCase l = map lower l) logLines ->
      forall item,
        item ∈ filteredLines toLowerCase logLines (c :: rest)
        <-> logLines !! originalIndex item = Some (line item)
            /\ contains_ci lower (line item) (c :: rest))
  /\ (forall term,
        filteredLines toLowerCase logLines term `sublist_of` indexed
        /\ line <$> filteredLines toLowerCase logLines term
           `sublist_of` logLines
        /\ StronglySorted lt
             (originalIndex <$> filteredLines toLowerCase logLines term)).
Proof.
  cbv zeta.
  assert (Hin : forall item,
    item ∈ filteredLines toLowerCase logLines (c :: rest)
    <-> logLines !! originalIndex item = Some (line item)
        /\ includes (toLowerCase (line item)) (toLowerCase (c :: rest))
           = true).
  { intros [l i]. rewrite filteredLines_term, list_elem_of_filter.
    rewrite Is_true_true, elem_of_lookup_imap. simpl. split.
    - intros [Hin (j & y & [= -> ->] & Hy)]. done.
    - intros [Hl Hin]. split; [done|]. by exists i, l. }
  split_and!.
  - done.
  - intros i. apply list_lookup_imap.
  - done.
  - intros Hterm Hlines item. rewrite Hin. split.
    + intros [Hl Hinc]. split; [done|].
      rewrite Forall_forall in Hlines.
      rewrite Hterm, (Hlines (line item)) in Hinc
        by (by eapply list_elem_of_lookup_2).
      by apply includes_lowered.
    + intros [Hl Hci]. split; [done|].
      rewrite Forall_forall in Hlines.
      rewrite Hterm, (Hlines (line item))
        by (by eapply list_elem_of_lookup_2).
      by apply includes_lowered.
  - intros term. pose proof (filteredLines_sublist toLowerCase logLines term)
      as Hsub. split_and!.
    + done.
    + rewrite <- (lines_of_items 0 logLines) at 2. by apply fmap_sublist.
    + eapply sublist_increasing; [by apply fmap_sublist|].
      rewrite (indices_of_items 0). apply seq_increasing.
Qed.

(** Three lines of ASCII text and the term "Err". *)
Lemma C5_filter_exact_and_ordered_witness :
  let logLines := [text "ERR foo"; text "OK bar"; text "an error"] in
  MkItem (text "an error") 2
  ∈ filteredLines ascii_toLowerCase logLines (text "Err").
Proof.
  pose proof (C5_filter_exact_and_ordered ascii_toLowerCase ascii_lower
                [text "ERR foo"; text "OK bar"; text "an error"]
                69%Z (text "rr")) as H.
  cbv zeta in H. destruct H as (_ & _ & _ & H & _).
  apply (H eq_refl ltac:(by repeat constructor)
           (MkItem (text "an error") 2)).
  split; [done|].
  exists (text "an "), (text "err"), (text "or"). split; [done|].
  by repeat constructor.
Defined.

(** ** Tailing (C3, C7, C8, C10) *)

Lemma trimStart_nil_iff (s : jsstring) :
  trimStart s = [] <-> Forall (fun c => is_white_space c = true) s.
Proof.
  induction s as [|c s IH]; [done|]. simpl.
  destruct (is_white_space c) eqn:E.
  - rewrite IH. split; [by constructor|]. by inversion 1.
  - split; [done|]. inversion 1; congruence.
Qed.

Lemma trimStart_all_white (s : jsstring) :
  Forall (fun c => is_white_space c = true) (trimStart s)
  <-> Forall (fun c => is_white_space c = true) s.
Proof.
  induction s as [|c s IH]; [done|]. simpl.
  destruct (is_white_space c) eqn:E; [|done].
  rewrite IH. split; [by constructor|]. by inversion 1.
Qed.

Lemma Forall_rev_iff {A} (P : A -> Prop) (l : list A) :
  Forall P (rev l) <-> Forall P l.
Proof.
  split; intros H.
  - rewrite <- (rev_involutive l). by apply Forall_rev.
  - by apply Forall_rev.
Qed.

Lemma trim_nil_iff (s : jsstring) :
  trim s = [] <-> Forall (fun c => is_white_space c = true) s.
Proof.
  unfold trim, trimEnd.
  rewrite <- trimStart_all_white, <- (Forall_rev_iff _ (trimStart s)).
  rewrite <- trimStart_nil_iff. split.
  - intros H. apply (f_equal (@rev Z)) in H. by rewrite rev_involutive in H.
  - by intros ->.
Qed.

(** [l.trim() !== ''] holds exactly of the lines with a character that is
    not white space. *)
Lemma trim_keeps_iff (l : jsstring) : trim l <> [] <-> has_visible_char l.
Proof.
  rewrite trim_nil_iff. unfold has_visible_char.
  induction l as [|c l IH].
  - split; [intros H; by destruct H|by inversion 1].
  - rewrite Forall_cons, Exists_cons, <- IH.
    destruct (is_white_space c); split.
    + intros H. right. intros HF. by apply H.
    + intros [H|H] [_ HF]; [discriminate|by apply H].
    + intros _. by left.
    + intros _ [H _]. discriminate.
Qed.

Lemma tail_failed_spec (v : LiveViewer.View) :
  LiveViewer.tail_failed v
  = LiveViewer.MkView (LiveViewer.logLines v) (LiveViewer.totalBytes v)
      (LiveViewer.fileSize v) (LiveViewer.error v) "Live (Error)" false
      (LiveViewer.isLivePaused v).
Proof. reflexivity. Qed.

(** What a poll that delivers a readable body does, for the statuses that
    [tailLogFile] accepts. *)
Lemma tail_poll_body (baseUrl fileName : string) (v : LiveViewer.View)
    (http_status : Z) (content : list byte) :
  http_status = 200%Z \/ http_status = 206%Z ->
  let v' := LiveViewer.tailLogFile (LiveViewer.Remote baseUrl fileName) false
              v (LiveViewer.Response http_status (inr content)) in
  LiveViewer.logLines v'
  = LiveViewer.logLines v
    ++ filter (fun l => trim l <> []) (split_nl (poll_text content))
  /\ LiveViewer.totalBytes v'
     = (LiveViewer.totalBytes v + byteLength content)%Z.
Proof.
  intros Hst. cbv zeta. unfold LiveViewer.tailLogFile, poll_text.
  cbn [LiveViewer.is_remote negb orb].
  assert ((http_status =? 416)%Z = false) as -> by (apply Z.eqb_neq; lia).
  assert ((negb (http_status =? 206) && negb (http_status =? 200))%Z = false)
    as ->.
  { destruct Hst as [-> | ->]; done. }
  destruct (Z.ltb_spec 0 (byteLength content)) as [Hpos|Hzero].
  - destruct (decode new_TextDecoder content false) as [td chunk].
    cbn [snd]. destruct (0 <? _)%nat eqn:E.
    + by destruct (LiveViewer.isLivePaused v).
    + apply length_pos_nil in E. rewrite E, app_nil_r.
      by destruct (LiveViewer.isLivePaused v).
  - assert (content = []) as ->.
    { destruct content; [done|]. unfold byteLength in Hzero.
      simpl length in Hzero. lia. }
    split.
    + rewrite app_nil_r. by destruct (LiveViewer.isLivePaused v).
    + unfold byteLength. simpl. rewrite Z.add_0_r.
      by destruct (LiveViewer.isLivePaused v).
Qed.

Lemma kept_lines_visible (segments : list jsstring) :
  Forall has_visible_char (filter (fun l => trim l <> []) segments).
Proof.
  apply Forall_forall. intros l [Hl _]%list_elem_of_filter.
  by apply trim_keeps_iff.
Qed.

Lemma tail_poll_appends (source : LiveViewer.LogSource) (hidden : bool)
    (v : LiveViewer.View) (r : LiveViewer.PollResult) :
  exists newLines,
    LiveViewer.logLines (LiveViewer.tailLogFile source hidden v r)
    = LiveViewer.logLines v ++ newLines
    /\ Forall has_visible_char newLines.
Proof.
  unfold LiveViewer.tailLogFile.
  destruct (negb (LiveViewer.is_remote source) || hidden).
  { exists []. by rewrite app_nil_r. }
  set (v1 := if negb (LiveViewer.isLivePaused v) then _ else v).
  assert (Hv1 : LiveViewer.logLines v1 = LiveViewer.logLines v).
  { subst v1. by destruct (negb _). }
  destruct r as [err|st [err|content]].
  - exists []. by rewrite app_nil_r.
  - exists []. rewrite app_nil_r.
    destruct (st =? 416)%Z; [done|]. by destruct (negb _ && negb _).
  - destruct (st =? 416)%Z; [exists []; by rewrite app_nil_r|].
    destruct (negb _ && negb _); [exists []; by rewrite app_nil_r|].
    destruct (0 <? byteLength content)%Z; [|exists []; by rewrite app_nil_r].
    destruct (decode new_TextDecoder content false) as [td chunk].
    destruct (0 <? _)%nat.
    + eexists. split; [|apply kept_lines_visible].
      simpl. by rewrite Hv1.
    + exists []. by rewrite app_nil_r.
Qed.

(** C10: whatever a poll returns, what it appends to [logLines] are lines
    with a character that is not white space.  For a body delivered with
    status 206 or 200 the appended lines are the segments of the body's text
    that [trim] does not empty, and [totalBytes] grows by the full length of
    the body: of the 8 bytes "a\n\n  \nb\n" two lines are kept. *)
Theorem C10_tail_keeps_only_visible_lines (source : LiveViewer.LogSource)
    (hidden : bool) (v : LiveViewer.View) (r : LiveViewer.PollResult) :
  (exists newLines,
     LiveViewer.logLines (LiveViewer.tailLogFile source hidden v r)
     = LiveViewer.logLines v ++ newLines
     /\ Forall has_visible_char newLines)
  /\ (forall l : jsstring, trim l <> [] <-> has_visible_char l)
  /\ (forall baseUrl fileName content,
        Forall (fun st =>
          let v' := LiveViewer.tailLogFile
                      (LiveViewer.Remote baseUrl fileName) false v
                      (LiveViewer.Response st (inr content)) in
          LiveViewer.logLines v'
          = LiveViewer.logLines v
            ++ filter (fun l => trim l <> []) (split_nl (poll_text content))
          /\ LiveViewer.totalBytes v'
             = (LiveViewer.totalBytes v + byteLength content)%Z)
          [206%Z; 200%Z])
  /\ (let content := ln "a" ++ ln "" ++ ln "  " ++ ln "b" in
      byteLength content = 8%Z
      /\ split_nl (poll_text content)
         = [text "a"; []; text "  "; text "b"; []]
      /\ filter (fun l => trim l <> []) (split_nl (poll_text content))
         = [text "a"; text "b"]).
Proof.
  split_and!.
  - apply tail_poll_appends.
  - apply trim_keeps_iff.
  - intros baseUrl fileName content.
    repeat constructor; apply tail_poll_body; auto.
  - by vm_compute.
Qed.

Lemma tail_poll_416 (source : LiveViewer.LogSource) (hidden : bool)
    (v : LiveViewer.View) (body : JsError + list byte) :
  let v' := LiveViewer.tailLogFile source hidden v
              (LiveViewer.Response 416 body) in
  LiveViewer.totalBytes v' = LiveViewer.totalBytes v
  /\ LiveViewer.logLines v' = LiveViewer.logLines v.
Proof.
  cbv zeta. unfold LiveViewer.tailLogFile.
  destruct (negb (LiveViewer.is_remote source) || hidden); [done|].
  cbn [Z.eqb Pos.eqb]. by destruct (negb (LiveViewer.isLivePaused v)).
Qed.

Lemma split_two_lines (l1 l2 : jsstring) :
  LF ∉ l1 -> LF ∉ l2 ->
  split_nl (l1 ++ LF :: l2 ++ [LF]) = [l1; l2; []].
Proof.
  intros H1 H2.
  assert (l1 ++ LF :: l2 ++ [LF] = terminated [l1; l2] ++ []) as ->.
  { unfold terminated. simpl. by rewrite !app_nil_r, <- app_assoc. }
  apply split_nl_terminated; [by repeat constructor|apply not_elem_of_nil].
Qed.

(** C3, where the claim fails: the three bytes "\nb\n" are exactly two
    terminated lines, the first of them empty.  The poll advances
    [totalBytes] by 3 but appends one line, not two; the initial stream, fed
    the same bytes, appends both. *)
Lemma C3_blank_line_counterexample :
  let source := LiveViewer.Remote "http://logs" "app.log" in
  let v := LiveViewer.toggleLive (LiveViewer.view
    (LiveViewer.run (LiveViewer.streaming source None)
                    [ReadChunk (ln "x"); ReadDone])) in
  let content := ln "" ++ ln "b" in
  let v' := LiveViewer.tailLogFile source false v
              (LiveViewer.Response 206 (inr content)) in
  LiveViewer.tail_armed source v = true
  /\ poll_text content = [LF] ++ text "b" ++ [LF]
  /\ LiveViewer.totalBytes v' = (LiveViewer.totalBytes v + 3)%Z
  /\ LiveViewer.logLines v = [text "x"]
  /\ LiveViewer.logLines v' = [text "x"; text "b"]
  /\ length (LiveViewer.logLines v') <> length (LiveViewer.logLines v) + 2
  /\ LiveViewer.logLines (LiveViewer.view
       (LiveViewer.run (LiveViewer.streaming source None)
                       [ReadChunk content]))
     = [[]; text "b"].
Proof. by vm_compute. Qed.

(** C3, as amended: a poll answered with 416 leaves [totalBytes] and
    [logLines] as they were.  A poll answered with 206 or 200 whose body
    decodes to exactly two terminated lines advances [totalBytes] by the
    byte length of the body and appends those of the two lines that have a
    character other than white space: both, so two lines, when neither is
    blank.  The body is decoded on its own and split at the terminators;
    blank segments are dropped. *)
Theorem C3_tail_poll (baseUrl fileName : string) (hidden : bool)
    (v : LiveViewer.View) (body : JsError + list byte) (http_status : Z)
    (content : list byte) (l1 l2 : jsstring) :
  http_status = 206%Z \/ http_status = 200%Z ->
  poll_text content = l1 ++ LF :: l2 ++ [LF] ->
  LF ∉ l1 -> LF ∉ l2 ->
  let source := LiveViewer.Remote baseUrl fileName in
  let unchanged := LiveViewer.tailLogFile source hidden v
                     (LiveViewer.Response 416 body) in
  let v' := LiveViewer.tailLogFile source false v
              (LiveViewer.Response http_status (inr content)) in
  (LiveViewer.totalBytes unchanged = LiveViewer.totalBytes v
   /\ LiveViewer.logLines unchanged = LiveViewer.logLines v)
  /\ LiveViewer.totalBytes v'
     = (LiveViewer.totalBytes v + byteLength content)%Z
  /\ LiveViewer.logLines v'
     = LiveViewer.logLines v ++ filter (fun l => trim l <> []) [l1; l2]
  /\ (has_visible_char l1 -> has_visible_char l2 ->
      LiveViewer.logLines v' = LiveViewer.logLines v ++ [l1; l2]
      /\ length (LiveViewer.logLines v')
         = length (LiveViewer.logLines v) + 2).
Proof.
  intros Hst Htext H1 H2. cbv zeta.
  assert (Hst' : http_status = 200%Z \/ http_status = 206%Z) by tauto.
  destruct (tail_poll_body baseUrl fileName v http_status content Hst')
    as [Hlines Hbytes].
  rewrite Htext, (split_two_lines l1 l2 H1 H2) in Hlines.
  assert (Hkeep : filter (fun l => trim l <> []) [l1; l2; []]
                  = filter (fun l => trim l <> []) [l1; l2]).
  { change [l1; l2; []] with ([l1; l2] ++ [[]]).
    rewrite filter_app. change (filter _ [[]]) with (@nil jsstring).
    by rewrite app_nil_r. }
  rewrite Hkeep in Hlines.
  split_and!.
  - apply tail_poll_416.
  - apply tail_poll_416.
  - done.
  - done.
  - intros Hv1%trim_keeps_iff Hv2%trim_keeps_iff.
    rewrite Hlines, !filter_cons, filter_nil.
    rewrite !decide_True by done.
    split; [done|]. rewrite length_app. done.
Qed.

Lemma C3_tail_poll_witness :
  let v := LiveViewer.MkView [text "x"] 2 None None "Stream finished." true
                             false in
  let v' := LiveViewer.tailLogFile (LiveViewer.Remote "http://logs" "app.log")
              false v (LiveViewer.Response 206 (inr (ln "y" ++ ln "z"))) in
  LiveViewer.totalBytes v' = (2 + byteLength (ln "y" ++ ln "z"))%Z
  /\ LiveViewer.logLines v'
     = [text "x"] ++ filter (fun l => trim l <> []) [text "y"; text "z"].
Proof.
  pose proof (C3_tail_poll "http://logs" "app.log" false
           (LiveViewer.MkView [text "x"] 2 None None "Stream finished." true
                              false)
           (inr []) 206 (ln "y" ++ ln "z") (text "y") (text "z")) as H.
  cbv zeta in H.
  destruct H as (_ & Hb & Hl & _).
  - by left.
  - by vm_compute.
  - by intros ?%list_elem_of_singleton.
  - by intros ?%list_elem_of_singleton.
  - split; [exact Hb|exact Hl].
Defined.

Lemma tail_poll_failure (baseUrl fileName : string) (v : LiveViewer.View)
    (r : LiveViewer.PollResult) :
  poll_fails r = true ->
  LiveViewer.tailLogFile (LiveViewer.Remote baseUrl fileName) false v r
  = LiveViewer.MkView (LiveViewer.logLines v) (LiveViewer.totalBytes v)
      (LiveViewer.fileSize v) (LiveViewer.error v) "Live (Error)" false
      (LiveViewer.isLivePaused v).
Proof.
  intros Hr. unfold LiveViewer.tailLogFile.
  cbn [LiveViewer.is_remote negb orb].
  set (v1 := if negb (LiveViewer.isLivePaused v) then _ else v).
  assert (Hv1 : LiveViewer.tail_failed v1
                = LiveViewer.MkView (LiveViewer.logLines v)
                    (LiveViewer.totalBytes v) (LiveViewer.fileSize v)
                    (LiveViewer.error v) "Live (Error)" false
                    (LiveViewer.isLivePaused v)).
  { subst v1. destruct v as [ll tb fs er st il ip]. by destruct ip. }
  destruct r as [err|st [err|content]]; [done| |]; simpl in Hr.
  - destruct (st =? 416)%Z; [done|]. by destruct (negb _ && negb _).
  - destruct (st =? 416)%Z; [done|].
    destruct (negb _ && negb _); [done|discriminate].
Qed.

Lemma ticks_disarmed (source : LiveViewer.LogSource) (v : LiveViewer.View)
    (rs : list (bool * LiveViewer.PollResult)) :
  LiveViewer.tail_armed source v = false -> LiveViewer.ticks source v rs = v.
Proof.
  intros H. induction rs as [|[hidden r] rs IH]; [done|].
  unfold LiveViewer.ticks in *. simpl.
  unfold LiveViewer.tick at 2. by rewrite H.
Qed.

(** C8: a poll that fails turns [isLive] off and sets the status to
    'Live (Error)'; [logLines], [totalBytes] and [error] (which selects the
    error view) are what they were.  With [isLive] off the interval is not
    installed again, so whatever later timer firings would have fetched
    changes nothing; tailing resumes only when the user turns it on
    again. *)
Theorem C8_tail_failure_stops_tailing (baseUrl fileName : string)
    (v : LiveViewer.View) (r : LiveViewer.PollResult)
    (later : list (bool * LiveViewer.PollResult)) :
  poll_fails r = true ->
  let source := LiveViewer.Remote baseUrl fileName in
  let v' := LiveViewer.tailLogFile source false v r in
  LiveViewer.isLive v' = false
  /\ LiveViewer.status v' = "Live (Error)"
  /\ LiveViewer.logLines v' = LiveViewer.logLines v
  /\ LiveViewer.totalBytes v' = LiveViewer.totalBytes v
  /\ LiveViewer.error v' = LiveViewer.error v
  /\ LiveViewer.tail_armed source v' = false
  /\ LiveViewer.ticks source v' later = v'
  /\ LiveViewer.tail_armed source (LiveViewer.toggleLive v') = true.
Proof.
  intros Hr. cbv zeta. rewrite (tail_poll_failure _ _ _ _ Hr).
  split_and!; try done.
  by apply ticks_disarmed.
Qed.

Lemma C8_tail_failure_stops_tailing_witness :
  let source := LiveViewer.Remote "http://logs" "app.log" in
  let v := LiveViewer.MkView [text "x"] 2 None None "Live" true false in
  let v' := LiveViewer.tailLogFile source false v
              (LiveViewer.Response 500 (inr [])) in
  LiveViewer.isLive v' = false
  /\ LiveViewer.logLines v' = [text "x"]
  /\ LiveViewer.ticks source v'
       [(false, LiveViewer.Response 206 (inr (ln "y")))] = v'.
Proof.
  pose proof (C8_tail_failure_stops_tailing "http://logs" "app.log"
    (LiveViewer.MkView [text "x"] 2 None None "Live" true false)
    (LiveViewer.Response 500 (inr []))
    [(false, LiveViewer.Response 206 (inr (ln "y")))] eq_refl) as H.
  cbv zeta in H. destruct H as (H1 & _ & H2 & _ & _ & _ & H3 & _).
  cbv zeta. split_and!; [exact H1|exact H2|exact H3].
Defined.

(** C7, where the code departs from the claim: [tailLogFile] has no buffer.
    While the live viewer tails, a poll whose body ends in the middle of a
    line ("abc", no terminator) appends that fragment to [logLines] at once,
    and the rest of the line, arriving with the next poll ("def\n"), becomes
    a line of its own.  The streaming loop of the same viewer, given the
    same bytes as two chunks, holds "abc" in its buffer and appends the one
    line "abcdef". *)
Theorem C7_tail_poll_commits_fragment :
  let source := LiveViewer.Remote "http://logs" "app.log" in
  let v := LiveViewer.toggleLive (LiveViewer.view
    (LiveViewer.run (LiveViewer.streaming source None)
                    [ReadChunk (ln "x"); ReadDone])) in
  let v1 := LiveViewer.tick source false v
              (LiveViewer.Response 206 (inr (bytes "abc"))) in
  let v2 := LiveViewer.tick source false v1
              (LiveViewer.Response 206 (inr (ln "def"))) in
  let streamed := LiveViewer.run (LiveViewer.streaming source None)
                    [ReadChunk (ln "x"); ReadChunk (bytes "abc")] in
  LiveViewer.tail_armed source v = true
  /\ (LF ∉ poll_text (bytes "abc"))
  /\ LiveViewer.logLines v = [text "x"]
  /\ LiveViewer.logLines v1 = [text "x"; text "abc"]
  /\ LiveViewer.logLines v2 = [text "x"; text "abc"; text "def"]
  /\ LiveViewer.logLines (LiveViewer.view streamed) = [text "x"]
  /\ LiveViewer.buffer <$> LiveViewer.task streamed = Some (text "abc")
  /\ LiveViewer.logLines (LiveViewer.view
       (LiveViewer.read_step streamed (ReadChunk (ln "def"))))
     = [text "x"; text "abcdef"].
Proof.
  cbv zeta. split_and!; try by vm_compute.
  change (poll_text (bytes "abc")) with (text "abc").
  intros H. by repeat (apply elem_of_cons in H as [H|H]; [done|]);
    apply elem_of_nil in H.
Qed.

(** ** Scenarios *)

(** The chunks "2024-01-01 ERR foo\n2024" and "-01-01 OK bar\n" give the
    two lines "2024-01-01 ERR foo" and "2024-01-01 OK bar". *)
Example two_chunks_two_lines :
  LiveViewer.logLines (LiveViewer.view
    (LiveViewer.run
       (LiveViewer.streaming (LiveViewer.Remote "http://logs" "app.log") None)
       [ReadChunk (ln "2024-01-01 ERR foo" ++ bytes "2024");
        ReadChunk (ln "-01-01 OK bar")]))
  = [text "2024-01-01 ERR foo"; text "2024-01-01 OK bar"].
Proof. by vm_compute. Qed.

(** An empty stream has no lines. *)
Example empty_stream_no_lines :
  LiveViewer.logLines (LiveViewer.view
    (LiveViewer.run
       (LiveViewer.streaming (LiveViewer.Remote "http://logs" "app.log") None)
       [ReadDone])) = []
  /\ CappedViewer.logLines (CappedViewer.view
       (CappedViewer.run JavaScriptCore CappedViewer.streaming [ReadDone]))
     = [].
Proof. by vm_compute. Qed.

(** Filtering three lines for "Err", letters lower-cased. *)
Example filter_err :
  filteredLines ascii_toLowerCase
    [text "ERR foo"; text "OK bar"; text "an error"] (text "Err")
  = [MkItem (text "ERR foo") 0; MkItem (text "an error") 2].
Proof. by vm_compute. Qed.

(** Scrolling to within a pixel of the bottom while live ends the pause. *)
Example scroll_to_bottom_resumes :
  let v := LiveViewer.MkView [text "x"] 2 None None "Live" true true in
  LiveViewer.isLivePaused (LiveViewer.handleScroll 2200 1760 (8801 # 20) v).2
  = false
  /\ LiveViewer.isLivePaused (LiveViewer.handleScroll 2200 1000 440 v).2
     = true.
Proof. by vm_compute. Qed.

(** * Further properties of the viewers *)

(** ** How a streaming session ends *)

(** A sequence of read results is chunks only, or chunks up to the first
    result that ends the loop. *)
Lemma read_trace (rs : list ReadResult) :
  (exists cs, rs = map ReadChunk cs)
  \/ (exists cs r rest,
        rs = map ReadChunk cs ++ r :: rest
        /\ (r = ReadDone \/ exists err, r = ReadRejected err)).
Proof.
  induction rs as [|r rs IH].
  - left. by exists [].
  - destruct r as [value| |err].
    + destruct IH as [[cs ->]|(cs & r & rest & -> & Hr)].
      * left. by exists (value :: cs).
      * right. by exists (value :: cs), r, rest.
    + right. exists [], ReadDone, rs. split; [done|by left].
    + right. exists [], (ReadRejected err), rs. split; [done|right; by exists err].
Qed.

Lemma live_after_chunks (source : LiveViewer.LogSource) (size : option Z)
    (cs : list (list byte)) :
  exists td,
    LiveViewer.run (LiveViewer.streaming source size) (map ReadChunk cs)
    = LiveViewer.MkSession
        (LiveViewer.MkView (complete_lines (stream_text (concat cs)))
           (byteLength (concat cs)) size None
           (if LiveViewer.is_remote source then "Streaming log data..."
            else "Streaming local file...")
           false false)
        (Some (LiveViewer.MkTask td (fragment (stream_text (concat cs))))).
Proof.
  pose proof (live_run_chunks _ [] _ cs (live_reading_start source size))
    as (td & _ & _ & H).
  exists td. rewrite H. done.
Qed.

(** The live viewer after chunks and a rejected read. *)
Lemma live_rejected (source : LiveViewer.LogSource) (size : option Z)
    (cs : list (list byte)) (err : JsError) (rest : list ReadResult) :
  LiveViewer.run (LiveViewer.streaming source size)
                 (map ReadChunk cs ++ ReadRejected err :: rest)
  = LiveViewer.MkSession
      (LiveViewer.on_reject err
         (LiveViewer.MkView (complete_lines (stream_text (concat cs)))
            (byteLength (concat cs)) size None
            (if LiveViewer.is_remote source then "Streaming log data..."
             else "Streaming local file...")
            false false))
      None.
Proof.
  rewrite live_run_app.
  destruct (live_after_chunks source size cs) as [td ->].
  simpl. by rewrite live_run_exited.
Qed.

Lemma live_finished_rest (source : LiveViewer.LogSource) (size : option Z)
    (cs : list (list byte)) (rest : list ReadResult) :
  LiveViewer.run (LiveViewer.streaming source size)
                 (map ReadChunk cs ++ ReadDone :: rest)
  = LiveViewer.MkSession
      (LiveViewer.MkView (all_lines (stream_text (concat cs)))
         (byteLength (concat cs)) size None "Stream finished." false false)
      None.
Proof.
  change (ReadDone :: rest) with ([ReadDone] ++ rest).
  rewrite app_assoc, live_run_app, live_finished.
  by rewrite live_run_exited.
Qed.

(** In both viewers [isLoading] holds exactly while the loop is running:
    from the start of the loop, whatever the reader delivers, the spinner
    and the Cancel button are there as long as the loop has not been left,
    and gone once it has (end of stream, cancellation or failure). *)
Theorem loading_exactly_while_reading (engine : Engine)
    (source : LiveViewer.LogSource) (size : option Z)
    (rs : list ReadResult) :
  let live := LiveViewer.run (LiveViewer.streaming source size) rs in
  let capped := CappedViewer.run engine CappedViewer.streaming rs in
  LiveViewer.isLoading (LiveViewer.view live)
  = bool_decide (is_Some (LiveViewer.task live))
  /\ CappedViewer.isLoading (CappedViewer.view capped)
     = bool_decide (is_Some (CappedViewer.task capped)).
Proof.
  cbv zeta.
  destruct (read_trace rs) as [[cs ->]|(cs & r & rest & -> & [->|[err ->]])].
  - destruct (live_after_chunks source size cs) as [td1 ->].
    split; [by destruct source|].
    destruct (chunks_fit_or_not engine cs)
      as [[Hfit _]|(pre & c & post & -> & Hpre & Hc & _ & _)].
    + by destruct (capped_after_chunks engine cs Hfit) as [td2 ->].
    + rewrite <- (app_nil_r (map ReadChunk _)).
      by rewrite capped_overflowed_among.
  - rewrite live_finished_rest. split; [done|].
    destruct (chunks_fit_or_not engine cs)
      as [[Hfit _]|(pre & c & post & -> & Hpre & Hc & _ & _)].
    + by rewrite capped_finished.
    + by rewrite capped_overflowed_among.
  - rewrite live_rejected. split.
    { unfold LiveViewer.on_reject. by destruct (String.eqb _ _). }
    destruct (chunks_fit_or_not engine cs)
      as [[Hfit _]|(pre & c & post & -> & Hpre & Hc & _ & _)].
    + rewrite capped_rejected by done.
      unfold CappedViewer.on_reject. by destruct (String.eqb _ _).
    + by rewrite capped_overflowed_among.
Qed.

(** A read that fails with anything but an abort: both viewers end with
    'Error occurred.' and an error message, and draw the error panel.  The
    live viewer quotes [err.message]; it still holds in [logLines] the lines
    completed before the failure and in [totalBytes] the bytes read, but the
    panel replaces the rows.  The first viewer holds no line; it quotes
    [err.message] when the chunks before the failure fit, and otherwise the
    error of the first chunk that did not, at which it had stopped
    reading. *)
Theorem stream_failure_shows_error_panel (engine : Engine)
    (source : LiveViewer.LogSource) (size : option Z)
    (cs : list (list byte)) (err : JsError) (rest : list ReadResult)
    (toLowerCase : jsstring -> jsstring) (s : Search)
    (scrollTop containerHeight : Q) :
  String.eqb (name err) "AbortError" = false ->
  let trace := map ReadChunk cs ++ ReadRejected err :: rest in
  let live := LiveViewer.view
                (LiveViewer.run (LiveViewer.streaming source size) trace) in
  let capped := CappedViewer.view
                  (CappedViewer.run engine CappedViewer.streaming trace) in
  let live_message :=
    ("Failed to stream file. This could be a CORS issue, network problem, or the file may not exist. (Details: "
     ++ message err ++ ")")%string in
  let capped_message :=
    ("Failed to stream file. This is likely a CORS issue, a network problem, or the file may not exist. Please check the browser console for details. Error: "
     ++ (if forallb (fits engine) cs then message err
         else range_message engine))%string in
  (LiveViewer.status live = "Error occurred."
   /\ LiveViewer.error live = Some live_message
   /\ LiveViewer.logLines live = complete_lines (stream_text (concat cs))
   /\ LiveViewer.totalBytes live = byteLength (concat cs)
   /\ LiveViewer.render toLowerCase live s scrollTop containerHeight
      = ErrorPanel live_message)
  /\ (CappedViewer.status capped = "Error occurred."
      /\ CappedViewer.error capped = Some capped_message
      /\ CappedViewer.logLines capped = []
      /\ CappedViewer.totalBytes capped
         = byteLength (concat (consumed engine cs))
      /\ CappedViewer.render toLowerCase capped s scrollTop containerHeight
         = ErrorPanel capped_message).
Proof.
  intros Hname. cbv zeta. rewrite live_rejected. split.
  { unfold LiveViewer.on_reject. rewrite Hname. by split_and!. }
  destruct (chunks_fit_or_not engine cs)
    as [[Hfit Hall]|(pre & c & post & -> & Hpre & Hc & Hnot & Hcons)].
  - rewrite capped_rejected, Hfit, Hall by done.
    unfold CappedViewer.on_reject. rewrite Hname. by split_and!.
  - rewrite capped_overflowed_among, Hnot, Hcons by done.
    by split_and!.
Qed.

Lemma stream_failure_shows_error_panel_witness :
  let trace := [ReadChunk (ln "a" ++ bytes "b");
                ReadRejected (MkError "TypeError" "network error")] in
  let live := LiveViewer.view
    (LiveViewer.run
       (LiveViewer.streaming (LiveViewer.Remote "http://logs" "app.log") None)
       trace) in
  let capped := CappedViewer.view
    (CappedViewer.run JavaScriptCore CappedViewer.streaming trace) in
  LiveViewer.logLines live
  = complete_lines (stream_text (concat [ln "a" ++ bytes "b"]))
  /\ LiveViewer.render ascii_toLowerCase live mounted 0 440
     = ErrorPanel
         "Failed to stream file. This could be a CORS issue, network problem, or the file may not exist. (Details: network error)"
  /\ CappedViewer.render ascii_toLowerCase capped mounted 0 440
     = ErrorPanel
         "Failed to stream file. This is likely a CORS issue, a network problem, or the file may not exist. Please check the browser console for details. Error: network error".
Proof.
  pose proof (stream_failure_shows_error_panel JavaScriptCore
    (LiveViewer.Remote "http://logs" "app.log") None [ln "a" ++ bytes "b"]
    (MkError "TypeError" "network error") [] ascii_toLowerCase mounted 0 440
    eq_refl) as H.
  cbv zeta in H. destruct H as [(_ & _ & H1 & _ & H2) (_ & _ & _ & _ & H3)].
  split_and!; [exact H1|exact H2|exact H3].
Defined.

(** What is drawn while streaming and after "Cancel", when no search term
    is in force.  The first viewer shows only the spinner while it streams
    and, once cancelled, the cancelled note (the "Searching..." spinner
    while the search flag is up): nothing of what it read; after a chunk
    that did not fit it shows the error panel instead.  The live viewer on a
    remote source shows the spinner until a line is complete, from then on
    the window over the lines read so far, and after "Cancel" still that
    window; only when no line was complete does it show the note. *)
Theorem rows_while_streaming (engine : Engine) (baseUrl fileName : string)
    (size : option Z) (cs : list (list byte)) (pending : list ReadResult)
    (toLowerCase : jsstring -> jsstring) (typed : jsstring)
    (searching : bool) (timeout : option jsstring)
    (scrollTop containerHeight : Q) :
  let source := LiveViewer.Remote baseUrl fileName in
  let search := MkSearch typed [] searching timeout in
  let lines := complete_lines (stream_text (concat cs)) in
  let window :=
    rows_block (imap (fun index l => MkItem l index) lines)
               scrollTop containerHeight in
  let note := if searching then SearchingSpinner else CancelledNote in
  let overflow :=
    ErrorPanel
      ("Failed to stream file. This is likely a CORS issue, a network problem, or the file may not exist. Please check the browser console for details. Error: "
       ++ range_message engine)%string in
  let live := fun rs =>
    LiveViewer.render toLowerCase
      (LiveViewer.view (LiveViewer.run (LiveViewer.streaming source size) rs))
      search scrollTop containerHeight in
  let capped := fun rs =>
    CappedViewer.render toLowerCase
      (CappedViewer.view (CappedViewer.run engine CappedViewer.streaming rs))
      search scrollTop containerHeight in
  capped (map ReadChunk cs)
  = (if forallb (fits engine) cs then LogContainer Loading else overflow)
  /\ capped (map ReadChunk cs ++ CappedViewer.handleCancelStream pending)
     = (if forallb (fits engine) cs then LogContainer note else overflow)
  /\ live (map ReadChunk cs)
     = LogContainer (match lines with [] => Loading | _ => window end)
  /\ live (map ReadChunk cs ++ LiveViewer.handleCancelStream source pending)
     = LogContainer (match lines with [] => note | _ => window end).
Proof.
  cbv beta zeta.
  unfold CappedViewer.handleCancelStream, LiveViewer.handleCancelStream.
  cbn [LiveViewer.is_remote]. rewrite live_rejected.
  destruct (live_after_chunks (LiveViewer.Remote baseUrl fileName) size cs)
    as [td1 ->].
  split_and!.
  - destruct (chunks_fit_or_not engine cs)
      as [[Hfit _]|(pre & c & post & -> & Hpre & Hc & Hnot & _)].
    + rewrite Hfit. by destruct (capped_after_chunks engine cs Hfit) as [td ->].
    + rewrite Hnot, <- (app_nil_r (map ReadChunk _)).
      by rewrite capped_overflowed_among.
  - destruct (chunks_fit_or_not engine cs)
      as [[Hfit _]|(pre & c & post & -> & Hpre & Hc & Hnot & _)].
    + rewrite Hfit, capped_rejected by done. by destruct searching.
    + rewrite Hnot. by rewrite capped_overflowed_among.
  - unfold LiveViewer.render, LiveViewer.renderContent, filteredLines.
    cbn [LiveViewer.view LiveViewer.error LiveViewer.logLines
         debouncedSearchTerm truthy negb].
    by destruct (complete_lines _) as [|l ls].
  - unfold LiveViewer.render, LiveViewer.renderContent, filteredLines.
    cbn [LiveViewer.view LiveViewer.error LiveViewer.logLines
         LiveViewer.on_reject name AbortError String.eqb negb
         debouncedSearchTerm truthy].
    destruct (complete_lines _) as [|l ls]; by destruct searching.
Qed.

(** ** Tailing after the initial stream *)

(** Turning "Go Live" on installs the polling interval only after a stream
    that reached its end, and only for a remote source: after a
    cancellation or a failure, and while the stream is still being read,
    [isLive] becomes true but no poll is ever made. *)
Theorem tailing_needs_finished_stream (source : LiveViewer.LogSource)
    (size : option Z) (rs : list ReadResult) :
  LiveViewer.tail_armed source
    (LiveViewer.toggleLive
       (LiveViewer.view (LiveViewer.run (LiveViewer.streaming source size) rs)))
  = true
  <-> LiveViewer.is_remote source = true
      /\ exists cs rest, rs = map ReadChunk cs ++ ReadDone :: rest.
Proof.
  destruct (read_trace rs) as [[cs ->]|(cs & r & rest & -> & [->|[err ->]])].
  - destruct (live_after_chunks source size cs) as [td ->].
    split.
    + by destruct source.
    + intros [_ (cs' & rest & H)]. exfalso.
      assert (Hin : ReadDone ∈ map ReadChunk cs).
      { rewrite H. apply elem_of_app. right. by left. }
      apply list_elem_of_fmap in Hin as (c & Hc & _). discriminate.
  - rewrite live_finished_rest. split.
    + intros H. split; [by destruct source|by exists cs, rest].
    + intros [Hr _]. by destruct source.
  - rewrite live_rejected. split.
    + unfold LiveViewer.on_reject.
      by destruct (String.eqb (name err) "AbortError"), source.
    + intros [_ (cs' & rest' & H)]. exfalso.
      revert cs' H. induction cs as [|c cs IH]; intros [|c' cs'] H;
        try discriminate.
      injection H as _ H. by eapply IH.
Qed.

Lemma live_step_appends (s : LiveViewer.Session) (r : ReadResult) :
  LiveViewer.logLines (LiveViewer.view s)
  `prefix_of` LiveViewer.logLines (LiveViewer.view (LiveViewer.read_step s r))
  /\ (LiveViewer.totalBytes (LiveViewer.view s)
      <= LiveViewer.totalBytes (LiveViewer.view (LiveViewer.read_step s r)))%Z.
Proof.
  unfold LiveViewer.read_step. destruct (LiveViewer.task s) as [t|]; [|done].
  destruct r as [value| |err].
  - destruct (decode _ _ _) as [dec chunk].
    destruct (take_lines _ _) as [lines buf].
    assert (0 <= byteLength value)%Z by (unfold byteLength; lia).
    destruct (0 <? _)%nat; cbn [LiveViewer.view]; simpl; split;
      try lia; try done.
    by apply prefix_app_r.
  - destruct (truthy _); simpl; split; try done. by apply prefix_app_r.
  - unfold LiveViewer.on_reject. simpl. by destruct (negb _).
Qed.

Lemma live_tick_appends (source : LiveViewer.LogSource) (hidden : bool)
    (v : LiveViewer.View) (r : LiveViewer.PollResult) :
  LiveViewer.logLines v
  `prefix_of` LiveViewer.logLines (LiveViewer.tick source hidden v r)
  /\ (LiveViewer.totalBytes v
      <= LiveViewer.totalBytes (LiveViewer.tick source hidden v r))%Z.
Proof.
  unfold LiveViewer.tick. destruct (LiveViewer.tail_armed source v); [|done].
  split.
  - destruct (tail_poll_appends source hidden v r) as (newLines & -> & _).
    by apply prefix_app_r.
  - unfold LiveViewer.tailLogFile.
    destruct (negb (LiveViewer.is_remote source) || hidden); [done|].
    set (v1 := if negb (LiveViewer.isLivePaused v) then _ else v).
    assert (Hv1 : LiveViewer.totalBytes v1 = LiveViewer.totalBytes v).
    { subst v1. by destruct (negb _). }
    destruct r as [err|st [err|content]]; simpl; try lia.
    + destruct (st =? 416)%Z; [lia|]. destruct (negb _ && negb _); simpl; lia.
    + destruct (st =? 416)%Z; [lia|].
      destruct (negb _ && negb _); simpl; [lia|].
      assert (0 <= byteLength content)%Z by (unfold byteLength; lia).
      destruct (0 <? byteLength content)%Z; [|lia].
      destruct (decode _ _ _) as [td chunk].
      destruct (0 <? _)%nat; simpl; lia.
Qed.

Lemma handleScroll_data (scrollHeight scrollTop clientHeight : Q)
    (v : LiveViewer.View) :
  let v' :=
    (LiveViewer.handleScroll scrollHeight scrollTop clientHeight v).2 in
  LiveViewer.logLines v' = LiveViewer.logLines v
  /\ LiveViewer.totalBytes v' = LiveViewer.totalBytes v
  /\ LiveViewer.status v' = LiveViewer.status v
  /\ LiveViewer.isLive v' = LiveViewer.isLive v
  /\ LiveViewer.error v' = LiveViewer.error v
  /\ LiveViewer.fileSize v' = LiveViewer.fileSize v.
Proof.
  cbv zeta. unfold LiveViewer.handleScroll. cbn [snd].
  destruct v as [ll tb fs er st [|] ip]; [|done].
  cbn [LiveViewer.isLive]. by destruct (Qlt_le_dec _ _).
Qed.

Lemma live_event_appends (source : LiveViewer.LogSource)
    (s : LiveViewer.Session) (e : LiveEvent) :
  LiveViewer.logLines (LiveViewer.view s)
  `prefix_of` LiveViewer.logLines (LiveViewer.view (live_event source s e))
  /\ (LiveViewer.totalBytes (LiveViewer.view s)
      <= LiveViewer.totalBytes (LiveViewer.view (live_event source s e)))%Z.
Proof.
  destruct e as [r|hidden r| |a b c|];
    [simpl|simpl|simpl|cbn [live_event LiveViewer.view]|simpl].
  - apply live_step_appends.
  - apply live_tick_appends.
  - done.
  - destruct (handleScroll_data a b c (LiveViewer.view s)) as (-> & -> & _).
    done.
  - done.
Qed.

(** The live viewer's store is append-only.  From any state of a session,
    whatever the reader and the polls deliver and whatever the user does,
    the lines already in [logLines] stay where they are (a line keeps its
    index, hence its displayed number) and [totalBytes] never decreases. *)
Theorem live_store_append_only (source : LiveViewer.LogSource)
    (s : LiveViewer.Session) (es : list LiveEvent) (i : nat) (l : jsstring) :
  LiveViewer.logLines (LiveViewer.view s) !! i = Some l ->
  LiveViewer.logLines (LiveViewer.view (live_events source s es)) !! i
  = Some l
  /\ LiveViewer.logLines (LiveViewer.view s)
     `prefix_of` LiveViewer.logLines
                   (LiveViewer.view (live_events source s es))
  /\ (LiveViewer.totalBytes (LiveViewer.view s)
      <= LiveViewer.totalBytes (LiveViewer.view (live_events source s es)))%Z.
Proof.
  intros Hl.
  assert (H : LiveViewer.logLines (LiveViewer.view s)
              `prefix_of` LiveViewer.logLines
                            (LiveViewer.view (live_events source s es))
              /\ (LiveViewer.totalBytes (LiveViewer.view s)
                  <= LiveViewer.totalBytes
                       (LiveViewer.view (live_events source s es)))%Z).
  { clear Hl. revert s. unfold live_events.
    induction es as [|e es IH]; intros s; [done|].
    simpl. destruct (live_event_appends source s e) as [H1 H2].
    destruct (IH (live_event source s e)) as [H3 H4].
    split; [by etrans|lia]. }
  destruct H as [Hpre Hbytes]. split_and!; [|done|done].
  by eapply prefix_lookup_Some.
Qed.

Lemma live_store_append_only_witness :
  let source := LiveViewer.Remote "http://logs" "app.log" in
  let s := LiveViewer.run (LiveViewer.streaming source None)
                          [ReadChunk (ln "a")] in
  let es := [Read (ReadChunk (ln "b")); Read ReadDone; GoLive;
             Tick false (LiveViewer.Response 206 (inr (ln "c")))] in
  LiveViewer.logLines (LiveViewer.view (live_events source s es)) !! 0
  = Some (text "a")
  /\ LiveViewer.logLines (LiveViewer.view (live_events source s es))
     = [text "a"; text "b"; text "c"].
Proof.
  split; [|by vm_compute].
  apply (live_store_append_only (LiveViewer.Remote "http://logs" "app.log")
           (LiveViewer.run
              (LiveViewer.streaming (LiveViewer.Remote "http://logs" "app.log")
                                    None)
              [ReadChunk (ln "a")])
           [Read (ReadChunk (ln "b")); Read ReadDone; GoLive;
            Tick false (LiveViewer.Response 206 (inr (ln "c")))]
           0 (text "a")).
  by vm_compute.
Defined.

Lemma tail_poll_lines_no_LF (source : LiveViewer.LogSource) (hidden : bool)
    (v : LiveViewer.View) (r : LiveViewer.PollResult) :
  Forall (fun l => LF ∉ l) (LiveViewer.logLines v) ->
  Forall (fun l => LF ∉ l)
         (LiveViewer.logLines (LiveViewer.tailLogFile source hidden v r)).
Proof.
  intros Hv. unfold LiveViewer.tailLogFile.
  destruct (negb (LiveViewer.is_remote source) || hidden); [done|].
  set (v1 := if negb (LiveViewer.isLivePaused v) then _ else v).
  assert (Hv1 : LiveViewer.logLines v1 = LiveViewer.logLines v).
  { subst v1. by destruct (negb _). }
  destruct r as [err|st [err|content]]; simpl; rewrite ?Hv1; try done.
  - destruct (st =? 416)%Z; [by rewrite Hv1|].
    destruct (negb _ && negb _); simpl; by rewrite Hv1.
  - destruct (st =? 416)%Z; [by rewrite Hv1|].
    destruct (negb _ && negb _); simpl; [by rewrite Hv1|].
    destruct (0 <? byteLength content)%Z; [|by rewrite Hv1].
    destruct (decode _ _ _) as [td chunk].
    destruct (0 <? _)%nat; simpl; rewrite Hv1; [|done].
    apply Forall_app. split; [done|].
    apply Forall_forall. intros l [_ Hl]%list_elem_of_filter.
    pose proof (split_nl_no_LF chunk) as Hall.
    rewrite Forall_forall in Hall. by apply Hall.
Qed.

(** The state of a live session in which neither a stored line nor the
    pending buffer holds a line terminator. *)
Lemma live_event_no_LF (source : LiveViewer.LogSource)
    (s : LiveViewer.Session) (e : LiveEvent) :
  Forall (fun l => LF ∉ l) (LiveViewer.logLines (LiveViewer.view s)) ->
  (forall t, LiveViewer.task s = Some t -> LF ∉ LiveViewer.buffer t) ->
  Forall (fun l => LF ∉ l)
         (LiveViewer.logLines (LiveViewer.view (live_event source s e)))
  /\ (forall t, LiveViewer.task (live_event source s e) = Some t ->
                LF ∉ LiveViewer.buffer t).
Proof.
  intros Hlines Hbuf.
  destruct e as [r|hidden r| |a b c|];
    [simpl|simpl|simpl|cbn [live_event LiveViewer.view LiveViewer.task]|simpl].
  - unfold LiveViewer.read_step.
    destruct (LiveViewer.task s) as [t|] eqn:Et; [|by rewrite Et].
    specialize (Hbuf t eq_refl). destruct r as [value| |err].
    + destruct (decode _ _ _) as [dec chunk]. rewrite take_lines_spec.
      split.
      * destruct (0 <? _)%nat; simpl; [|done].
        apply Forall_app. split; [done|apply complete_lines_no_LF].
      * simpl. intros t' [= <-]. apply fragment_no_LF.
    + split; [|done]. destruct (truthy _); simpl; [|done].
      apply Forall_app. split; [done|by repeat constructor].
    + split; [|done]. unfold LiveViewer.on_reject. simpl.
      by destruct (negb _).
  - split; [|done]. unfold LiveViewer.tick.
    destruct (LiveViewer.tail_armed _ _); [|done].
    by apply tail_poll_lines_no_LF.
  - done.
  - by destruct (handleScroll_data a b c (LiveViewer.view s)) as (-> & _).
  - done.
Qed.

(** A stored line never holds a line terminator: from the start of the
    stream, whatever the reader and the polls deliver and whatever the user
    does, every element of [logLines] is free of '\n'. *)
Theorem live_lines_hold_no_terminator (source : LiveViewer.LogSource)
    (size : option Z) (es : list LiveEvent) :
  Forall (fun l => LF ∉ l)
    (LiveViewer.logLines (LiveViewer.view
       (live_events source (LiveViewer.streaming source size) es))).
Proof.
  assert (H : forall s,
    Forall (fun l => LF ∉ l) (LiveViewer.logLines (LiveViewer.view s)) ->
    (forall t, LiveViewer.task s = Some t -> LF ∉ LiveViewer.buffer t) ->
    Forall (fun l => LF ∉ l)
      (LiveViewer.logLines (LiveViewer.view (live_events source s es)))).
  { unfold live_events. induction es as [|e es IH]; intros s H1 H2; [done|].
    simpl. destruct (live_event_no_LF source s e H1 H2) as [H3 H4].
    by apply IH. }
  apply H; [done|]. intros t [= <-]. apply not_elem_of_nil.
Qed.

(** ** Lines and newline bytes *)

(** The number of lines depends on the newline bytes alone.  After any
    chunks the live viewer holds exactly as many lines as the bytes read
    contain bytes 0x0A, whatever else they are (invalid UTF-8 included) and
    however they were chunked; the end of the stream adds at most one line,
    the unterminated rest. *)
Theorem line_count_is_newline_count (source : LiveViewer.LogSource)
    (size : option Z) (cs : list (list byte)) :
  let newlines := length (filter (fun b => byte_val b = LF) (concat cs)) in
  let reading := LiveViewer.run (LiveViewer.streaming source size)
                                (map ReadChunk cs) in
  let ended := LiveViewer.run (LiveViewer.streaming source size)
                              (map ReadChunk cs ++ [ReadDone]) in
  length (LiveViewer.logLines (LiveViewer.view reading)) = newlines
  /\ newlines <= length (LiveViewer.logLines (LiveViewer.view ended))
     <= newlines + 1
  /\ (newlines = length (LiveViewer.logLines (LiveViewer.view ended))
      <-> fragment (stream_text (concat cs)) = []).
Proof.
  cbv zeta. rewrite live_finished.
  destruct (live_after_chunks source size cs) as [td ->].
  cbn [LiveViewer.view LiveViewer.logLines].
  assert (Hn : length (complete_lines (stream_text (concat cs)))
               = length (filter (fun b => byte_val b = LF) (concat cs))).
  { rewrite complete_lines_count. unfold stream_text.
    apply feed_keeps_terminators. by left. }
  unfold all_lines. rewrite length_app, Hn.
  destruct (fragment _) as [|c f]; simpl; split_and!; try lia.
  - done.
  - split; [lia|done].
Qed.

(** ** Polling *)

Lemma tick_harmless (source : LiveViewer.LogSource) (v : LiveViewer.View)
    (poll : bool * LiveViewer.PollResult) :
  LiveViewer.tail_armed source v = true ->
  poll_harmless poll = true ->
  LiveViewer.tail_armed source (LiveViewer.tick source poll.1 v poll.2) = true
  /\ LiveViewer.totalBytes (LiveViewer.tick source poll.1 v poll.2)
     = (LiveViewer.totalBytes v + received poll)%Z.
Proof.
  intros Harmed Hpoll. destruct poll as [hidden r]. unfold LiveViewer.tick.
  rewrite Harmed. cbn [fst snd]. unfold LiveViewer.tailLogFile.
  unfold LiveViewer.tail_armed in Harmed.
  apply andb_true_iff in Harmed as [[Hlive Hremote]%andb_true_iff Hstatus].
  rewrite Hremote. cbn [negb orb].
  destruct hidden.
  { split; [|simpl; lia]. unfold LiveViewer.tail_armed.
    by rewrite Hlive, Hremote, Hstatus. }
  set (v1 := if negb (LiveViewer.isLivePaused v) then _ else v).
  assert (Hv1 : LiveViewer.tail_armed source v1 = true
                /\ LiveViewer.totalBytes v1 = LiveViewer.totalBytes v).
  { subst v1. unfold LiveViewer.tail_armed.
    destruct (negb _); simpl; by rewrite Hlive, Hremote, ?Hstatus. }
  destruct Hv1 as [Ha1 Hb1].
  unfold poll_harmless, poll_fails in Hpoll. cbn [fst snd orb] in Hpoll.
  destruct r as [err|st [err|content]]; [done| |].
  - destruct (Z.eqb_spec st 416) as [->|]; [split; [done|simpl; lia]|].
    simpl in Hpoll. rewrite orb_true_r in Hpoll. done.
  - destruct (Z.eqb_spec st 416) as [->|Hst].
    { split; [done|]. simpl. lia. }
    simpl in Hpoll. rewrite orb_false_r in Hpoll.
    apply negb_true_iff in Hpoll. rewrite Hpoll.
    assert (((st =? 206) || (st =? 200))%Z = true) as Hok.
    { destruct (st =? 206)%Z, (st =? 200)%Z; done. }
    cbn [received]. rewrite Hok.
    destruct (Z.ltb_spec 0 (byteLength content)) as [|Hzero].
    + destruct (decode _ _ _) as [td chunk].
      unfold LiveViewer.tail_armed in *.
      destruct (0 <? _)%nat; simpl in *; by rewrite Hb1.
    + split; [done|]. unfold byteLength in *. lia.
Qed.

(** The resume offset follows the bytes received.  While tailing is on, over
    any run of polls none of which fails (polls skipped because the page is
    hidden and 416 answers included), [totalBytes] grows by exactly the
    lengths of the bodies delivered with 206 or 200, and tailing stays
    on. *)
Theorem polls_advance_offset_by_bytes_received
    (source : LiveViewer.LogSource) (v : LiveViewer.View)
    (polls : list (bool * LiveViewer.PollResult)) :
  LiveViewer.tail_armed source v = true ->
  forallb poll_harmless polls = true ->
  LiveViewer.totalBytes (LiveViewer.ticks source v polls)
  = (LiveViewer.totalBytes v + foldr Z.add 0 (map received polls))%Z
  /\ LiveViewer.tail_armed source (LiveViewer.ticks source v polls) = true.
Proof.
  unfold LiveViewer.ticks. revert v.
  induction polls as [|poll polls IH]; intros v Harmed Hpolls.
  { simpl. split; [lia|done]. }
  simpl in Hpolls. apply andb_true_iff in Hpolls as [Hpoll Hpolls].
  destruct (tick_harmless source v poll Harmed Hpoll) as [H1 H2].
  simpl. destruct (IH _ H1 Hpolls) as [H3 H4].
  split; [|done]. rewrite H3, H2. lia.
Qed.

Lemma polls_advance_offset_by_bytes_received_witness :
  let source := LiveViewer.Remote "http://logs" "app.log" in
  let v := LiveViewer.MkView [text "x"] 2 None None "Stream finished." true
                             false in
  LiveViewer.totalBytes
    (LiveViewer.ticks source v
       [(false, LiveViewer.Response 206 (inr (ln "abc")));
        (false, LiveViewer.Response 416 (inr []));
        (true, LiveViewer.FetchRejected AbortError);
        (false, LiveViewer.Response 200 (inr (bytes "de")))])
  = 8%Z.
Proof.
  apply (polls_advance_offset_by_bytes_received
           (LiveViewer.Remote "http://logs" "app.log")
           (LiveViewer.MkView [text "x"] 2 None None "Stream finished." true
                              false)
           [(false, LiveViewer.Response 206 (inr (ln "abc")));
            (false, LiveViewer.Response 416 (inr []));
            (true, LiveViewer.FetchRejected AbortError);
            (false, LiveViewer.Response 200 (inr (bytes "de")))]);
    by vm_compute.
Defined.

(** Pausing is a matter of display only.  A poll appends the same lines,
    advances the offset as much and leaves tailing on or off alike whether
    the viewer is paused or not.  A scroll of the container records the new
    [scrollTop] and changes nothing else but the pause flag: while live it
    pauses exactly when the bottom is a pixel or more away, and when not
    live it leaves the flag alone too. *)
Theorem pause_leaves_data_alone (source : LiveViewer.LogSource)
    (hidden paused : bool) (v : LiveViewer.View) (r : LiveViewer.PollResult)
    (scrollHeight scrollTop clientHeight : Q) :
  let polled := LiveViewer.tick source hidden v r in
  let polled' :=
    LiveViewer.tick source hidden (LiveViewer.setIsLivePaused paused v) r in
  let scrolled :=
    LiveViewer.handleScroll scrollHeight scrollTop clientHeight v in
  (LiveViewer.logLines polled' = LiveViewer.logLines polled
   /\ LiveViewer.totalBytes polled' = LiveViewer.totalBytes polled
   /\ LiveViewer.isLive polled' = LiveViewer.isLive polled
   /\ LiveViewer.error polled' = LiveViewer.error polled
   /\ LiveViewer.isLivePaused polled' = paused)
  /\ scrolled.1 = scrollTop
  /\ LiveViewer.setIsLivePaused (LiveViewer.isLivePaused v) scrolled.2 = v
  /\ (LiveViewer.isLive v = true ->
      (LiveViewer.isLivePaused scrolled.2 = true
       <-> (1 <= scrollHeight - scrollTop - clientHeight)%Q))
  /\ (LiveViewer.isLive v = false -> scrolled.2 = v).
Proof.
  cbv zeta. destruct v as [ll tb fs er st il ip]. split_and!.
  1-5: unfold LiveViewer.tick, LiveViewer.tail_armed, LiveViewer.tailLogFile;
       cbn [LiveViewer.setIsLivePaused LiveViewer.isLive LiveViewer.status
            LiveViewer.isLivePaused LiveViewer.logLines LiveViewer.totalBytes
            LiveViewer.fileSize LiveViewer.error];
       destruct (il && LiveViewer.is_remote source && _); [|done];
       destruct (negb (LiveViewer.is_remote source) || hidden); [done|];
       destruct r as [err|http [err|content]];
       [ by destruct paused, ip
       | destruct (http =? 416)%Z; [by destruct paused, ip|];
         destruct (negb _ && negb _); by destruct paused, ip
       | destruct (http =? 416)%Z; [by destruct paused, ip|];
         destruct (negb _ && negb _); [by destruct paused, ip|];
         destruct (0 <? byteLength content)%Z; [|by destruct paused, ip];
         destruct (decode _ _ _) as [td chunk];
         destruct (0 <? _)%nat; by destruct paused, ip ].
  - done.
  - unfold LiveViewer.handleScroll. cbn [snd LiveViewer.isLive].
    destruct il; [|done]. by destruct (Qlt_le_dec _ _).
  - cbn [LiveViewer.isLive]. intros ->.
    unfold LiveViewer.handleScroll. cbn [snd LiveViewer.isLive].
    destruct (Qlt_le_dec _ _) as [Hnear|Hfar];
      cbn [LiveViewer.setIsLivePaused LiveViewer.isLivePaused].
    + split; [done|]. intros Hfar. by apply Qlt_not_le in Hnear.
    + done.
  - cbn [LiveViewer.isLive]. by intros ->.
Qed.

(** Live, at the bottom; a scroll 760 pixels up pauses. *)
Lemma pause_leaves_data_alone_witness :
  let v := LiveViewer.MkView [text "x"] 2 None None "Live" true false in
  LiveViewer.isLivePaused (LiveViewer.handleScroll 2200 1000 440 v).2 = true.
Proof.
  pose proof (pause_leaves_data_alone (LiveViewer.Remote "http://logs" "app.log")
                false false
                (LiveViewer.MkView [text "x"] 2 None None "Live" true false)
                (LiveViewer.Response 416 (inr [])) 2200 1000 440) as H.
  cbv zeta in H. destruct H as (_ & _ & _ & H & _).
  apply (H eq_refl). by vm_compute.
Defined.

(** ** The rendered window *)

Lemma Qceiling_gt_iff (x : Q) (n : Z) :
  (n < Qceiling x)%Z <-> (inject_Z n < x)%Q.
Proof.
  split; intros H.
  - apply Qle_lt_trans with (inject_Z (Qceiling x - 1));
      [|apply Qceiling_lt].
    rewrite <- Zle_Qle. lia.
  - rewrite Zlt_Qlt. apply Qlt_le_trans with x; [done|apply Qle_ceiling].
Qed.

(** Every row that the container shows is in the rendered range, and so are
    the ten rows before and after it that exist: if row [i] of [totalRows]
    overlaps the pixels from [scrollTop] to [scrollTop + containerHeight],
    then every row [j] with [i - 10 <= j <= i + 10] is rendered. *)
Theorem window_covers_visible_rows (scrollTop containerHeight : Q)
    (totalRows i j : Z) :
  (0 <= i < totalRows)%Z ->
  (scrollTop < inject_Z (i + 1) * ROW_HEIGHT)%Q ->
  (inject_Z i * ROW_HEIGHT < scrollTop + containerHeight)%Q ->
  (0 <= j < totalRows)%Z -> (i - 10 <= j <= i + 10)%Z ->
  (startIndex scrollTop <= j
   < endIndex scrollTop containerHeight totalRows)%Z.
Proof.
  intros Hi Htop Hbottom Hj Hnear. unfold startIndex, endIndex.
  assert (Hf : (Qfloor (scrollTop / ROW_HEIGHT) < i + 1)%Z).
  { apply Qfloor_lt_iff. rewrite rows_of_pixels.
    unfold ROW_HEIGHT in Htop.
    generalize dependent (inject_Z (i + 1)). intros x Hx. lra. }
  assert (Hc : (i < Qceiling ((scrollTop + containerHeight) / ROW_HEIGHT))%Z).
  { apply Qceiling_gt_iff. rewrite rows_of_pixels.
    unfold ROW_HEIGHT in Hbottom.
    generalize dependent (inject_Z i). intros x Hx. lra. }
  lia.
Qed.

Lemma window_covers_visible_rows_witness :
  (startIndex 2200 <= 95 < endIndex 2200 440 1000)%Z.
Proof.
  apply (window_covers_visible_rows 2200 440 1000 100 95);
    by vm_compute.
Defined.

Lemma length_slice {A} (l : list A) (start_ end_ : Z) :
  (0 <= start_)%Z -> (0 <= end_)%Z ->
  (Z.of_nat (length (slice l start_ end_)) <= Z.max 0 (end_ - start_))%Z.
Proof.
  intros Hs He. unfold slice, clamp_index.
  destruct (Z.ltb_spec start_ 0); [lia|].
  destruct (Z.ltb_spec end_ 0); [lia|].
  rewrite length_take, length_drop. lia.
Qed.

(** The number of rendered rows depends on the height of the container, not
    on the number of lines: for a container of non-negative height whose
    bottom edge is not above the content, at most
    ceil(containerHeight / 22) + 21 rows are rendered, and the indices stay
    within the list. *)
Theorem window_size_is_bounded {A} (rows : list A)
    (scrollTop containerHeight : Q) :
  (0 <= containerHeight)%Q -> (0 <= scrollTop + containerHeight)%Q ->
  (Z.of_nat (length (visibleLines rows scrollTop containerHeight))
   <= Qceiling (containerHeight / ROW_HEIGHT) + 21)%Z
  /\ (0 <= startIndex scrollTop)%Z
  /\ (0 <= endIndex scrollTop containerHeight (Z.of_nat (length rows))
      <= Z.of_nat (length rows))%Z.
Proof.
  intros Hheight Hpos.
  set (f := Qfloor (scrollTop / ROW_HEIGHT)).
  set (c := Qceiling ((scrollTop + containerHeight) / ROW_HEIGHT)).
  set (k := Qceiling (containerHeight / ROW_HEIGHT)).
  assert (Hc0 : (0 <= c)%Z).
  { apply Qceiling_nonneg. rewrite rows_of_pixels. lra. }
  assert (Hcf : (c - f <= k + 1)%Z).
  { assert (H1 : (inject_Z (c - 1) < (scrollTop + containerHeight) / ROW_HEIGHT)%Q)
      by apply Qceiling_lt.
    assert (H2 : (scrollTop / ROW_HEIGHT < inject_Z (f + 1))%Q)
      by apply Qlt_floor.
    assert (H3 : (containerHeight / ROW_HEIGHT <= inject_Z k)%Q)
      by apply Qle_ceiling.
    rewrite rows_of_pixels in H1, H2, H3.
    assert (H4 : (inject_Z (c - 1) < inject_Z (f + 1) + inject_Z k)%Q).
    { revert H1 H2 H3.
      generalize (inject_Z (c - 1)) (inject_Z (f + 1)) (inject_Z k).
      intros x y z H1 H2 H3. lra. }
    rewrite <- inject_Z_plus, <- Zlt_Qlt in H4. lia. }
  assert (Hk0 : (0 <= k + 21)%Z).
  { assert (0 <= k)%Z; [|lia].
    apply Qceiling_nonneg. rewrite rows_of_pixels. lra. }
  split_and!.
  - unfold visibleLines.
    etrans; [apply length_slice|].
    + unfold startIndex. lia.
    + unfold endIndex. fold c. lia.
    + unfold startIndex, endIndex. fold f c. lia.
  - unfold startIndex. lia.
  - unfold endIndex. fold c. lia.
  - unfold endIndex. lia.
Qed.

Lemma window_size_is_bounded_witness :
  (Z.of_nat (length (visibleLines (seq 0 1000) 2200 440)) <= 41)%Z.
Proof.
  apply (window_size_is_bounded (seq 0 1000) 2200 440); by vm_compute.
Defined.

Lemma filtered_item_in_store (toLowerCase : jsstring -> jsstring)
    (logLines : list jsstring) (term : jsstring) (item : Item) :
  item ∈ filteredLines toLowerCase logLines term ->
  logLines !! originalIndex item = Some (line item).
Proof.
  intros Hin.
  eapply elem_of_sublist in Hin; [|apply filteredLines_sublist].
  apply elem_of_lookup_imap in Hin as (i & l & -> & Hl). done.
Qed.

(** A rendered row is the row its position says and shows the line its
    number says.  The k-th rendered row is row [startIndex + k] of the
    filtered view (the block is drawn [startIndex * 22] pixels down), and
    clicking it opens the detail of line number [n] with the content that
    [logLines] holds at index [n - 1]. *)
Theorem rendered_row_is_its_line (toLowerCase : jsstring -> jsstring)
    (logLines : list jsstring) (term : jsstring)
    (scrollTop containerHeight : Q) (k : nat) (item : Item) :
  let filtered := filteredLines toLowerCase logLines term in
  visibleLines filtered scrollTop containerHeight !! k = Some item ->
  filtered !! (Z.to_nat (startIndex scrollTop) + k) = Some item
  /\ logLines !! Z.to_nat ((selectLine item).1 - 1)
     = Some (selectLine item).2
  /\ (1 <= (selectLine item).1 <= Z.of_nat (length logLines))%Z.
Proof.
  cbv zeta. intros Hk. unfold visibleLines, slice in Hk.
  apply lookup_take_Some in Hk as [Hk _]. rewrite lookup_drop in Hk.
  assert (Hstart : (0 <= startIndex scrollTop)%Z) by (unfold startIndex; lia).
  assert (Hclamp :
    Z.to_nat (clamp_index
                (Z.of_nat (length (filteredLines toLowerCase logLines term)))
                (startIndex scrollTop))
    = Z.to_nat (startIndex scrollTop)).
  { apply lookup_lt_Some in Hk. unfold clamp_index in *.
    destruct (Z.ltb_spec (startIndex scrollTop) 0); lia. }
  rewrite Hclamp in Hk. split; [done|].
  assert (Hitem : logLines !! originalIndex item = Some (line item)).
  { eapply filtered_item_in_store, list_elem_of_lookup_2, Hk. }
  unfold selectLine. cbn [fst snd].
  replace (Z.to_nat (Z.of_nat (originalIndex item) + 1 - 1))
    with (originalIndex item) by lia.
  split; [done|]. apply lookup_lt_Some in Hitem. lia.
Qed.

Lemma rendered_row_is_its_line_witness :
  let logLines := [text "ERR foo"; text "OK bar"; text "an error"] in
  filteredLines ascii_toLowerCase logLines (text "err")
    !! (Z.to_nat (startIndex 0) + 1)
  = Some (MkItem (text "an error") 2)
  /\ logLines !! Z.to_nat ((selectLine (MkItem (text "an error") 2)).1 - 1)
     = Some (text "an error")
  /\ (1 <= (selectLine (MkItem (text "an error") 2)).1
      <= Z.of_nat (length logLines))%Z.
Proof.
  apply (rendered_row_is_its_line ascii_toLowerCase
           [text "ERR foo"; text "OK bar"; text "an error"] (text "err")
           0 440 1 (MkItem (text "an error") 2)).
  by vm_compute.
Defined.

(** ** The debounced search term *)

Lemma search_step_settled (s : Search) (e : SearchEvent) :
  (isSearching s = true <-> is_Some (handler s)) ->
  (forall t, handler s = Some t -> t = searchTerm s) ->
  (handler s = None -> debouncedSearchTerm s = searchTerm s) ->
  let s' := search_step s e in
  (isSearching s' = true <-> is_Some (handler s'))
  /\ (forall t, handler s' = Some t -> t = searchTerm s')
  /\ (handler s' = None -> debouncedSearchTerm s' = searchTerm s').
Proof.
  intros H1 H2 H3. cbv zeta. destruct e as [value|]; simpl.
  - destruct (bool_decide (value = searchTerm s)); [done|]. simpl.
    split_and!; [done| |done]. by intros t [= <-].
  - destruct (handler s) as [term|] eqn:E; [|by rewrite E].
    simpl. split_and!; [|done|].
    + split; [done|]. by intros [? ?].
    + intros _. by apply H2.
Qed.

Lemma typing_keeps_debounced (s : Search) (typed : list jsstring) :
  debouncedSearchTerm (search_run s (map Typed typed)) = debouncedSearchTerm s
  /\ searchTerm (search_run s (map Typed typed))
     = default (searchTerm s) (last typed).
Proof.
  unfold search_run. revert s.
  induction typed as [|value typed IH]; intros s; [done|].
  cbn [map fold_left].
  destruct (IH (search_step s (Typed value))) as [-> ->].
  cbn [search_step].
  destruct (bool_decide_reflect (value = searchTerm s)) as [->|];
    split; try done; destruct typed as [|j typed]; simpl; try done.
  by destruct (last (j :: typed)) as [x|] eqn:E; [|apply last_None in E].
Qed.

(** The filter term follows the input only when the timer fires.  After any
    history of typing and timer firings, the "searching" flag is up exactly
    while a timeout is pending, and with none pending the debounced term is
    the typed term.  Further typing alone never changes the debounced term
    (each keystroke replaces the pending timeout); when the timer then fires
    the debounced term becomes the last term typed, the earlier ones never
    having been filtered for, and the flag goes down. *)
Theorem debounce_takes_last_term (history : list SearchEvent)
    (typed : list jsstring) :
  let s := search_run mounted history in
  let s' := search_run s (map Typed typed) in
  let s'' := search_step s' TimeoutFired in
  (isSearching s = true <-> is_Some (handler s))
  /\ (handler s = None -> debouncedSearchTerm s = searchTerm s)
  /\ debouncedSearchTerm s' = debouncedSearchTerm s
  /\ searchTerm s' = default (searchTerm s) (last typed)
  /\ debouncedSearchTerm s'' = default (searchTerm s) (last typed)
  /\ isSearching s'' = false.
Proof.
  cbv zeta.
  assert (Hinv : forall es,
    let s := search_run mounted es in
    (isSearching s = true <-> is_Some (handler s))
    /\ (forall t, handler s = Some t -> t = searchTerm s)
    /\ (handler s = None -> debouncedSearchTerm s = searchTerm s)).
  { intros es. induction es as [|e es IH] using rev_ind.
    - simpl. split_and!; [done| |done]. by intros t [= <-].
    - unfold search_run in *. rewrite fold_left_app. simpl.
      destruct IH as (H1 & H2 & H3). by apply search_step_settled. }
  destruct (Hinv history) as (H1 & _ & H3).
  destruct (typing_keeps_debounced (search_run mounted history) typed)
    as [H4 H5].
  assert (Hall : search_run (search_run mounted history) (map Typed typed)
                 = search_run mounted (history ++ map Typed typed)).
  { unfold search_run. by rewrite fold_left_app. }
  destruct (Hinv (history ++ map Typed typed)) as (H6 & H7 & H8).
  rewrite <- Hall in H6, H7, H8.
  split_and!; try done.
  - rewrite <- H5.
    generalize dependent (search_run (search_run mounted history)
                                     (map Typed typed)).
    intros s' _ _ _ H6 H7 H8. unfold search_step.
    destruct (handler s') as [term|] eqn:E; simpl.
    + by apply H7.
    + by apply H8.
  - generalize dependent (search_run (search_run mounted history)
                                     (map Typed typed)).
    intros s' _ _ _ H6 H7 H8. unfold search_step.
    destruct (handler s') as [term|] eqn:E; [done|].
    destruct (isSearching s'); [|done].
    destruct H6 as [H6 _]. by destruct (H6 eq_refl) as [? ?].
Qed.

(** ** The progress bar *)

Section Rounding.

Local Open Scope Q_scope.

Lemma pow2_pos (k : Z) : 0 < 2 ^ k.
Proof. by apply Qpower_0_lt. Qed.

Lemma pow2_succ (k : Z) : 2 ^ (k + 1) == 2 * 2 ^ k.
Proof. rewrite Qpower_plus by discriminate. change (2 ^ 1) with 2. ring. Qed.

Lemma pow2_Z (k : Z) : (0 <= k)%Z -> inject_Z (2 ^ k) == 2 ^ k.
Proof. intros H. by rewrite Zpower_Qpower. Qed.

Lemma binade_spec (x : Q) :
  0 < x -> 2 ^ binade x <= x /\ x < 2 ^ (binade x + 1).
Proof.
  intros Hx. unfold binade.
  destruct x as [n d]. cbn [Qnum Qden].
  assert (Hn : (0 < n)%Z).
  { unfold Qlt in Hx. simpl in Hx. lia. }
  set (a := Z.log2 n). set (b := Z.log2 (Z.pos d)).
  assert (Ha : (0 <= a)%Z) by apply Z.log2_nonneg.
  assert (Hb : (0 <= b)%Z) by apply Z.log2_nonneg.
  destruct (Z.log2_spec n Hn) as [Ha1 Ha2]. fold a in Ha1, Ha2.
  destruct (Z.log2_spec (Z.pos d) eq_refl) as [Hb1 Hb2]. fold b in Hb1, Hb2.
  rewrite Z.pow_succ_r in Ha2, Hb2 by done.
  assert (HP : 2 ^ (a - b) * inject_Z (2 ^ b) == inject_Z (2 ^ a)).
  { rewrite !pow2_Z by done. rewrite Qpower_minus by discriminate.
    field. pose proof (pow2_pos b) as H. intros E. rewrite E in H.
    by apply Qlt_irrefl in H. }
  assert (HX : (n # d) * inject_Z (Z.pos d) == inject_Z n).
  { unfold Qeq. simpl. rewrite Pos.mul_1_r. ring. }
  rewrite Zle_Qle in Ha1, Hb1. rewrite Zlt_Qlt in Ha2, Hb2.
  rewrite inject_Z_mult in Ha2, Hb2.
  assert (HB : 0 < inject_Z (2 ^ b)).
  { rewrite pow2_Z by done. apply pow2_pos. }
  pose proof (pow2_succ (a - b)) as Hup.
  pose proof (pow2_succ (a - b - 1)) as Hdown.
  replace (a - b - 1 + 1)%Z with (a - b)%Z in Hdown by lia.
  pose proof (pow2_pos (a - b - 1)) as Hpos.
  assert (Hcore : forall P Pd Pu x A B N D : Q,
    P * B == A -> x * D == N -> A <= N -> N < 2 * A -> B <= D -> D < 2 * B ->
    0 < B -> Pu == 2 * P -> P == 2 * Pd -> 0 < Pd -> 0 < x ->
    (x < P -> Pd <= x) /\ x < Pu).
  { clear. intros P Pd Pu x A B N D HP HX HA1 HA2 HB1 HB2 HB Hup Hdown HPd Hx.
    assert (HD : 0 < D) by lra.
    assert (HPpos : 0 < P) by lra.
    split.
    - intros _.
      assert (H1 : P * B < 2 * x * B).
      { assert (x * D < x * (2 * B)) by (apply Qmult_lt_l; lra). lra. }
      assert (H2 : P < 2 * x).
      { apply (Qmult_lt_r _ _ B); lra. }
      lra.
    - assert (H1 : x * D < 2 * P * D).
      { assert (P * B <= P * D) by (apply Qmult_le_l; lra). lra. }
      assert (H2 : x < 2 * P).
      { apply (Qmult_lt_r _ _ D); lra. }
      lra. }
  destruct (Hcore (2 ^ (a - b)) (2 ^ (a - b - 1)) (2 ^ (a - b + 1)) (n # d)
              (inject_Z (2 ^ a)) (inject_Z (2 ^ b)) (inject_Z n)
              (inject_Z (Z.pos d))) as [H1 H2]; try done.
  destruct (Qlt_le_dec (n # d) (2 ^ (a - b))) as [Hlt|Hle].
  - replace (a - b - 1 + 1)%Z with (a - b)%Z by lia. split; [by apply H1|done].
  - done.
Qed.

Lemma binade_le (x y : Q) : 0 < x -> x <= y -> (binade x <= binade y)%Z.
Proof.
  intros Hx Hxy.
  destruct (binade_spec x Hx) as [H1 _].
  destruct (binade_spec y) as [_ H2]; [lra|].
  assert (H : 2 ^ binade x < 2 ^ (binade y + 1)) by lra.
  apply Qpower_lt_compat_l_inv in H; [lia|done].
Qed.

Lemma nearest_even_bounds (m : Q) :
  (Qfloor m <= nearest_even m <= Qfloor m + 1)%Z.
Proof.
  unfold nearest_even. destruct (Qcompare _ _); [|lia|lia].
  destruct (Z.even _); lia.
Qed.

Lemma nearest_even_ge (m : Q) (k : Z) :
  inject_Z k <= m -> (k <= nearest_even m)%Z.
Proof.
  intros H. apply Qfloor_resp_le in H. rewrite Qfloor_Z in H.
  pose proof (nearest_even_bounds m). lia.
Qed.

Lemma nearest_even_le (m : Q) (k : Z) :
  m <= inject_Z k -> (nearest_even m <= k)%Z.
Proof.
  intros H. pose proof (Qfloor_resp_le _ _ H) as Hf. rewrite Qfloor_Z in Hf.
  pose proof (nearest_even_bounds m) as Hb.
  destruct (Z.eq_dec (Qfloor m) k) as [E|]; [|lia].
  unfold nearest_even. rewrite E.
  destruct (Qcompare_spec (m - inject_Z k) (1 # 2)); [lra|lia|lra].
Qed.

Lemma nearest_even_mono (m m' : Q) :
  m <= m' -> (nearest_even m <= nearest_even m')%Z.
Proof.
  intros H. pose proof (Qfloor_resp_le _ _ H) as Hf.
  pose proof (nearest_even_bounds m) as Hb.
  pose proof (nearest_even_bounds m') as Hb'.
  destruct (Z.eq_dec (Qfloor m) (Qfloor m')) as [E|]; [|lia].
  unfold nearest_even. rewrite <- E.
  destruct (Qcompare_spec (m - inject_Z (Qfloor m)) (1 # 2)) as [H1|H1|H1];
    destruct (Qcompare_spec (m' - inject_Z (Qfloor m)) (1 # 2)) as [H2|H2|H2];
    try lia; try (destruct (Z.even _); lia); lra.
Qed.

Lemma ulp_scale (e : Z) : 2 ^ (e - 52) * inject_Z (2 ^ 52) == 2 ^ e.
Proof.
  rewrite pow2_Z by done. rewrite <- Qpower_plus by discriminate.
  by replace (e - 52 + 52)%Z with e by lia.
Qed.

Lemma round_double_pos (x : Q) :
  0 < x ->
  round_double x
  == inject_Z (nearest_even (x / 2 ^ (binade x - 52))) * 2 ^ (binade x - 52)
  /\ 2 ^ binade x <= round_double x <= 2 ^ (binade x + 1).
Proof.
  intros Hx. unfold round_double.
  destruct (Qcompare_spec x 0); [lra|lra|].
  cbv zeta. split; [done|].
  destruct (binade_spec x Hx) as [H1 H2].
  pose proof (ulp_scale (binade x)) as Hu.
  pose proof (pow2_pos (binade x - 52)) as Hpos.
  pose proof (pow2_succ (binade x)) as Hs.
  set (ulp := 2 ^ (binade x - 52)) in *.
  assert (Hm : x / ulp * ulp == x) by (field; lra).
  assert (Hlow : inject_Z (2 ^ 52) <= x / ulp).
  { apply (Qmult_le_r _ _ ulp); [done|]. lra. }
  assert (Hup : x / ulp <= inject_Z (2 ^ 53)).
  { apply (Qmult_le_r _ _ ulp); [done|].
    change (2 ^ 53)%Z with (2 * 2 ^ 52)%Z. rewrite inject_Z_mult.
    change (inject_Z 2) with 2. lra. }
  apply nearest_even_ge in Hlow. apply nearest_even_le in Hup.
  rewrite Zle_Qle in Hlow, Hup.
  change (2 ^ 53)%Z with (2 * 2 ^ 52)%Z in Hup. rewrite inject_Z_mult in Hup.
  change (inject_Z 2) with 2 in Hup.
  revert Hlow Hup Hu Hs Hpos.
  generalize (inject_Z (nearest_even (x / ulp))) (inject_Z (2 ^ 52)).
  intros r K Hlow Hup Hu Hs Hpos. split.
  - assert (K * ulp <= r * ulp) by (apply Qmult_le_r; lra). lra.
  - assert (r * ulp <= 2 * K * ulp) by (apply Qmult_le_r; lra). lra.
Qed.

Lemma round_double_nonneg (x : Q) : 0 <= x -> 0 <= round_double x.
Proof.
  intros Hx. destruct (Qlt_le_dec 0 x) as [Hpos|Hle].
  - destruct (round_double_pos x Hpos) as [_ [H _]].
    pose proof (pow2_pos (binade x)). lra.
  - unfold round_double. destruct (Qcompare_spec x 0); lra.
Qed.

(** Rounding is monotone on the non-negative numbers. *)
Lemma round_double_mono (x y : Q) :
  0 <= x -> x <= y -> round_double x <= round_double y.
Proof.
  intros Hx Hxy. destruct (Qlt_le_dec 0 x) as [Hpos|Hle].
  2:{ assert (Hz : round_double x == 0).
      { unfold round_double. destruct (Qcompare_spec x 0); lra. }
      rewrite Hz. apply round_double_nonneg. lra. }
  assert (Hy : 0 < y) by lra.
  pose proof (binade_le x y Hpos Hxy) as He.
  destruct (round_double_pos x Hpos) as [Hrx [_ Hux]].
  destruct (round_double_pos y Hy) as [Hry [Hly _]].
  destruct (Z.eq_dec (binade x) (binade y)) as [E|Hne].
  - rewrite Hrx, Hry, E.
    pose proof (pow2_pos (binade y - 52)) as Hu.
    apply Qmult_le_r; [done|]. rewrite <- Zle_Qle.
    apply nearest_even_mono. apply (Qmult_le_r _ _ (2 ^ (binade y - 52))); [done|].
    assert (H1 : x / 2 ^ (binade y - 52) * 2 ^ (binade y - 52) == x)
      by (field; lra).
    assert (H2 : y / 2 ^ (binade y - 52) * 2 ^ (binade y - 52) == y)
      by (field; lra).
    lra.
  - assert (H : 2 ^ (binade x + 1) <= 2 ^ binade y).
    { apply Qpower_le_compat_l; [lia|done]. }
    lra.
Qed.

Lemma round_double_fixes : round_double 0 == 0 /\ round_double 1 == 1
                           /\ round_double 100 == 100.
Proof. by vm_compute. Qed.

(** The largest double below 1 and its hundredfold. *)
Lemma round_double_below_one :
  round_double (1 - 2 ^ (-53)) == 1 - 2 ^ (-53)
  /\ round_double ((1 - 2 ^ (-53)) * 100) == 100 - 2 ^ (-46).
Proof. by vm_compute. Qed.

Lemma quotient_mono (t t' n : Z) :
  (0 < n)%Z -> (0 <= t)%Z -> (t <= t')%Z ->
  0 <= inject_Z t / inject_Z n /\ inject_Z t / inject_Z n <= inject_Z t' / inject_Z n.
Proof.
  intros Hn Ht Htt'. rewrite Zlt_Qlt in Hn. rewrite Zle_Qle in Ht, Htt'.
  change (inject_Z 0) with 0 in Hn, Ht. split.
  - apply Qle_shift_div_l; lra.
  - apply Qle_shift_div_l; [done|].
    assert (inject_Z t / inject_Z n * inject_Z n == inject_Z t) as ->
      by (field; lra).
    done.
Qed.

Lemma quotient_full (t n : Z) :
  (0 < n)%Z -> (n <= t)%Z -> 1 <= inject_Z t / inject_Z n.
Proof.
  intros Hn Ht. rewrite Zlt_Qlt in Hn. rewrite Zle_Qle in Ht.
  change (inject_Z 0) with 0 in Hn. apply Qle_shift_div_l; lra.
Qed.

Lemma quotient_short (t n : Z) :
  (0 < n)%Z -> (t < n)%Z -> (n < 2 ^ 53)%Z ->
  inject_Z t / inject_Z n <= 1 - 2 ^ (-53).
Proof.
  intros Hn Ht Hsafe.
  assert (Ht1 : (t + 1 <= n)%Z) by lia.
  assert (Hs1 : (n <= 9007199254740992)%Z) by lia.
  rewrite Zlt_Qlt in Hn. rewrite Zle_Qle in Ht1, Hs1.
  rewrite inject_Z_plus in Ht1.
  change (inject_Z 0) with 0 in Hn. change (inject_Z 1) with 1 in Ht1.
  change (inject_Z 9007199254740992) with (9007199254740992 # 1) in Hs1.
  assert (Hc : 1 - 2 ^ (-53) == 1 - (1 # 9007199254740992)) by by vm_compute.
  rewrite Hc. apply Qle_shift_div_r; [done|]. lra.
Qed.

End Rounding.

(** While the live viewer streams a source whose size was announced as
    [size > 0] (an integer that a double holds exactly), the progress shown
    is between 0 and 100, is 0 before the first byte, is 100 exactly when
    at least [size] bytes have been read (also when more bytes arrive than
    were announced), and does not go back when another chunk arrives,
    although the quotient and the product are rounded. *)
Theorem progress_is_bounded_and_monotone (source : LiveViewer.LogSource)
    (size : Z) (cs : list (list byte)) (value : list byte) :
  (0 < size < 2 ^ 53)%Z ->
  let p := fun chunks =>
    LiveViewer.progressPercent
      (LiveViewer.view
         (LiveViewer.run (LiveViewer.streaming source (Some size))
                         (map ReadChunk chunks))) in
  let bytesRead := byteLength (concat cs) in
  (0 <= p cs)%Q /\ (p cs <= 100)%Q
  /\ (bytesRead = 0%Z -> p cs == 0)%Q
  /\ (p cs == 100 <-> (size <= bytesRead)%Z)%Q
  /\ (p cs <= p (cs ++ [value]))%Q.
Proof.
  intros [Hsize Hsafe]. cbv beta zeta.
  destruct (live_after_chunks source (Some size) cs) as [td1 ->].
  destruct (live_after_chunks source (Some size) (cs ++ [value])) as [td2 ->].
  unfold LiveViewer.progressPercent, number_mul, number_div.
  cbn [LiveViewer.view LiveViewer.fileSize LiveViewer.totalBytes].
  rewrite concat_app, byteLength_app. simpl concat. rewrite app_nil_r.
  assert (Hb : (0 <= byteLength (concat cs))%Z) by (unfold byteLength; lia).
  assert (Hv : (0 <= byteLength value)%Z) by (unfold byteLength; lia).
  set (b := byteLength (concat cs)) in *. clearbody b.
  set (b' := (b + byteLength value)%Z).
  assert (Hb' : (b <= b')%Z) by (unfold b'; lia). clearbody b'.
  assert ((size =? 0)%Z = false) as -> by (apply Z.eqb_neq; lia).
  cbn [orb].
  (* the rounded quotient and the rounded product, as functions of the bytes *)
  set (q := fun t : Z => round_double (inject_Z t / inject_Z size)).
  set (f := fun t : Z => round_double (q t * 100)).
  assert (Hq0 : forall t : Z, (0 <= t)%Z -> (0 <= q t)%Q).
  { intros t Ht. apply round_double_nonneg.
    by apply (quotient_mono t t size). }
  assert (Hqmono : forall t t' : Z,
            (0 <= t)%Z -> (t <= t')%Z -> (q t <= q t')%Q).
  { intros t t' Ht Htt'.
    by apply round_double_mono; apply (quotient_mono t t' size). }
  assert (Hf0 : forall t : Z, (0 <= t)%Z -> (0 <= f t)%Q).
  { intros t Ht. apply round_double_nonneg. specialize (Hq0 t Ht). lra. }
  assert (Hfmono : forall t t' : Z,
            (0 <= t)%Z -> (t <= t')%Z -> (f t <= f t')%Q).
  { intros t t' Ht Htt'. apply round_double_mono.
    - specialize (Hq0 t Ht). lra.
    - specialize (Hqmono t t' Ht Htt'). lra. }
  assert (Hfull : forall t : Z, (size <= t)%Z -> (100 <= f t)%Q).
  { intros t Ht. destruct round_double_fixes as (_ & H1 & H100).
    rewrite <- H100. apply round_double_mono; [lra|].
    assert (Hone : (1 <= q t)%Q).
    { rewrite <- H1. apply round_double_mono; [lra|].
      by apply quotient_full. }
    lra. }
  assert (Hshort : forall t : Z,
            (0 <= t < size)%Z -> (f t <= 100 - 2 ^ (-46))%Q).
  { intros t [Ht0 Ht]. destruct round_double_below_one as [H1 H2].
    rewrite <- H2. apply round_double_mono.
    - specialize (Hq0 t Ht0). lra.
    - assert (Hq : (q t <= 1 - 2 ^ (-53))%Q).
      { rewrite <- H1. apply round_double_mono.
        - by apply (quotient_mono t t size).
        - by apply quotient_short. }
      lra. }
  assert (Hgap : (100 - 2 ^ (-46) < 100)%Q) by by vm_compute.
  destruct (Z.ltb_spec 0 b) as [Hpos|Hzero]; cbn [negb].
  - assert ((0 <? b')%Z = true) as -> by (apply Z.ltb_lt; lia). cbn [negb].
    fold (q b) (q b'). fold (f b) (f b').
    specialize (Hf0 b Hb). specialize (Hfmono b b' Hb Hb').
    split_and!.
    + apply Q.min_glb; lra.
    + apply Q.le_min_r.
    + lia.
    + split.
      * intros H. destruct (Z.lt_ge_cases b size) as [Hlt|]; [|lia].
        specialize (Hshort b (conj Hb Hlt)).
        destruct (Q.min_spec (f b) 100) as [[H1 H2]|[H1 H2]];
          rewrite H2 in H; lra.
      * intros H. apply Q.min_r. by apply Hfull.
    + by apply Q.min_le_compat_r.
  - assert (Hb0 : b = 0%Z) by lia. split_and!; try done.
    + split; [intros H; by vm_compute in H|lia].
    + destruct (0 <? b')%Z; cbn [negb]; [|done].
      fold (q b'). fold (f b').
      apply Q.min_glb; [|done]. apply Hf0. lia.
Qed.

(** Four of four bytes read: the bar is full. *)
Lemma progress_is_bounded_and_monotone_witness :
  (LiveViewer.progressPercent
     (LiveViewer.view
        (LiveViewer.run
           (LiveViewer.streaming (LiveViewer.Local 4) (Some 4%Z))
           (map ReadChunk [ln "a"; ln "b"]))) == 100)%Q.
Proof.
  pose proof (progress_is_bounded_and_monotone (LiveViewer.Local 4) 4
                [ln "a"; ln "b"] [] ltac:(done)) as H.
  cbv beta zeta in H. destruct H as (_ & _ & _ & H & _).
  apply H. by vm_compute.
Defined.

(** Seven of 25 bytes: the quotient 0.28 is not a double, and the bar shows
    28.000000000000004, the double after 28. *)
Example progress_of_7_in_25 :
  (LiveViewer.progressPercent
     (LiveViewer.MkView [] 7 (Some 25%Z) None "Streaming log data..." false
                        false)
   == 28 + 2 ^ (-48))%Q.
Proof. by vm_compute. Qed.

(** ** Trimming *)

Lemma trimStart_snoc_visible (l : jsstring) (c : Z) :
  is_white_space c = false -> trimStart (l ++ [c]) = trimStart l ++ [c].
Proof.
  intros Hc. induction l as [|x l IH]; simpl.
  - by rewrite Hc.
  - by destruct (is_white_space x).
Qed.

Lemma trimStart_head (s : jsstring) :
  trimStart s = []
  \/ exists c r, trimStart s = c :: r /\ is_white_space c = false.
Proof.
  induction s as [|x s IH]; [by left|]. simpl.
  destruct (is_white_space x) eqn:E; [done|]. right. by exists x, s.
Qed.

Lemma trimStart_fixed (c : Z) (r : jsstring) :
  is_white_space c = false -> trimStart (c :: r) = c :: r.
Proof. intros Hc. simpl. by rewrite Hc. Qed.

Lemma trimEnd_cons_visible (c : Z) (r : jsstring) :
  is_white_space c = false -> trimEnd (c :: r) = c :: trimEnd r.
Proof.
  intros Hc. unfold trimEnd. simpl rev.
  by rewrite trimStart_snoc_visible, rev_app_distr.
Qed.

Lemma trimStart_idempotent (s : jsstring) :
  trimStart (trimStart s) = trimStart s.
Proof.
  destruct (trimStart_head s) as [->|(c & r & -> & Hc)]; [done|].
  by apply trimStart_fixed.
Qed.

Lemma trimEnd_idempotent (s : jsstring) : trimEnd (trimEnd s) = trimEnd s.
Proof. unfold trimEnd. by rewrite rev_involutive, trimStart_idempotent. Qed.

(** Trimming twice is trimming once. *)
Lemma trim_idempotent (s : jsstring) : trim (trim s) = trim s.
Proof.
  unfold trim at 2 3.
  destruct (trimStart_head s) as [->|(c & r & -> & Hc)]; [done|].
  rewrite trimEnd_cons_visible by done. unfold trim.
  rewrite trimStart_fixed by done.
  by rewrite <- trimEnd_cons_visible, trimEnd_idempotent.
Qed.

Lemma truthy_nonempty (s : jsstring) : truthy s = true <-> s <> [].
Proof. by destruct s. Qed.

(** ** The application shell *)

(** What "View Log" selects, case by case. *)
Lemma handleViewLog_selection (st : App.State) :
  match App.inputMode st with
  | App.ByDate =>
      (App.selectedDate st <> [] ->
       App.selectedFile (App.handleViewLog st)
       = Some (App.selectedDate st ++ text "-backend-logs.json"))
      /\ (App.selectedDate st = [] ->
          App.selectedFile (App.handleViewLog st) = App.selectedFile st)
  | App.Manual =>
      (has_visible_char (App.manualFileName st) ->
       App.selectedFile (App.handleViewLog st)
       = Some (trim (App.manualFileName st))
       /\ trim (App.manualFileName st) <> []
       /\ trim (trim (App.manualFileName st)) = trim (App.manualFileName st))
      /\ (~ has_visible_char (App.manualFileName st) ->
          App.selectedFile (App.handleViewLog st) = App.selectedFile st)
  end.
Proof.
  unfold App.handleViewLog. destruct (App.inputMode st).
  - by destruct (App.selectedDate st) as [|c d].
  - destruct (truthy _) eqn:E.
    + apply truthy_nonempty in E. split.
      * intros _. split_and!; [done|done|apply trim_idempotent].
      * intros Hn. destruct Hn. by apply trim_keeps_iff.
    + split; [|done]. intros Hv%trim_keeps_iff.
      apply truthy_nonempty in Hv. congruence.
Qed.

(** The application never opens a viewer on an empty file name.  Whatever
    the user does from the initial state, the selected file is either none
    or a non-empty name.  "View Log" in date mode selects the chosen date
    followed by '-backend-logs.json', and in manual mode the typed name
    without the white space around it; it leaves the selection as it is
    when the date is empty or the name blank; and it changes nothing else. *)
Theorem selected_file_is_never_blank (stored : option jsstring)
    (today : jsstring) (es : list App.Event) :
  let st := App.run (App.init stored today) es in
  let st' := App.handleViewLog st in
  (forall name, App.selectedFile st = Some name -> name <> [])
  /\ (App.inputMode st = App.ByDate -> App.selectedDate st <> [] ->
      App.selectedFile st'
      = Some (App.selectedDate st ++ text "-backend-logs.json"))
  /\ (App.inputMode st = App.ByDate -> App.selectedDate st = [] ->
      App.selectedFile st' = App.selectedFile st)
  /\ (App.inputMode st = App.Manual ->
      has_visible_char (App.manualFileName st) ->
      App.selectedFile st' = Some (trim (App.manualFileName st))
      /\ trim (trim (App.manualFileName st)) = trim (App.manualFileName st))
  /\ (App.inputMode st = App.Manual ->
      ~ has_visible_char (App.manualFileName st) ->
      App.selectedFile st' = App.selectedFile st)
  /\ App.setSelectedFile (default [] (App.selectedFile st)) st'
     = App.setSelectedFile (default [] (App.selectedFile st)) st.
Proof.
  cbv zeta.
  set (st := App.run (App.init stored today) es).
  pose proof (handleViewLog_selection st) as Hsel.
  split_and!.
  - subst st. clear Hsel.
    induction es as [|e es IH] using rev_ind; [done|].
    unfold App.run in *. rewrite fold_left_app. simpl.
    set (st := fold_left App.step es (App.init stored today)) in *.
    destruct e as [value| |value|value|mode| |]; simpl; try done.
    + unfold App.setUrlInput. by destruct (App.isEditingUrl st).
    + unfold App.handleUrlEditToggle.
      destruct (App.isEditingUrl st); [|done]. by destruct (truthy _).
    + intros name Hname.
      pose proof (handleViewLog_selection st) as Hsel.
      destruct (App.inputMode st).
      * destruct Hsel as [H1 H2].
        destruct (App.selectedDate st) as [|c d] eqn:E.
        -- rewrite H2 in Hname by done. by apply IH.
        -- rewrite H1 in Hname by done. by injection Hname as <-.
      * destruct Hsel as [H1 H2].
        destruct (decide (trim (App.manualFileName st) = [])) as [Hb|Hv].
        -- rewrite H2 in Hname; [by apply IH|].
           intros Hv%trim_keeps_iff. done.
        -- apply trim_keeps_iff in Hv.
           destruct (H1 Hv) as (Hs & Hne & _). congruence.
  - intros Hmode. rewrite Hmode in Hsel. apply Hsel.
  - intros Hmode. rewrite Hmode in Hsel. apply Hsel.
  - intros Hmode Hv. rewrite Hmode in Hsel.
    destruct Hsel as [H _]. by destruct (H Hv) as (? & _ & ?).
  - intros Hmode. rewrite Hmode in Hsel. apply Hsel.
  - unfold App.handleViewLog.
    destruct (App.inputMode st); by destruct (truthy _).
Qed.

Lemma url_step_settled (st : App.State) (e : App.Event) :
  App.logServerUrl st = or_empty (App.localStorage st) ->
  (App.isEditingUrl st = false ->
   trim (App.urlInput st) = trim (App.logServerUrl st)) ->
  App.logServerUrl (App.step st e)
  = or_empty (App.localStorage (App.step st e))
  /\ (App.isEditingUrl (App.step st e) = false ->
      trim (App.urlInput (App.step st e))
      = trim (App.logServerUrl (App.step st e)))
  /\ (App.logServerUrl (App.step st e) = App.logServerUrl st
      \/ (App.logServerUrl (App.step st e) = trim (App.urlInput st)
          /\ has_visible_char (App.logServerUrl (App.step st e)))).
Proof.
  destruct st as [sf url inp ed date mode mf ls]. simpl. intros H1 H2.
  destruct e as [value| |value|value|mode'| |]; simpl;
    try (split_and!; [done|done|by left]).
  - destruct ed; simpl; (split_and!; [done|done|by left]).
  - destruct ed; simpl.
    + destruct (trim inp) as [|c u] eqn:Et; simpl.
      * split_and!; [done|done|by left].
      * split_and!; [done| |right].
        -- intros _. by rewrite <- Et, trim_idempotent.
        -- split; [done|]. rewrite <- Et. apply trim_keeps_iff.
           by rewrite trim_idempotent, Et.
    + split_and!; [done|done|by left].
  - unfold App.handleViewLog. simpl. destruct mode.
    + destruct (truthy date); (split_and!; [done|done|by left]).
    + destruct (truthy (trim mf)); (split_and!; [done|done|by left]).
Qed.

(** The server URL in use is the one in storage.  Whatever the user does
    from the initial state, [logServerUrl] is what a reload would read from
    [localStorage] (the default when nothing usable is stored), and when the
    field is not being edited it shows that URL, up to white space around
    it.  Saving replaces the URL only by the field's content without the
    white space around it, and never by a blank one. *)
Theorem server_url_mirrors_storage (stored : option jsstring)
    (today : jsstring) (es : list App.Event) (e : App.Event) :
  let st := App.run (App.init stored today) es in
  App.logServerUrl st = or_empty (App.localStorage st)
  /\ (App.isEditingUrl st = false ->
      trim (App.urlInput st) = trim (App.logServerUrl st))
  /\ (App.logServerUrl (App.step st e) = App.logServerUrl st
      \/ (App.logServerUrl (App.step st e) = trim (App.urlInput st)
          /\ has_visible_char (App.logServerUrl (App.step st e)))).
Proof.
  cbv zeta.
  assert (H : App.logServerUrl (App.run (App.init stored today) es)
              = or_empty (App.localStorage (App.run (App.init stored today) es))
              /\ (App.isEditingUrl (App.run (App.init stored today) es) = false ->
                  trim (App.urlInput (App.run (App.init stored today) es))
                  = trim (App.logServerUrl
                            (App.run (App.init stored today) es)))).
  { induction es as [|e' es IH] using rev_ind.
    - simpl. split; [|done]. by destruct stored as [[|??]|].
    - unfold App.run in *. rewrite fold_left_app. simpl.
      destruct IH as [H1 H2].
      destruct (url_step_settled _ e' H1 H2) as (H3 & H4 & _). done. }
  destruct H as [H1 H2].
  destruct (url_step_settled _ e H1 H2) as (_ & _ & H5). done.
Qed.

Lemma server_url_mirrors_storage_witness :
  let st := App.run (App.init None (text "2024-01-01"))
              [App.UrlEditToggle; App.UrlTyped (text " http://logs ");
               App.UrlEditToggle] in
  trim (App.urlInput st) = trim (App.logServerUrl st)
  /\ App.logServerUrl st = text "http://logs"
  /\ App.localStorage st = Some (text "http://logs").
Proof.
  split; [|by vm_compute].
  apply (server_url_mirrors_storage None (text "2024-01-01")
           [App.UrlEditToggle; App.UrlTyped (text " http://logs ");
            App.UrlEditToggle] App.Back).
  by vm_compute.
Defined.

(** Manual mode, the name " app.log " typed: "View Log" opens app.log. *)
Lemma selected_file_is_never_blank_witness :
  let st := App.run (App.init None (text "2024-01-01"))
              [App.ModeChosen App.Manual;
               App.FileNameTyped (text " app.log ")] in
  App.selectedFile (App.handleViewLog st) = Some (text "app.log")
  /\ text "app.log" <> [].
Proof.
  pose proof (selected_file_is_never_blank None (text "2024-01-01")
                [App.ModeChosen App.Manual;
                 App.FileNameTyped (text " app.log ")]) as H.
  cbv zeta in H. destruct H as (_ & _ & _ & H & _).
  destruct (H eq_refl) as [H1 _].
  { apply Exists_cons_tl, Exists_cons_hd. done. }
  split; [exact H1|].
  pose proof (selected_file_is_never_blank None (text "2024-01-01")
                [App.ModeChosen App.Manual;
                 App.FileNameTyped (text " app.log "); App.ViewLog]) as H2.
  cbv zeta in H2. destruct H2 as [H2 _].
  apply (H2 (text "app.log")). by vm_compute.
Defined.

(** ** The directory listing *)

Lemma startsWith_char (h : jsstring) (c : Z) :
  startsWith h [c] = true <-> head h = Some c.
Proof.
  destruct h as [|x h]; simpl; [done|].
  rewrite andb_true_iff, Z.eqb_eq. split.
  - by intros [-> _].
  - intros [= ->]. split; [done|]. by destruct h.
Qed.

Lemma last_rev_head {A} (l : list A) : last l = head (rev l).
Proof.
  induction l as [|x l _] using rev_ind; [done|].
  by rewrite last_snoc, rev_app_distr.
Qed.

Lemma endsWith_char (h : jsstring) (c : Z) :
  endsWith h [c] = true <-> last h = Some c.
Proof. unfold endsWith. simpl rev. by rewrite startsWith_char, last_rev_head. Qed.

(** The filter of [fetchLogFiles] keeps exactly the links that name a
    file; the test for '../' adds nothing to the test for a final '/'. *)
Lemma keep_href_spec (href : option jsstring) :
  FileListing.keep_href href = true
  <-> exists h, href = Some h /\ names_file h.
Proof.
  unfold FileListing.keep_href, names_file.
  destruct href as [h|]; [|split; [done|by intros (? & ? & _)]].
  destruct h as [|x h]; simpl truthy; cbv iota.
  { split; [done|]. by intros (? & [= <-] & ? & _). }
  cbn [negb]. cbv zeta.
  change (text "?") with [63%Z]. change (text "/") with [47%Z].
  change (text "#") with [35%Z].
  rewrite !andb_true_iff, !negb_true_iff.
  rewrite <- !not_true_iff_false, bool_decide_eq_true.
  rewrite !startsWith_char, endsWith_char. split.
  - intros (((_ & Hq) & Hd) & Ha). exists (x :: h). by split_and!.
  - intros (h' & [= <-] & _ & Hq & Ha & Hd). split_and!; try done.
    intros Heq. apply Hd. rewrite Heq. done.
Qed.

Lemma omap_id_cons {A} (x : option A) (l : list (option A)) :
  omap id (x :: l)
  = match x with Some a => a :: omap id l | None => omap id l end.
Proof. by destruct x. Qed.

Lemma kept_hrefs (links : list (option jsstring)) :
  omap id (filter (fun h => Is_true (FileListing.keep_href h)) links)
  = filter names_file (omap id links).
Proof.
  induction links as [|href links IH]; [done|].
  rewrite filter_cons, (omap_id_cons href).
  destruct (decide (Is_true _)) as [Hk|Hk].
  - apply Is_true_true, keep_href_spec in Hk as (h & -> & Hh).
    rewrite omap_id_cons, filter_cons, decide_True by done. by rewrite IH.
  - destruct href as [h|]; [|done].
    rewrite filter_cons, decide_False; [done|].
    intros Hh. apply Hk, Is_true_true, keep_href_spec. by exists h.
Qed.

Lemma decode_all_spec (decodeURIComponent : jsstring -> JsError + jsstring)
    (hrefs names : list jsstring) :
  FileListing.decode_all decodeURIComponent hrefs = inr names
  <-> Forall2 (fun h n => decodeURIComponent h = inr n) hrefs names.
Proof.
  revert names. induction hrefs as [|h hrefs IH]; intros names; simpl.
  - split; [by intros [= <-]|by inversion 1].
  - destruct (decodeURIComponent h) as [err|n] eqn:E.
    { split; [done|]. inversion 1; congruence. }
    destruct (FileListing.decode_all _ hrefs) as [err|ns] eqn:E2.
    + split; [done|]. inversion 1 as [|? ? ? ns' ? Hns]; subst.
      apply IH in Hns. congruence.
    + split.
      * intros [= <-]. constructor; [done|]. by apply IH.
      * inversion 1 as [|? n' ? ns' Hn Hns]; subst.
        apply IH in Hns. congruence.
Qed.

(** [fetchLogFiles] has two kinds of result.  When the URL starts with
    'http', the listing is fetched and parsed and every kept href decodes,
    the files are, in document order, the decoded hrefs of exactly the
    links that name a file.  When any of this fails (the URL check, the
    fetch, the status, the body, or one href that does not decode), the
    result is a single entry, which [FileList] takes for an error report
    and which no non-empty filter shows. *)
Theorem listing_is_files_or_one_error
    (decodeURIComponent : jsstring -> JsError + jsstring)
    (toLowerCase : jsstring -> jsstring) (baseUrl : jsstring)
    (r : FileListing.ListingResponse) :
  let files := FileListing.fetchLogFiles decodeURIComponent baseUrl r in
  let succeeded := fun links names =>
    startsWith baseUrl (text "http") = true
    /\ r = FileListing.ListingBody (inr links)
    /\ Forall2 (fun h n => decodeURIComponent h = inr n)
               (filter names_file (omap id links)) names in
  (forall links names,
     succeeded links names -> files = map FileListing.MkLogFile names)
  /\ ((forall links names, ~ succeeded links names) ->
      FileListing.hasError files = true
      /\ length files = 1
      /\ forall c filter_,
           FileListing.filteredFiles toLowerCase files (c :: filter_) = [])
  /\ ((exists links names, succeeded links names)
      \/ forall links names, ~ succeeded links names).
Proof.
  cbv zeta.
  assert (Herr : forall file : FileListing.LogFile,
    startsWith (FileListing.name file) (text "Error:") = true ->
    FileListing.hasError [file] = true /\ length [file] = 1
    /\ forall c filter_,
         FileListing.filteredFiles toLowerCase [file] (c :: filter_) = []).
  { intros file Hfile. split_and!; [done|done|].
    intros c filter_. unfold FileListing.filteredFiles. cbn [truthy negb].
    rewrite filter_cons, filter_nil, Hfile. cbn [negb andb].
    rewrite decide_False; [done|]. by intros []. }
  assert (Hcases :
    (exists links names,
       startsWith baseUrl (text "http") = true
       /\ r = FileListing.ListingBody (inr links)
       /\ Forall2 (fun h n => decodeURIComponent h = inr n)
                  (filter names_file (omap id links)) names)
    \/ ((forall links names,
           ~ (startsWith baseUrl (text "http") = true
              /\ r = FileListing.ListingBody (inr links)
              /\ Forall2 (fun h n => decodeURIComponent h = inr n)
                         (filter names_file (omap id links)) names))
        /\ exists file,
             FileListing.fetchLogFiles decodeURIComponent baseUrl r = [file]
             /\ startsWith (FileListing.name file) (text "Error:") = true)).
  { unfold FileListing.fetchLogFiles.
    destruct (startsWith baseUrl (text "http")) eqn:Hurl; cbn [negb].
    2:{ right. split; [by intros ? ? (? & _)|]. by eexists. }
    destruct r as [err|http_status statusText|[err|links]].
    1-3: right; (split; [by intros ? ? (_ & ? & _)|by eexists]).
    destruct (FileListing.decode_all _ _) as [err|names] eqn:E.
    - right. split; [|by eexists].
      intros links' names' (_ & [= <-] & HF).
      apply decode_all_spec in HF. rewrite <- kept_hrefs in HF. congruence.
    - left. exists links, names. split_and!; try done.
      apply decode_all_spec. by rewrite <- kept_hrefs. }
  split_and!.
  - intros links names (Hurl & -> & HF%decode_all_spec).
    unfold FileListing.fetchLogFiles. rewrite Hurl. cbn [negb].
    by rewrite kept_hrefs, HF.
  - intros Hnot. destruct Hcases as [(links & names & H)|[_ (file & -> & H)]].
    + by destruct (Hnot links names).
    + by apply Herr.
  - destruct Hcases as [H|[H _]]; [by left|by right].
Qed.

(** A listing with a parent link, a sort link, a directory, an anchor
    without href and two files. *)
Lemma listing_is_files_or_one_error_witness :
  FileListing.fetchLogFiles inr (text "http://logs")
    (FileListing.ListingBody
       (inr [Some (text "../"); Some (text "?C=N"); Some (text "app.log");
             None; Some (text "old/"); Some (text "b.log")]))
  = [FileListing.MkLogFile (text "app.log");
     FileListing.MkLogFile (text "b.log")].
Proof.
  pose proof (listing_is_files_or_one_error inr ascii_toLowerCase
                (text "http://logs")
                (FileListing.ListingBody
                   (inr [Some (text "../"); Some (text "?C=N");
                         Some (text "app.log"); None; Some (text "old/");
                         Some (text "b.log")]))) as H.
  cbv beta zeta in H. destruct H as [H _].
  apply (H [Some (text "../"); Some (text "?C=N"); Some (text "app.log");
            None; Some (text "old/"); Some (text "b.log")]
           [text "app.log"; text "b.log"]).
  split_and!; [done|done|].
  vm_compute. by repeat constructor.
Defined.
